(** * Minesweeper grid engine: a shallow embedding of [Board], [PowerUps]
    and the handlers of [Game], with the properties of the specification
    stated and settled against it, and further properties of the code.

    Conventions of the embedding.
    - A JavaScript number that holds an integer is a [Z].
    - [board.cells] is a [list Cell]; a reference to a cell object is its
      position in that list (a [nat]).  Boards are built by [create], which
      allocates one fresh object per position, so two positions never alias.
    - [null] and [undefined] are both [None]; every caller in the source
      tests such values with [!cell] or [if (cell)] only.
    - A function that mutates the board returns the new board next to its
      JavaScript result.
    - [Math.random()] reads the next draw of an explicit random source;
      [Date.now()] is a time handed to the call.
    - Calls into [UI] and [Sound] (rendering, audio) have no effect on the
      state modelled here and are left out of the handlers; the two
      counters of [UI] are modelled on their own, as the texts they
      write. *)

From Stdlib Require Import ZArith QArith Qround Lia Ascii DecimalString.
From stdpp Require Import base option list gmap strings.

#[local] Open Scope Z_scope.

(** ** Data model *)

Record Cell := mkCell {
  row : Z;
  col : Z;
  index : Z;
  isMine : bool;
  isRevealed : bool;
  isFlagged : bool;
  isQuestion : bool;
  adjacentMines : Z;
  powerup : option string;
  wrongFlag : bool;   (* set by revealAllMines; absent (falsy) until then *)
  exploded : bool     (* set by gameOver; absent (falsy) until then *)
}.

Record PowerupConfig := mkPowerupConfig {
  enabled : bool;
  spawnChance : Q;
  types : list string   (* Object.keys(powerupConfig.types) *)
}.

Record BoardState := mkBoard {
  rows : Z;
  cols : Z;
  mineCount : Z;
  cells : list Cell;
  minesPlaced : bool;
  powerupConfig : option PowerupConfig
}.

(** Field assignments on a cell object. *)
Definition setMine (v : bool) (c : Cell) : Cell :=
  mkCell (row c) (col c) (index c) v (isRevealed c) (isFlagged c)
         (isQuestion c) (adjacentMines c) (powerup c) (wrongFlag c) (exploded c).
Definition setRevealed (v : bool) (c : Cell) : Cell :=
  mkCell (row c) (col c) (index c) (isMine c) v (isFlagged c)
         (isQuestion c) (adjacentMines c) (powerup c) (wrongFlag c) (exploded c).
Definition setFlagged (v : bool) (c : Cell) : Cell :=
  mkCell (row c) (col c) (index c) (isMine c) (isRevealed c) v
         (isQuestion c) (adjacentMines c) (powerup c) (wrongFlag c) (exploded c).
Definition setQuestion (v : bool) (c : Cell) : Cell :=
  mkCell (row c) (col c) (index c) (isMine c) (isRevealed c) (isFlagged c)
         v (adjacentMines c) (powerup c) (wrongFlag c) (exploded c).
Definition setAdjacentMines (v : Z) (c : Cell) : Cell :=
  mkCell (row c) (col c) (index c) (isMine c) (isRevealed c) (isFlagged c)
         (isQuestion c) v (powerup c) (wrongFlag c) (exploded c).
Definition setPowerup (v : option string) (c : Cell) : Cell :=
  mkCell (row c) (col c) (index c) (isMine c) (isRevealed c) (isFlagged c)
         (isQuestion c) (adjacentMines c) v (wrongFlag c) (exploded c).
Definition setWrongFlag (v : bool) (c : Cell) : Cell :=
  mkCell (row c) (col c) (index c) (isMine c) (isRevealed c) (isFlagged c)
         (isQuestion c) (adjacentMines c) (powerup c) v (exploded c).
Definition setExploded (v : bool) (c : Cell) : Cell :=
  mkCell (row c) (col c) (index c) (isMine c) (isRevealed c) (isFlagged c)
         (isQuestion c) (adjacentMines c) (powerup c) (wrongFlag c) v.

(** [board.cells[p].field = v]: the object at position [p] is changed in
    place, every other object is left alone. *)
Definition updCell (f : Cell → Cell) (p : nat) (b : BoardState) : BoardState :=
  mkBoard (rows b) (cols b) (mineCount b) (alter f p (cells b))
          (minesPlaced b) (powerupConfig b).

Definition setMinesPlaced (v : bool) (b : BoardState) : BoardState :=
  mkBoard (rows b) (cols b) (mineCount b) (cells b) v (powerupConfig b).

(** Reading a boolean field through a cell reference. *)
Definition cellHas (f : Cell → bool) (b : BoardState) (p : nat) : bool :=
  match cells b !! p with
  | Some c => f c
  | None => false
  end.

(** JavaScript truthiness of [cell.powerup]: [null], [undefined] and the
    empty string are falsy. *)
Definition truthy (o : option string) : bool :=
  match o with
  | Some s => negb (String.eqb s EmptyString)
  | None => false
  end.

(** ** The random source *)

Record Rng := mkRng {
  draws : nat → Q;   (* the successive values of Math.random() *)
  cursor : nat
}.

Definition random (g : Rng) : Q * Rng :=
  (draws g (cursor g), mkRng (draws g) (S (cursor g))).

(** [Math.floor(Math.random() * n)] *)
Definition randomBelow (n : nat) (g : Rng) : nat * Rng :=
  let '(u, g') := random g in
  (Z.to_nat (Qfloor (u * inject_Z (Z.of_nat n))), g').

(** Results of [revealCell] and [chordReveal]. *)
Record RevealResult := mkReveal {
  revealed : list nat;
  hitMine : bool;
  explodedCell : option nat;
  resPowerup : option string   (* the [powerup] key of the result *)
}.

(** Result of [toggleFlag]. *)
Record FlagResult := mkFlag {
  changed : bool;
  flagCell : option nat        (* the [cell] key of the result *)
}.

(** The hard failure the specification names for board creation. *)
Inductive BoardError := InvalidDimensions.

Module Board.

(** [for (let i = 0; i < n; i++)]: the values [i] takes. *)
Definition upto (n : Z) : list Z := Z.of_nat <$> seq 0 (Z.to_nat n).

Definition newCell (cols row col : Z) : Cell :=
  mkCell row col (row * cols + col) false false false false 0 None false false.

Definition create (rows cols mineCount : Z) (cfg : option PowerupConfig)
  : BoardState :=
  let cells :=
    flat_map (λ row, (λ col, newCell cols row col) <$> upto cols) (upto rows) in
  mkBoard rows cols mineCount cells false cfg.

(** [create] has no [throw]: its completion is always a returned board. *)
Definition createOutcome (rows cols mineCount : Z) (cfg : option PowerupConfig)
  : BoardError + BoardState :=
  inr (create rows cols mineCount cfg).

Definition getCell (b : BoardState) (row col : Z) : option nat :=
  if (row <? 0) || (row >=? rows b) || (col <? 0) || (col >=? cols b)
  then None
  else
    let p := Z.to_nat (row * cols b + col) in
    match cells b !! p with
    | Some _ => Some p
    | None => None
    end.

Definition directions : list (Z * Z) :=
  [ (-1, -1); (-1, 0); (-1, 1);
    (0, -1);           (0, 1);
    (1, -1);  (1, 0);  (1, 1) ].

Definition getAdjacentCells (b : BoardState) (row col : Z) : list nat :=
  omap (λ d, getCell b (row + d.1) (col + d.2)) directions.

(** *** toggleFlag *)

Definition toggleFlag (b : BoardState) (row col : Z) : BoardState * FlagResult :=
  match getCell b row col with
  | None => (b, mkFlag false None)
  | Some p =>
    match cells b !! p with
    | None => (b, mkFlag false None)
    | Some cell =>
      if isRevealed cell then (b, mkFlag false None)
      else
        let b' :=
          if isFlagged cell then
            updCell (setQuestion true) p (updCell (setFlagged false) p b)
          else if isQuestion cell then updCell (setQuestion false) p b
          else updCell (setFlagged true) p b in
        (b', mkFlag true (Some p))
    end
  end.

(** *** revealCell *)

Definition noReveal : RevealResult := mkReveal [] false None None.

(** The work list [toReveal] is kept with its top at the head:
    [push] conses, [pop] takes the head. *)
Definition pushNeighbours (b : BoardState) (adjacent toReveal : list nat)
  : list nat :=
  foldl (λ stack adj,
           if negb (cellHas isRevealed b adj) && negb (cellHas isFlagged b adj)
              && negb (cellHas isMine b adj)
           then adj :: stack else stack)
        toReveal adjacent.

(** The [while (toReveal.length > 0)] loop.  [fuel] bounds the number of
    iterations; [None] stands for an iteration budget that ran out or for a
    reference that is not a cell of the board. *)
Fixpoint revealLoop (fuel : nat) (b : BoardState) (toReveal revealed : list nat)
  : option (BoardState * RevealResult) :=
  match toReveal with
  | [] => Some (b, mkReveal revealed false None None)
  | current :: rest =>
    match fuel with
    | O => None
    | S fuel' =>
      match cells b !! current with
      | None => None
      | Some cur =>
        if isRevealed cur || isFlagged cur then revealLoop fuel' b rest revealed
        else
          let b1 := updCell (setRevealed true) current b in
          let revealed1 := revealed ++ [current] in
          if isMine cur then
            Some (b1, mkReveal revealed1 true (Some current) None)
          else if truthy (powerup cur) then
            Some (b1, mkReveal revealed1 false None (powerup cur))
          else if adjacentMines cur =? 0 then
            let adjacent := getAdjacentCells b1 (row cur) (col cur) in
            revealLoop fuel' b1 (pushNeighbours b1 adjacent rest) revealed1
          else revealLoop fuel' b1 rest revealed1
      end
    end
  end.

(** Iteration budget given to the loop: every iteration either reveals a
    cell (pushing at most eight) or only pops. *)
Definition revealFuel (b : BoardState) : nat := (9 * length (cells b) + 2)%nat.

Definition revealCell (b : BoardState) (row col : Z)
  : option (BoardState * RevealResult) :=
  match getCell b row col with
  | None => Some (b, noReveal)
  | Some p =>
    match cells b !! p with
    | None => Some (b, noReveal)
    | Some cell =>
      if isRevealed cell || isFlagged cell then Some (b, noReveal)
      else revealLoop (revealFuel b) b [p] []
    end
  end.

(** *** chordReveal *)

(** The body of [for (const adj of adjacent)]: merging one neighbour call
    into [result]. *)
Definition mergeReveal (result rr : RevealResult) : RevealResult :=
  mkReveal (revealed result ++ revealed rr)
           (if hitMine rr then true else hitMine result)
           (if hitMine rr then explodedCell rr else explodedCell result)
           (if truthy (resPowerup rr) then resPowerup rr else resPowerup result).

Fixpoint chordLoop (b : BoardState) (adjacent : list nat) (result : RevealResult)
  : option (BoardState * RevealResult) :=
  match adjacent with
  | [] => Some (b, result)
  | adj :: rest =>
    match cells b !! adj with
    | None => None
    | Some a =>
      if negb (isRevealed a) && negb (isFlagged a) then
        match revealCell b (row a) (col a) with
        | None => None
        | Some (b', rr) => chordLoop b' rest (mergeReveal result rr)
        end
      else chordLoop b rest result
    end
  end.

Definition chordReveal (b : BoardState) (row col : Z)
  : option (BoardState * RevealResult) :=
  match getCell b row col with
  | None => Some (b, noReveal)
  | Some p =>
    match cells b !! p with
    | None => Some (b, noReveal)
    | Some cell =>
      if negb (isRevealed cell) || (adjacentMines cell =? 0)
      then Some (b, noReveal)
      else
        let adjacent := getAdjacentCells b row col in
        let flaggedCount := length (filter (λ a, cellHas isFlagged b a = true) adjacent) in
        if negb (Z.of_nat flaggedCount =? adjacentMines cell)
        then Some (b, noReveal)
        else chordLoop b adjacent noReveal
    end
  end.

(** *** placeMines *)

(** [[array[i], array[j]] = [array[j], array[i]]] for positions inside the
    array, which is where [shuffleArray] uses it ([j <= i < length]). *)
Definition swap (i j : nat) (array : list nat) : list nat :=
  match array !! i, array !! j with
  | Some x, Some y => <[j := x]> (<[i := y]> array)
  | _, _ => array
  end.

(** The loop of [shuffleArray], entered with index [i]. *)
Fixpoint shuffleFrom (i : nat) (array : list nat) (g : Rng) : list nat * Rng :=
  match i with
  | O => (array, g)
  | S i' =>
    let '(j, g') := randomBelow (i + 1) g in
    shuffleFrom i' (swap i j array) g'
  end.

Definition shuffleArray (array : list nat) (g : Rng) : list nat * Rng :=
  shuffleFrom (length array - 1) array g.

(** [array.slice(0, end)] with JavaScript's treatment of a negative or
    too large [end]. *)
Definition slice0 (stop : Z) (array : list nat) : list nat :=
  let len := Z.of_nat (length array) in
  let k := if stop <? 0 then Z.max (len + stop) 0 else Z.min stop len in
  take (Z.to_nat k) array.

Definition safeZoneOf (b : BoardState) (safeRow safeCol : Z) : gset Z :=
  foldl (λ zone p, match cells b !! p with
                   | Some cell => zone ∪ {[ index cell ]}
                   | None => zone
                   end)
        {[ safeRow * cols b + safeCol ]}
        (getAdjacentCells b safeRow safeCol).

Definition validPositionsOf (b : BoardState) (safeZone : gset Z) : list nat :=
  filter (λ i, Z.of_nat i ∉ safeZone) (seq 0 (length (cells b))).

Definition setMines (b : BoardState) (minePositions : list nat) : BoardState :=
  foldl (λ b pos, updCell (setMine true) pos b) b minePositions.

(** [adjacent.filter(c => c.isMine).length] *)
Definition countMines (b : BoardState) (adjacent : list nat) : Z :=
  Z.of_nat (length (filter (λ a, cellHas isMine b a = true) adjacent)).

Definition computeAdjacent (b : BoardState) : BoardState :=
  foldl (λ b p,
           match cells b !! p with
           | Some cell =>
             if negb (isMine cell) then
               updCell (setAdjacentMines
                          (countMines b (getAdjacentCells b (row cell) (col cell))))
                       p b
             else b
           | None => b
           end)
        b (seq 0 (length (cells b))).

Definition placePowerups (cfg : PowerupConfig) (b : BoardState) (g : Rng)
  : BoardState * Rng :=
  let safeCells :=
    filter (λ p, cellHas (λ c, negb (isMine c) && (adjacentMines c >? 0)) b p = true)
           (seq 0 (length (cells b))) in
  let powerupTypes := types cfg in
  let chance := if Qeq_bool (spawnChance cfg) 0 then (1 # 20)%Q else spawnChance cfg in
  foldl (λ st cell,
           let '(b, g) := st in
           let '(u, g1) := random g in
           if Qlt_le_dec u chance then
             let '(k, g2) := randomBelow (length powerupTypes) g1 in
             (updCell (setPowerup (powerupTypes !! k)) cell b, g2)
           else (b, g1))
        (b, g) safeCells.

Definition placeMines (b : BoardState) (safeRow safeCol : Z) (g : Rng)
  : BoardState * Rng :=
  if minesPlaced b then (b, g)
  else
    let safeZone := safeZoneOf b safeRow safeCol in
    let validPositions := validPositionsOf b safeZone in
    let '(shuffled, g1) := shuffleArray validPositions g in
    let minePositions :=
      slice0 (Z.min (mineCount b) (Z.of_nat (length shuffled))) shuffled in
    let b1 := setMines b minePositions in
    let b2 := computeAdjacent b1 in
    let '(b3, g2) :=
      match powerupConfig b2 with
      | Some cfg => if enabled cfg then placePowerups cfg b2 g1 else (b2, g1)
      | None => (b2, g1)
      end in
    (setMinesPlaced true b3, g2).

(** *** checkWin, getFlagCount, revealAllMines *)

Definition checkWin (b : BoardState) : bool :=
  forallb (λ cell, negb (negb (isMine cell) && negb (isRevealed cell))) (cells b).

Definition getFlagCount (b : BoardState) : Z :=
  Z.of_nat (length (filter (λ c, isFlagged c = true) (cells b))).

Definition revealAllMines (b : BoardState) : BoardState * list nat :=
  foldl (λ st p,
           let '(b, mines) := st in
           match cells b !! p with
           | Some cell =>
             if isMine cell && negb (isFlagged cell) then
               (updCell (setRevealed true) p b, mines ++ [p])
             else if negb (isMine cell) && isFlagged cell then
               (updCell (setWrongFlag true) p b, mines ++ [p])
             else (b, mines)
           | None => (b, mines)
           end)
        (b, []) (seq 0 (length (cells b))).

(** *** getRandomSafeCell, getRandomUnflaggedMine *)

Definition getRandomSafeCell (b : BoardState) (g : Rng) : option nat * Rng :=
  let safeCells :=
    filter (λ p, cellHas (λ c, negb (isMine c) && negb (isRevealed c)
                               && negb (isFlagged c)) b p = true)
           (seq 0 (length (cells b))) in
  if decide (length safeCells = 0%nat) then (None, g)
  else
    let '(k, g') := randomBelow (length safeCells) g in
    (safeCells !! k, g').

Definition getRandomUnflaggedMine (b : BoardState) (g : Rng) : option nat * Rng :=
  let mines :=
    filter (λ p, cellHas (λ c, isMine c && negb (isFlagged c)
                               && negb (isRevealed c)) b p = true)
           (seq 0 (length (cells b))) in
  if decide (length mines = 0%nat) then (None, g)
  else
    let '(k, g') := randomBelow (length mines) g in
    (mines !! k, g').

End Board.

(** ** PowerUps: the shield and the inventory *)

Record PowerUpsState := mkPowerUps {
  inventory : list (string * Q);   (* {type, id} entries *)
  shieldActive : bool
}.

(** The freeze effect: [freezeActive] and [freezeEndTime]. *)
Record FreezeState := mkFreeze {
  freezeActive : bool;
  freezeEndTime : Z
}.

(** The settings of the effects, read from [config.powerups.types]. *)
Record EffectConfig := mkEffectConfig {
  freezeDuration : Z;        (* types.freeze.duration *)
  safeRevealCellCount : Z    (* types.safeReveal.cellCount *)
}.

(** What a call of [use(type, game)] leaves behind. *)
Record UseOutcome := mkUse {
  used : bool;                   (* the value returned *)
  useInventory : PowerUpsState;
  useFreeze : FreezeState;
  useBoard : BoardState;
  useRng : Rng;
  useShown : list nat;           (* the cells passed to game.updateCells *)
  useFrozenFor : option Z        (* the duration of onFreezeChange(true, _) *)
}.

Module PowerUps.

Definition reset : PowerUpsState := mkPowerUps [] false.

Definition activateShield (s : PowerUpsState) : PowerUpsState :=
  mkPowerUps (inventory s) true.

(** [now] is the reading of [Date.now()]. *)
Definition collect (type : string) (now : Z) (s : PowerUpsState) (g : Rng)
  : PowerUpsState * Rng :=
  if String.eqb type "shield" then (activateShield s, g)
  else
    let '(u, g') := random g in
    (mkPowerUps (inventory s ++ [(type, (inject_Z now + u)%Q)]) (shieldActive s), g').

Definition consumeShield (s : PowerUpsState) : bool * PowerUpsState :=
  if negb (shieldActive s) then (false, s)
  else (true, mkPowerUps (inventory s) false).

Definition hasShield (s : PowerUpsState) : bool := shieldActive s.

(** [inventory.findIndex(p => p.type === type)]; [None] stands for [-1]. *)
Fixpoint findIndex (type : string) (inv : list (string * Q)) : option nat :=
  match inv with
  | [] => None
  | entry :: rest =>
    if String.eqb entry.1 type then Some 0%nat
    else S <$> findIndex type rest
  end.

Definition getInventory (s : PowerUpsState) : list (string * Q) := inventory s.

Definition has (type : string) (s : PowerUpsState) : bool :=
  existsb (λ entry, String.eqb entry.1 type) (inventory s).

Definition count (type : string) (s : PowerUpsState) : Z :=
  Z.of_nat (length (filter (λ entry, String.eqb entry.1 type = true)
                           (inventory s))).

Definition resetFreeze : FreezeState := mkFreeze false 0.

(** [activateFreeze]: [duration] is [config.powerups.types.freeze.duration]
    and [now] the reading of [Date.now()].  Next to the new state comes the
    duration handed to [onFreezeChange(true, duration)]. *)
Definition activateFreeze (duration now : Z) : FreezeState * Z :=
  let duration := if duration =? 0 then 15000 else duration in
  (mkFreeze true (now + duration), duration).

(** The callback [activateFreeze] leaves with [setTimeout]. *)
Definition freezeTimeout (now : Z) (f : FreezeState) : FreezeState :=
  if freezeActive f && (now >=? freezeEndTime f)
  then mkFreeze false (freezeEndTime f) else f.

Definition isTimerFrozen (now : Z) (f : FreezeState) : bool * FreezeState :=
  let f' := if freezeActive f && (now >=? freezeEndTime f)
            then mkFreeze false (freezeEndTime f) else f in
  (freezeActive f', f').

(** [activateDetector] picks a mine to highlight; the highlight itself is
    presentation.  What remains is the draw it takes. *)
Definition activateDetector (b : BoardState) (g : Rng) : option nat * Rng :=
  Board.getRandomUnflaggedMine b g.

(** The loop of [activateSafeReveal], [n] iterations left. *)
Fixpoint safeRevealLoop (n : nat) (b : BoardState) (g : Rng)
    (allRevealed : list nat) : option (BoardState * Rng * list nat) :=
  match n with
  | O => Some (b, g, allRevealed)
  | S n' =>
    match Board.getRandomSafeCell b g with
    | (Some p, g') =>
      match cells b !! p with
      | None => None
      | Some cell =>
        match Board.revealCell b (row cell) (col cell) with
        | None => None
        | Some (b', result) =>
          safeRevealLoop n' b' g' (allRevealed ++ revealed result)
        end
      end
    | (None, g') => safeRevealLoop n' b g' allRevealed
    end
  end.

(** [activateSafeReveal]: [cellCount] is
    [config.powerups.types.safeReveal.cellCount]; the list returned is what
    is handed to [game.updateCells] (when it is not empty). *)
Definition activateSafeReveal (cellCount : Z) (b : BoardState) (g : Rng)
  : option (BoardState * Rng * list nat) :=
  let cellCount := if cellCount =? 0 then 3 else cellCount in
  safeRevealLoop (Z.to_nat cellCount) b g [].

Definition use (type : string) (cfg : EffectConfig) (now : Z)
    (s : PowerUpsState) (f : FreezeState) (b : BoardState) (g : Rng)
  : option UseOutcome :=
  match findIndex type (inventory s) with
  | None => Some (mkUse false s f b g [] None)
  | Some index =>
    let s' := mkPowerUps (delete index (inventory s)) (shieldActive s) in
    if String.eqb type "detector" then
      Some (mkUse true s' f b (activateDetector b g).2 [] None)
    else if String.eqb type "freeze" then
      let '(f', duration) := activateFreeze (freezeDuration cfg) now in
      Some (mkUse true s' f' b g [] (Some duration))
    else if String.eqb type "safeReveal" then
      match activateSafeReveal (safeRevealCellCount cfg) b g with
      | None => None
      | Some (b', g', shown) => Some (mkUse true s' f b' g' shown None)
      end
    else Some (mkUse true s' f b g [] None)
  end.

End PowerUps.

(** ** UI: the two counters *)

Module UI.

(** [n.toString()] for an integer [n]. *)
Definition toString (n : Z) : string := NilZero.string_of_int (Z.to_int n).

(** [str.padStart(len, fill)] for a one-character [fill]. *)
Definition padStart (len : nat) (fill : ascii) (str : string) : string :=
  Nat.iter (len - String.length str) (String fill) str.

(** [updateMineCounter(count)]: the texts written into the three digits of
    the mine counter; [str[i]] past the end of [str] is [None]. *)
Definition updateMineCounter (count : Z)
  : option ascii * option ascii * option ascii :=
  let absCount := Z.abs count in
  let negative := count <? 0 in
  let displayCount := Z.min absCount 999 in
  let str := padStart 3 "0" (toString displayCount) in
  (if negative then Some "-"%char else String.get 0 str,
   String.get (if negative then 0 else 1) str,
   String.get (if negative then 1 else 2) str).

(** [updateTimer(seconds)]: the texts written into the three digits of the
    timer. *)
Definition updateTimer (seconds : Z)
  : option ascii * option ascii * option ascii :=
  let displayTime := Z.min seconds 999 in
  let str := padStart 3 "0" (toString displayTime) in
  (String.get 0 str, String.get 1 str, String.get 2 str).

End UI.

(** ** Game: the session and its handlers *)

Inductive Phase := idle | playing | won | lost.

Record Session := mkSession {
  board : BoardState;
  gameState : Phase;
  timerRunning : bool;      (* [timerInterval] is set *)
  powerups : PowerUpsState;
  rng : Rng;
  clock : Z                 (* what [Date.now()] reads during the event *)
}.

(** The timer of [Game]: [timer] and [timerFrozenUntil]. *)
Record Clock := mkClock {
  timer : Z;
  timerFrozenUntil : Z
}.

Module Game.

Definition withBoard (b : BoardState) (s : Session) : Session :=
  mkSession b (gameState s) (timerRunning s) (powerups s) (rng s) (clock s).

(** [gameOver(won, explodedCell)] *)
Definition gameOver (isWon : bool) (explodedCell : option nat) (s : Session)
  : Session :=
  let b := board s in
  let b' :=
    if isWon then
      foldl (λ b p,
               match cells b !! p with
               | Some cell =>
                 if isMine cell && negb (isFlagged cell)
                 then updCell (setFlagged true) p b else b
               | None => b
               end)
            b (seq 0 (length (cells b)))
    else
      let b1 := match explodedCell with
                | Some p => updCell (setExploded true) p b
                | None => b
                end in
      (Board.revealAllMines b1).1 in
  mkSession b' (if isWon then won else lost) false (powerups s) (rng s) (clock s).

(** [handleReveal(row, col)].  [None] stands for an exception escaping the
    handler. *)
Definition handleReveal (s : Session) (row col : Z) : option Session :=
  match gameState s with
  | won | lost => Some s
  | _ =>
    match Board.getCell (board s) row col with
    | None => Some s
    | Some p =>
      match cells (board s) !! p with
      | None => Some s
      | Some cell =>
        if isRevealed cell || isFlagged cell then Some s
        else
          let s1 :=
            if negb (minesPlaced (board s)) then
              let '(b, g) := Board.placeMines (board s) row col (rng s) in
              mkSession b playing true (powerups s) g (clock s)
            else s in
          match Board.revealCell (board s1) row col with
          | None => None
          | Some (b2, result) =>
            let s2 := withBoard b2 s1 in
            if hitMine result then
              match PowerUps.consumeShield (powerups s2) with
              | (true, pu) =>
                match explodedCell result with
                | None => None
                | Some e =>
                  let b3 := updCell (setFlagged true) e
                              (updCell (setRevealed false) e b2) in
                  Some (mkSession b3 (gameState s2) (timerRunning s2) pu
                                  (rng s2) (clock s2))
                end
              | (false, _) => Some (gameOver false (explodedCell result) s2)
              end
            else
              let s3 :=
                if truthy (resPowerup result) then
                  match resPowerup result with
                  | Some kind =>
                    let '(pu, g) :=
                      PowerUps.collect kind (clock s2) (powerups s2) (rng s2) in
                    mkSession (board s2) (gameState s2) (timerRunning s2) pu g
                              (clock s2)
                  | None => s2
                  end
                else s2 in
              if Board.checkWin (board s3) then Some (gameOver true None s3)
              else Some s3
          end
      end
    end
  end.

(** [newGame()]: [rows], [cols], [mines] are the settings of the current
    difficulty and [powerups] is [config.powerups]. *)
Definition newGame (rows cols mines : Z) (powerups : option PowerupConfig)
    (powerupsEnabled : bool) (g : Rng) (now : Z) : Session * FreezeState * Clock :=
  let powerupConfig := if powerupsEnabled then powerups else None in
  (mkSession (Board.create rows cols mines powerupConfig) idle false
             PowerUps.reset g now,
   PowerUps.resetFreeze, mkClock 0 0).

(** [handleFlag(row, col)] *)
Definition handleFlag (s : Session) (row col : Z) : Session :=
  match gameState s with
  | won | lost => s
  | _ =>
    if negb (minesPlaced (board s)) then s
    else withBoard (Board.toggleFlag (board s) row col).1 s
  end.

(** [handleChord(row, col)] *)
Definition handleChord (s : Session) (row col : Z) : option Session :=
  match gameState s with
  | won | lost => Some s
  | _ =>
    if negb (minesPlaced (board s)) then Some s
    else
      match Board.chordReveal (board s) row col with
      | None => None
      | Some (b2, result) =>
        let s2 := withBoard b2 s in
        if hitMine result then
          match PowerUps.consumeShield (powerups s2) with
          | (true, pu) =>
            match explodedCell result with
            | None => None
            | Some e =>
              let b3 := updCell (setFlagged true) e
                          (updCell (setRevealed false) e b2) in
              Some (mkSession b3 (gameState s2) (timerRunning s2) pu
                              (rng s2) (clock s2))
            end
          | (false, _) => Some (gameOver false (explodedCell result) s2)
          end
        else
          let s3 :=
            if negb (length (revealed result) =? 0)%nat
               && truthy (resPowerup result) then
              match resPowerup result with
              | Some kind =>
                let '(pu, g) :=
                  PowerUps.collect kind (clock s2) (powerups s2) (rng s2) in
                mkSession (board s2) (gameState s2) (timerRunning s2) pu g
                          (clock s2)
              | None => s2
              end
            else s2 in
          if Board.checkWin (board s3) then Some (gameOver true None s3)
          else Some s3
      end
  end.

(** [usePowerup(type)], with the [updateCells] callback it hands to
    [PowerUps.use] and the [onFreezeChange] callback installed by [init]. *)
Definition usePowerup (cfg : EffectConfig) (type : string)
    (s : Session) (f : FreezeState) (c : Clock)
  : option (Session * FreezeState * Clock) :=
  match gameState s with
  | playing =>
    match PowerUps.use type cfg (clock s) (powerups s) f (board s) (rng s) with
    | None => None
    | Some out =>
      let s1 := mkSession (useBoard out) playing (timerRunning s)
                          (useInventory out) (useRng out) (clock s) in
      let c1 := match useFrozenFor out with
                | Some duration => mkClock (timer c) (clock s + duration)
                | None => c
                end in
      let s2 :=
        if negb (length (useShown out) =? 0)%nat
           && Board.checkWin (useBoard out)
        then gameOver true None s1 else s1 in
      Some (s2, useFreeze out, c1)
    end
  | _ => Some (s, f, c)
  end.

(** The callback [startTimer] installs with [setInterval]; it runs only
    while [timerInterval] is set.  [maxTimer] is [config.timing.maxTimer]
    and [now] the reading of [Date.now()]. *)
Definition tick (maxTimer now : Z) (s : Session) (f : FreezeState) (c : Clock)
  : FreezeState * Clock :=
  if negb (timerRunning s) then (f, c)
  else
    let '(frozen, f') := PowerUps.isTimerFrozen now f in
    if frozen || (now <? timerFrozenUntil c) then (f', c)
    else
      let maxTimer := if maxTimer =? 0 then 999 else maxTimer in
      let t := timer c + 1 in
      (f', mkClock (if t >? maxTimer then maxTimer else t) (timerFrozenUntil c)).

(** [updateMineCounter()]: what it hands to the mine counter. *)
Definition updateMineCounter (s : Session)
  : option ascii * option ascii * option ascii :=
  let flagCount := Board.getFlagCount (board s) in
  let remaining := mineCount (board s) - flagCount in
  UI.updateMineCounter remaining.

End Game.

(** * Vocabulary of the statements *)

(** ** Reveals *)

(** The cells a call of [revealCell] marked, applied to the board it
    started from. *)
Definition revealAll (new : list nat) (b : BoardState) : BoardState :=
  foldl (λ b q, updCell (setRevealed true) q b) b new.

(** The test guarding [toReveal.push(adj)]. *)
Definition pushable (b : BoardState) (a : nat) : bool :=
  negb (cellHas isRevealed b a) && negb (cellHas isFlagged b a)
  && negb (cellHas isMine b a).

Definition unrevealedCount (l : list Cell) : nat :=
  length (filter (λ c, isRevealed c = false) l).

(** The quantity that decreases at every iteration of the reveal loop. *)
Definition revealMeasure (b : BoardState) (toReveal : list nat) : nat :=
  (9 * unrevealedCount (cells b) + length toReveal)%nat.

(** A cell that a reveal may mark: on the board, not revealed, not flagged. *)
Definition fresh (b : BoardState) (q : nat) : Prop :=
  ∃ c, cells b !! q = Some c ∧ isRevealed c = false ∧ isFlagged c = false.

(** A cell whose reveal does not end the call: no mine, no power-up. *)
Definition plain (b : BoardState) (q : nat) : Prop :=
  ∃ c, cells b !! q = Some c ∧ isMine c = false ∧ truthy (powerup c) = false.

(** How a call of the reveal loop that marked the cells [new] (in this
    order) on the board [b] ended: the work list ran empty, or the last
    cell marked was a mine, or the last cell marked carried a power-up. *)
Definition stopShape (b : BoardState) (new : list nat) (res : RevealResult)
  : Prop :=
  (Forall (plain b) new ∧ hitMine res = false ∧ explodedCell res = None
   ∧ resPowerup res = None)
  ∨ (∃ pre x, new = pre ++ [x] ∧ Forall (plain b) pre
       ∧ cellHas isMine b x = true
       ∧ hitMine res = true ∧ explodedCell res = Some x
       ∧ resPowerup res = None)
  ∨ (∃ pre x cx, new = pre ++ [x] ∧ Forall (plain b) pre
       ∧ cells b !! x = Some cx ∧ isMine cx = false
       ∧ truthy (powerup cx) = true
       ∧ hitMine res = false ∧ explodedCell res = None
       ∧ resPowerup res = powerup cx).

(** ** Calls that do nothing *)

(** Coordinates outside the grid. *)
Definition outOfRange (b : BoardState) (r c : Z) : Prop :=
  r < 0 ∨ rows b ≤ r ∨ c < 0 ∨ cols b ≤ c.

(** The cell at [(r, c)] exists and satisfies [P]. *)
Definition targets (b : BoardState) (r c : Z) (P : Cell → Prop) : Prop :=
  ∃ p cell, Board.getCell b r c = Some p ∧ cells b !! p = Some cell ∧ P cell.

(** The number [chordReveal] compares with [adjacentMines]. *)
Definition flaggedNeighbours (b : BoardState) (r c : Z) : Z :=
  Z.of_nat (length (filter (λ a, cellHas isFlagged b a = true)
                           (Board.getAdjacentCells b r c))).

(** ** Markings *)

(** The three markings of an unrevealed cell. *)
Inductive Marking := unmarked | flagged | questioned.

Definition marked (m : Marking) (c : Cell) : Prop :=
  match m with
  | unmarked => isFlagged c = false ∧ isQuestion c = false
  | flagged => isFlagged c = true
  | questioned => isQuestion c = true
  end.

Definition exactlyOneMarking (c : Cell) : Prop :=
  ∃ m, marked m c ∧ ∀ m', marked m' c → m' = m.

Definition nextMarking (m : Marking) : Marking :=
  match m with
  | unmarked => flagged
  | flagged => questioned
  | questioned => unmarked
  end.

Definition flagCycleInvariant (b : BoardState) : Prop :=
  ∀ q cq, cells b !! q = Some cq → isRevealed cq = false → exactlyOneMarking cq.

(** A sequence of [toggleFlag] calls. *)
Definition toggleFlags (b : BoardState) (coords : list (Z * Z)) : BoardState :=
  foldl (λ b rc, (Board.toggleFlag b rc.1 rc.2).1) b coords.

(** ** Layout and neighbourhoods *)

(** The shape [create] gives a board and every operation keeps: the cells
    are laid out row by row and each cell knows its own place. *)
Definition wfBoard (b : BoardState) : Prop :=
  length (cells b) = (Z.to_nat (rows b) * Z.to_nat (cols b))%nat
  ∧ ∀ p c, cells b !! p = Some c →
           0 ≤ row c < rows b ∧ 0 ≤ col c < cols b
           ∧ Z.of_nat p = row c * cols b + col c ∧ index c = Z.of_nat p.

(** [c'] is one of the (up to eight) cells around the place [(r, k)]. *)
Definition isNeighbourOf (r k : Z) (c' : Cell) : Prop :=
  Z.max (Z.abs (row c' - r)) (Z.abs (col c' - k)) = 1.

#[global] Instance isNeighbourOf_dec r k c' : Decision (isNeighbourOf r k c') :=
  decide (Z.max (Z.abs (row c' - r)) (Z.abs (col c' - k)) = 1).

(** Whether the cell at position [i] of [l] satisfies [P]. *)
Definition posHas (P : Cell → Prop) `{∀ c, Decision (P c)}
    (l : list Cell) (i : nat) : bool :=
  match l !! i with
  | Some c => bool_decide (P c)
  | None => false
  end.

(** ** Chords *)

(** The results of the [revealCell] calls that the loop of [chordReveal]
    makes over [adjacent], in order. *)
Fixpoint chordCalls (b : BoardState) (adjacent : list nat) : list RevealResult :=
  match adjacent with
  | [] => []
  | adj :: rest =>
    match cells b !! adj with
    | None => []
    | Some a =>
      if negb (isRevealed a) && negb (isFlagged a) then
        match Board.revealCell b (row a) (col a) with
        | None => []
        | Some (b', rr) => rr :: chordCalls b' rest
        end
      else chordCalls b rest
    end
  end.

Definition mineHits (calls : list RevealResult) : list RevealResult :=
  filter (λ rr, hitMine rr = true) calls.

Definition powerupFinds (calls : list RevealResult) : list RevealResult :=
  filter (λ rr, truthy (resPowerup rr) = true) calls.

(** ** Mine placement *)

(** What [placeMines] assigns to a cell when it recomputes the counts on
    the board [b]. *)
Definition adjust (b : BoardState) (c : Cell) : Cell :=
  if negb (isMine c) then
    setAdjacentMines
      (Board.countMines b (Board.getAdjacentCells b (row c) (col c))) c
  else c.

(** The brute-force count of the mines around a cell: every cell of the
    board is inspected. *)
Definition bruteForceMineCount (b : BoardState) (c : Cell) : Z :=
  Z.of_nat (length (filter (λ c', isMine c' = true ∧ isNeighbourOf (row c) (col c) c')
                           (cells b))).

(** [b'] is [b] up to the [powerup] field of its cells. *)
Definition powerupsOnly (b b' : BoardState) : Prop :=
  rows b' = rows b ∧ cols b' = cols b
  ∧ length (cells b') = length (cells b)
  ∧ ∀ p c', cells b' !! p = Some c' →
            ∃ c, cells b !! p = Some c ∧ c' = setPowerup (powerup c') c.

(** ** Flood fill *)

(** A cell with no mine on it and none around it. *)
Definition zeroCell (c : Cell) : Prop :=
  isMine c = false ∧ adjacentMines c = 0.

(** The connected zero-adjacency component of the cell at position [s]:
    what is reached from [s] by steps between neighbouring cells, every
    step landing on a zero cell. *)
Inductive zeroConnected (b : BoardState) (s : nat) : nat → Prop :=
  | zc_start : zeroConnected b s s
  | zc_step p q cp cq :
      zeroConnected b s p →
      cells b !! p = Some cp → cells b !! q = Some cq →
      isNeighbourOf (row cp) (col cp) cq → zeroCell cq →
      zeroConnected b s q.

(** The numbered cells bordering that component. *)
Definition borders (b : BoardState) (s q : nat) : Prop :=
  ∃ p cp cq, zeroConnected b s p
             ∧ cells b !! p = Some cp ∧ cells b !! q = Some cq
             ∧ isNeighbourOf (row cp) (col cp) cq
             ∧ isMine cq = false ∧ adjacentMines cq ≠ 0.

(** The same region, as the cascade walks it: from a zero cell to any
    neighbour that is not a mine. *)
Inductive cascadeReach (b : BoardState) (s : nat) : nat → Prop :=
  | reach_start : cascadeReach b s s
  | reach_step p q cp cq :
      cascadeReach b s p →
      cells b !! p = Some cp → zeroCell cp →
      cells b !! q = Some cq →
      isNeighbourOf (row cp) (col cp) cq → isMine cq = false →
      cascadeReach b s q.

(** The region a reveal of the zero cell at [s] is to uncover. *)
Definition inRegion (b : BoardState) (s q : nat) : Prop :=
  zeroConnected b s q ∨ borders b s q.

(** No cell of the region that is still unrevealed is flagged or carries a
    power-up. *)
Definition noObstacle (b : BoardState) (s : nat) : Prop :=
  ∀ q cq, inRegion b s q → cells b !! q = Some cq → isRevealed cq = false →
          isFlagged cq = false ∧ truthy (powerup cq) = false.

(** The earlier cascades through the region ran to their end: a zero cell
    of the region that is already revealed has every neighbour that is not
    a mine revealed as well. *)
Definition cascadesCompleted (b : BoardState) (s : nat) : Prop :=
  ∀ p cp q cq,
    inRegion b s p →
    cells b !! p = Some cp → isRevealed cp = true → zeroCell cp →
    cells b !! q = Some cq → isNeighbourOf (row cp) (col cp) cq →
    isMine cq = false → isRevealed cq = true.

(** The invariant of the cascade: every zero cell of the region that is
    revealed, or listed in [new], has each neighbour that is not a mine
    revealed, listed in [new], or waiting in the work list [st]. *)
Definition cascadeClosed (b : BoardState) (s : nat) (new st : list nat) : Prop :=
  ∀ p cp q cq,
    cascadeReach b s p →
    cells b !! p = Some cp → isRevealed cp = true ∨ p ∈ new → zeroCell cp →
    cells b !! q = Some cq → isNeighbourOf (row cp) (col cp) cq →
    isMine cq = false →
    (isRevealed cq = true ∨ q ∈ new) ∨ q ∈ st.

(** ** Example boards and sessions *)

(** One row of four cells with power-ups on; the first click on the
    second cell puts the mine on the right and, with these draws, a shield
    on the numbered cell next to it. *)
Definition shieldOnBorderBoard : BoardState :=
  let cfg := Some (mkPowerupConfig true (1 # 2) ["shield"]) in
  (Board.placeMines (Board.create 1 4 1 cfg) 0 1 (mkRng (λ _, 0%Q) 0)).1.

(** One row of three cells, first click on the left, so that the mine lies
    on the right; the mine is then flagged. *)
Definition flaggedMineBoard : BoardState :=
  let g := mkRng (λ _, 0%Q) 0 in
  let b1 := (Board.placeMines (Board.create 1 3 1 None) 0 0 g).1 in
  (Board.toggleFlag b1 0 2).1.

(** A session in play on [flaggedMineBoard] before the flag is put: one
    row of three cells, the mine on the right. *)
Definition mineOnRightSession (shield : bool) : Session :=
  let g := mkRng (λ _, 0%Q) 0 in
  let b := (Board.placeMines (Board.create 1 3 1 None) 0 0 g).1 in
  mkSession b playing true (mkPowerUps [] shield) g 0.

(** A 3x3 board on which the centre, a revealed "2", is chorded while the
    two flags stand on the wrong cells (6 and 8) and the two mines (0 and 2)
    are unflagged. *)
Definition wrongFlagsBoard : BoardState :=
  let cell r c mine rev flag adj :=
    mkCell r c (r * 3 + c) mine rev flag false adj None false false in
  mkBoard 3 3 2
    [ cell 0 0 true false false 0;  cell 0 1 false false false 2;
      cell 0 2 true false false 0;
      cell 1 0 false false false 1; cell 1 1 false true false 2;
      cell 1 2 false false false 1;
      cell 2 0 false false true 0;  cell 2 1 false false false 0;
      cell 2 2 false false true 0 ]
    true None.

(** ** Vocabulary of the further properties *)

(** What [toggleFlag] assigns to the cell it changes. *)
Definition toggled (c : Cell) : Cell :=
  if isFlagged c then setQuestion true (setFlagged false c)
  else if isQuestion c then setQuestion false c
  else setFlagged true c.

(** What [revealAllMines] assigns to a cell. *)
Definition shownAtEnd (c : Cell) : Cell :=
  if isMine c && negb (isFlagged c) then setRevealed true c
  else if negb (isMine c) && isFlagged c then setWrongFlag true c
  else c.

(** The cells [revealAllMines] returns: unflagged mines and flagged cells
    that are no mines. *)
Definition endMarked (c : Cell) : bool :=
  (isMine c && negb (isFlagged c)) || (negb (isMine c) && isFlagged c).

(** The cells [getRandomSafeCell] chooses among. *)
Definition safeToPick (c : Cell) : bool :=
  negb (isMine c) && negb (isRevealed c) && negb (isFlagged c).

(** The cells [getRandomUnflaggedMine] chooses among. *)
Definition hiddenMine (c : Cell) : bool :=
  isMine c && negb (isFlagged c) && negb (isRevealed c).

(** The next draw of the random source lies in the unit interval, as
    [Math.random()] promises. *)
Definition unitDraw (g : Rng) : Prop :=
  (0 <= draws g (cursor g))%Q ∧ (draws g (cursor g) < 1)%Q.

(** The shape shared by [getRandomSafeCell] and [getRandomUnflaggedMine]:
    a uniform pick among the cells that satisfy [P]. *)
Definition pickAmong (P : Cell → bool) (b : BoardState) (g : Rng)
  : option nat * Rng :=
  let candidates :=
    filter (λ p, cellHas P b p = true) (seq 0 (length (cells b))) in
  if decide (length candidates = 0%nat) then (None, g)
  else
    let '(k, g') := randomBelow (length candidates) g in
    (candidates !! k, g').

(** The number of mines on a board. *)
Definition mineTotal (b : BoardState) : Z :=
  Z.of_nat (length (filter (λ c, isMine c = true) (cells b))).

(** The random source after [n] further draws. *)
Definition drawn (n : nat) (g : Rng) : Rng := mkRng (draws g) (cursor g + n).

(** The positions [placeMines] picks for the mines: its [minePositions]. *)
Definition minePositionsOf (b : BoardState) (safeRow safeCol : Z) (g : Rng)
  : list nat :=
  let shuffled :=
    (Board.shuffleArray
       (Board.validPositionsOf b (Board.safeZoneOf b safeRow safeCol)) g).1 in
  Board.slice0 (Z.min (mineCount b) (Z.of_nat (length shuffled))) shuffled.

(** A board without mines, as [create] returns it. *)
Definition mineFree (b : BoardState) : Prop :=
  ∀ q cq, cells b !! q = Some cq → isMine cq = false.

(** The cells [placePowerups] chooses among: no mine on them and a mine
    next to them. *)
Definition numbered (c : Cell) : bool :=
  negb (isMine c) && (adjacentMines c >? 0).

(** The timer after the ticks at the times [nows], in this order. *)
Definition ticks (maxTimer : Z) (s : Session) (nows : list Z)
    (f : FreezeState) (c : Clock) : FreezeState * Clock :=
  foldl (λ st now, Game.tick maxTimer now s st.1 st.2) (f, c) nows.

(** The bound [startTimer] holds the timer to. *)
Definition timerCap (maxTimer : Z) : Z :=
  if maxTimer =? 0 then 999 else maxTimer.

(** The duration [activateFreeze] works with. *)
Definition freezeSpan (cfg : EffectConfig) : Z :=
  if freezeDuration cfg =? 0 then 15000 else freezeDuration cfg.

(** A session in play, at time 0, with one freeze in the inventory. *)
Definition frozenSession : Session :=
  let g := mkRng (λ _, 0%Q) 0 in
  let b := (Board.placeMines (Board.create 1 3 1 None) 0 0 g).1 in
  mkSession b playing true (mkPowerUps [("freeze", 0%Q)] false) g 0.

(** What [gameOver(true)] assigns to a cell: a mine left unflagged gets
    its flag. *)
Definition flaggedAtWin (c : Cell) : Cell :=
  if isMine c && negb (isFlagged c) then setFlagged true c else c.

(** The session as [handleReveal] has it when it calls [revealCell]: on the
    first click the mines are placed, the game is in play and the timer
    runs. *)
Definition firstClick (s : Session) (row col : Z) : Session :=
  if negb (minesPlaced (board s)) then
    let '(b, g) := Board.placeMines (board s) row col (rng s) in
    mkSession b playing true (powerups s) g (clock s)
  else s.

(** What [handleReveal] and [handleChord] do with the result [res] of the
    reveal that left the board [b2], in the session [s1]: the shield
    takes the hit, the game is lost, or the power-up found is collected and
    the win is checked. *)
Definition settles (s1 : Session) (b2 : BoardState) (res : RevealResult)
    (s' : Session) : Prop :=
  (hitMine res = true ∧ shieldActive (powerups s1) = true
   ∧ ∃ e, explodedCell res = Some e
          ∧ s' = mkSession
                   (updCell (setFlagged true) e
                      (updCell (setRevealed false) e b2))
                   (gameState s1) (timerRunning s1)
                   (mkPowerUps (inventory (powerups s1)) false)
                   (rng s1) (clock s1))
  ∨ (hitMine res = true ∧ shieldActive (powerups s1) = false
     ∧ s' = Game.gameOver false (explodedCell res) (Game.withBoard b2 s1))
  ∨ (hitMine res = false
     ∧ ∃ s3, board s3 = b2 ∧ gameState s3 = gameState s1
             ∧ timerRunning s3 = timerRunning s1
             ∧ s' = if Board.checkWin b2 then Game.gameOver true None s3
                    else s3).

(** What a reveal or a chord did to the board [b1]: it marked the cells
    [new], none of them revealed or flagged before, and a mine it reports
    is one of them. *)
Definition uncovers (b1 b2 : BoardState) (res : RevealResult) : Prop :=
  ∃ new, b2 = revealAll new b1 ∧ Forall (fresh b1) new
         ∧ (hitMine res = true →
            ∃ e, explodedCell res = Some e ∧ e ∈ new
                 ∧ cellHas isMine b1 e = true).

(** A board at the end of a game won: every cell without a mine is
    revealed and every mine is flagged. *)
Definition cleared (b : BoardState) : Prop :=
  ∀ p cell, cells b !! p = Some cell →
    if isMine cell then isFlagged cell = true else isRevealed cell = true.

(** A board at the end of a game lost: a mine went off, and every mine is
    revealed or flagged. *)
Definition blown (b : BoardState) : Prop :=
  (∃ e cell, cells b !! e = Some cell ∧ isMine cell = true
             ∧ exploded cell = true ∧ isRevealed cell = true)
  ∧ ∀ p cell, cells b !! p = Some cell → isMine cell = true →
              isRevealed cell = true ∨ isFlagged cell = true.

(** A session in play on [wrongFlagsBoard]. *)
Definition wrongFlagsSession (shield : bool) : Session :=
  mkSession wrongFlagsBoard playing true (mkPowerUps [] shield)
            (mkRng (λ _, 0%Q) 0) 0.

(** A session in play with one mine and two flags: both cells without a
    mine are flagged. *)
Definition overflaggedSession : Session :=
  Game.withBoard
    (toggleFlags (board (mineOnRightSession false)) [(0, 0); (0, 1)])
    (mineOnRightSession false).

(** The character of the decimal digit [d]. *)
Definition digitChar (d : Z) : ascii := ascii_of_nat (48 + Z.to_nat d).

(** The three decimal digits of [n], for [0 <= n <= 999]. *)
Definition threeDigits (n : Z) : string :=
  String (digitChar (n / 100))
    (String (digitChar (n / 10 mod 10))
       (String (digitChar (n mod 10)) EmptyString)).

(** The boards the grid functions build: [create], followed by any calls
    of [placeMines], [revealCell], [chordReveal], [toggleFlag] and
    [revealAllMines]. *)
Inductive gridBuilt : BoardState → Prop :=
  | built_create nrows ncols mines cfg :
      gridBuilt (Board.create nrows ncols mines cfg)
  | built_placeMines b r c g :
      gridBuilt b → gridBuilt (Board.placeMines b r c g).1
  | built_revealCell b r c b' res :
      gridBuilt b → Board.revealCell b r c = Some (b', res) → gridBuilt b'
  | built_chordReveal b r c b' res :
      gridBuilt b → Board.chordReveal b r c = Some (b', res) → gridBuilt b'
  | built_toggleFlag b r c :
      gridBuilt b → gridBuilt (Board.toggleFlag b r c).1
  | built_revealAllMines b :
      gridBuilt b → gridBuilt (Board.revealAllMines b).1.

(** A game in which a mine carrying a question mark is revealed under the
    shield: one row of four cells with the mine on the right; the first
    click on the second cell uncovers the shield on the third; the mine is
    then toggled twice (flag, question mark) and revealed. *)
Definition questionedMineShielded : option Session :=
  let cfg := Some (mkPowerupConfig true (1 # 2) ["shield"]) in
  let s0 := (Game.newGame 1 4 1 cfg true (mkRng (λ _, 0%Q) 0) 0).1.1 in
  s1 ← Game.handleReveal s0 0 1;
  let s2 := Game.handleFlag s1 0 3 in
  let s3 := Game.handleFlag s2 0 3 in
  Game.handleReveal s3 0 3.

(** * Properties *)

(** ** The random source *)

Section RandomSource.

(** With draws in the unit interval, as [Math.random()] promises, the
    index [Math.floor(Math.random() * n)] stays below [n]. *)
Lemma randomBelow_lt (n : nat) (g : Rng) :
  (0 <= draws g (cursor g))%Q → (draws g (cursor g) < 1)%Q → (0 < n)%nat →
  ((randomBelow n g).1 < n)%nat.
Proof.
  intros H0 H1 Hn. unfold randomBelow, random. cbn [fst].
  set (u := draws g (cursor g)) in *.
  set (N := Z.of_nat n).
  assert (0 ≤ Qfloor (u * inject_Z N)) as Hlo.
  { change 0 with (Qfloor 0). apply Qfloor_resp_le.
    apply Qmult_le_0_compat; [done|].
    change 0%Q with (inject_Z 0). rewrite <- Zle_Qle. lia. }
  assert (Qfloor (u * inject_Z N) < N) as Hhi.
  { rewrite Zlt_Qlt. eapply Qle_lt_trans; [apply Qfloor_le|].
    rewrite <- (Qmult_1_l (inject_Z N)) at 2.
    apply Qmult_lt_r; [|done].
    change 0%Q with (inject_Z 0). rewrite <- Zlt_Qlt. lia. }
  lia.
Qed.

End RandomSource.

(** ** Cell references and updates *)

Section CellUpdates.
Implicit Types (b : BoardState) (p q : nat) (f : Cell → Cell).

Lemma cells_updCell f p b : cells (updCell f p b) = alter f p (cells b).
Proof. reflexivity. Qed.

Lemma length_updCell f p b : length (cells (updCell f p b)) = length (cells b).
Proof. simpl. apply length_alter. Qed.

Lemma lookup_updCell_eq f p b :
  cells (updCell f p b) !! p = f <$> cells b !! p.
Proof. simpl. apply list_lookup_alter_eq. Qed.

Lemma lookup_updCell_ne f p q b :
  p ≠ q → cells (updCell f p b) !! q = cells b !! q.
Proof. intros. simpl. by apply list_lookup_alter_ne. Qed.

Lemma lookup_updCell f p q b :
  cells (updCell f p b) !! q
  = if decide (p = q) then f <$> cells b !! q else cells b !! q.
Proof.
  case_decide; subst; [apply lookup_updCell_eq | by apply lookup_updCell_ne].
Qed.

Lemma lookup_updCell_is_Some f p q b :
  is_Some (cells (updCell f p b) !! q) ↔ is_Some (cells b !! q).
Proof.
  rewrite !lookup_lt_is_Some, length_updCell. reflexivity.
Qed.

Lemma getCell_updCell f p b r c :
  Board.getCell (updCell f p b) r c = Board.getCell b r c.
Proof.
  unfold Board.getCell. simpl rows. simpl cols.
  destruct (_ || _); [done|].
  set (i := Z.to_nat _).
  pose proof (lookup_updCell_is_Some f p i b) as H.
  destruct (cells (updCell f p b) !! i) eqn:E1, (cells b !! i) eqn:E2;
    try done.
  - destruct H as [H _]. destruct H; [eauto | done].
  - destruct H as [_ H]. destruct H; [eauto | done].
Qed.

Lemma getAdjacentCells_updCell f p b r c :
  Board.getAdjacentCells (updCell f p b) r c = Board.getAdjacentCells b r c.
Proof.
  unfold Board.getAdjacentCells. induction Board.directions as [|d ds IH];
    [done|]. csimpl. by rewrite getCell_updCell, IH.
Qed.

Lemma getCell_lt b r c p :
  Board.getCell b r c = Some p → (p < length (cells b))%nat.
Proof.
  unfold Board.getCell. destruct (_ || _); [done|].
  destruct (cells b !! _) eqn:E; [|done].
  intros [= <-]. by eapply lookup_lt_Some.
Qed.

Lemma getCell_inv b r c p :
  Board.getCell b r c = Some p →
  0 ≤ r < rows b ∧ 0 ≤ c < cols b ∧ p = Z.to_nat (r * cols b + c)
  ∧ is_Some (cells b !! p).
Proof.
  unfold Board.getCell.
  destruct (_ || _) eqn:G; [done|].
  destruct (cells b !! _) eqn:E; [|done].
  intros [= <-]. repeat split; try (rewrite E; eauto); lia.
Qed.

Lemma getCell_None_out b r c :
  r < 0 ∨ rows b ≤ r ∨ c < 0 ∨ cols b ≤ c → Board.getCell b r c = None.
Proof.
  intros H. unfold Board.getCell.
  destruct (_ || _) eqn:G; [done|]. lia.
Qed.

Lemma getAdjacentCells_lt b r c p :
  p ∈ Board.getAdjacentCells b r c → (p < length (cells b))%nat.
Proof.
  unfold Board.getAdjacentCells. rewrite list_elem_of_omap.
  intros (d & _ & H). by eapply getCell_lt.
Qed.

Lemma getAdjacentCells_length b r c :
  (length (Board.getAdjacentCells b r c) ≤ 8)%nat.
Proof.
  unfold Board.getAdjacentCells.
  assert (∀ (g : Z * Z → option nat) l, (length (omap g l) ≤ length l)%nat)
    as Hlen.
  { intros g l. induction l as [|x l IH]; csimpl; [done|].
    destruct (g x); simpl; lia. }
  etrans; [apply Hlen|]. done.
Qed.

Lemma cellHas_updCell_ne (g : Cell → bool) f p q b :
  p ≠ q → cellHas g (updCell f p b) q = cellHas g b q.
Proof. intros. unfold cellHas. by rewrite lookup_updCell_ne. Qed.

End CellUpdates.

(** ** The reveal loop *)

Section RevealLoop.
Implicit Types (b : BoardState) (p q cur : nat) (st rest rev new : list nat).

Lemma pushNeighbours_spec b adjacent st :
  Board.pushNeighbours b adjacent st
  = reverse (filter (λ a, pushable b a = true) adjacent) ++ st.
Proof.
  unfold Board.pushNeighbours. revert st.
  induction adjacent as [|a l IH]; intros st; [done|].
  simpl. rewrite IH. rewrite filter_cons. fold (pushable b a).
  destruct (pushable b a) eqn:E.
  - rewrite decide_True by done. rewrite reverse_cons, <- app_assoc. done.
  - rewrite decide_False by done. done.
Qed.

Lemma elem_of_pushNeighbours b adjacent st q :
  q ∈ Board.pushNeighbours b adjacent st
  ↔ (q ∈ adjacent ∧ pushable b q = true) ∨ q ∈ st.
Proof.
  rewrite pushNeighbours_spec, elem_of_app, elem_of_reverse,
    list_elem_of_filter. tauto.
Qed.

Lemma length_pushNeighbours b adjacent st :
  (length (Board.pushNeighbours b adjacent st)
   ≤ length adjacent + length st)%nat.
Proof.
  rewrite pushNeighbours_spec, length_app, length_reverse.
  pose proof (length_filter (λ a, pushable b a = true) adjacent). lia.
Qed.

(** A Hoare-style rule for the loop: an invariant on (board, work list,
    revealed so far) that every branch of the body re-establishes, and a
    postcondition that every exit establishes. *)
Lemma revealLoop_rule
    (Inv : BoardState → list nat → list nat → Prop)
    (Post : BoardState → RevealResult → Prop) :
  (∀ b rev, Inv b [] rev → Post b (mkReveal rev false None None)) →
  (∀ b cur rest rev c,
      Inv b (cur :: rest) rev → cells b !! cur = Some c →
      isRevealed c || isFlagged c = true → Inv b rest rev) →
  (∀ b cur rest rev c,
      Inv b (cur :: rest) rev → cells b !! cur = Some c →
      isRevealed c = false → isFlagged c = false →
      let b1 := updCell (setRevealed true) cur b in
      if isMine c then Post b1 (mkReveal (rev ++ [cur]) true (Some cur) None)
      else if truthy (powerup c) then
        Post b1 (mkReveal (rev ++ [cur]) false None (powerup c))
      else if adjacentMines c =? 0 then
        Inv b1 (Board.pushNeighbours b1
                  (Board.getAdjacentCells b1 (row c) (col c)) rest)
            (rev ++ [cur])
      else Inv b1 rest (rev ++ [cur])) →
  ∀ fuel b st rev b' res,
    Inv b st rev → Board.revealLoop fuel b st rev = Some (b', res) →
    Post b' res.
Proof.
  intros Hexit Hskip Hstep fuel.
  induction fuel as [|fuel IH]; intros b st rev b' res HI Hrun.
  - destruct st; simpl in Hrun; [|done].
    injection Hrun as <- <-. by apply Hexit.
  - destruct st as [|cur rest]; simpl in Hrun.
    { injection Hrun as <- <-. by apply Hexit. }
    destruct (cells b !! cur) as [c|] eqn:Ec; [|done].
    destruct (isRevealed c || isFlagged c) eqn:Eskip.
    { eapply IH; [|exact Hrun]. eapply Hskip; eauto. }
    apply orb_false_iff in Eskip as [Er Ef].
    specialize (Hstep b cur rest rev c HI Ec Er Ef). simpl in Hstep.
    destruct (isMine c).
    { by injection Hrun as <- <-. }
    destruct (truthy (powerup c)).
    { by injection Hrun as <- <-. }
    destruct (adjacentMines c =? 0); (eapply IH; [exact Hstep | exact Hrun]).
Qed.

(** *** Termination *)

Lemma unrevealedCount_reveal (l : list Cell) p c :
  l !! p = Some c → isRevealed c = false →
  S (unrevealedCount (alter (setRevealed true) p l)) = unrevealedCount l.
Proof.
  unfold unrevealedCount. revert p.
  induction l as [|x l IH]; intros p Hp Hc; [done|].
  destruct p as [|p]; simpl in *.
  - injection Hp as ->. rewrite !filter_cons.
    repeat case_decide; simpl in *; congruence.
  - rewrite !filter_cons. specialize (IH p Hp Hc).
    change (list_alter (setRevealed true) p l)
      with (alter (setRevealed true) p l).
    case_decide; simpl; lia.
Qed.

Lemma revealLoop_terminates fuel b st rev :
  Forall (λ q, (q < length (cells b))%nat) st →
  (revealMeasure b st < fuel)%nat →
  is_Some (Board.revealLoop fuel b st rev).
Proof.
  revert b st rev. induction fuel as [|fuel IH]; intros b st rev Hval Hm;
    [lia|].
  destruct st as [|cur rest]; simpl; [eauto|].
  apply Forall_cons in Hval as [Hcur Hrest].
  destruct (lookup_lt_is_Some_2 _ _ Hcur) as [c Ec]. rewrite Ec.
  unfold revealMeasure in *. simpl in Hm.
  destruct (isRevealed c || isFlagged c) eqn:Eskip.
  { apply IH; [done|]. unfold revealMeasure. lia. }
  apply orb_false_iff in Eskip as [Er Ef].
  destruct (isMine c); [eauto|].
  destruct (truthy (powerup c)); [eauto|].
  pose proof (unrevealedCount_reveal _ _ _ Ec Er) as Hcount.
  destruct (adjacentMines c =? 0).
  - apply IH.
    + apply Forall_forall. intros q Hq. rewrite length_updCell.
      apply elem_of_pushNeighbours in Hq as [[Hq _]|Hq].
      * apply getAdjacentCells_lt in Hq. by rewrite length_updCell in Hq.
      * by eapply Forall_forall in Hrest.
    + unfold revealMeasure. rewrite cells_updCell.
      pose proof (length_pushNeighbours (updCell (setRevealed true) cur b)
        (Board.getAdjacentCells (updCell (setRevealed true) cur b) (row c) (col c))
        rest).
      pose proof (getAdjacentCells_length
        (updCell (setRevealed true) cur b) (row c) (col c)).
      lia.
  - apply IH.
    + eapply Forall_impl; [exact Hrest|]. intros q Hq.
      by rewrite length_updCell.
    + unfold revealMeasure. rewrite cells_updCell. lia.
Qed.

(** More fuel never changes a result: what the bounded loop returns is
    what the [while] loop returns. *)
Lemma revealLoop_fuel_mono fuel fuel' b st rev r :
  (fuel ≤ fuel')%nat →
  Board.revealLoop fuel b st rev = Some r →
  Board.revealLoop fuel' b st rev = Some r.
Proof.
  revert fuel' b st rev. induction fuel as [|fuel IH];
    intros fuel' b st rev Hle Hrun.
  - destruct st; simpl in Hrun; [|done]. by destruct fuel'.
  - destruct fuel' as [|fuel']; [lia|].
    destruct st as [|cur rest]; [done|]. simpl in *.
    destruct (cells b !! cur) as [c|]; [|done].
    destruct (isRevealed c || isFlagged c); [apply IH; [lia|done]|].
    destruct (isMine c); [done|].
    destruct (truthy (powerup c)); [done|].
    destruct (adjacentMines c =? 0); (apply IH; [lia|done]).
Qed.

Lemma unrevealedCount_le (l : list Cell) :
  (unrevealedCount l ≤ length l)%nat.
Proof. apply length_filter. Qed.

(** [revealCell] always returns. *)
Lemma revealCell_total b r c : is_Some (Board.revealCell b r c).
Proof.
  unfold Board.revealCell.
  destruct (Board.getCell b r c) as [p|] eqn:Eg; [|eauto].
  destruct (cells b !! p) as [cell|] eqn:Ec; [|eauto].
  destruct (_ || _); [eauto|].
  apply revealLoop_terminates.
  - apply Forall_singleton. by eapply lookup_lt_Some.
  - unfold revealMeasure, Board.revealFuel. simpl.
    pose proof (unrevealedCount_le (cells b)). lia.
Qed.

End RevealLoop.

(** ** What a reveal changes *)

Section RevealFrame.
Implicit Types (b : BoardState) (p q cur : nat) (st rest rev new : list nat).

Lemma revealAll_app new1 new2 b :
  revealAll (new1 ++ new2) b = revealAll new2 (revealAll new1 b).
Proof. unfold revealAll. apply foldl_app. Qed.

Lemma revealAll_snoc new q b :
  revealAll (new ++ [q]) b = updCell (setRevealed true) q (revealAll new b).
Proof. by rewrite revealAll_app. Qed.

Lemma lookup_revealAll new b q :
  cells (revealAll new b) !! q
  = if decide (q ∈ new) then setRevealed true <$> cells b !! q
    else cells b !! q.
Proof.
  induction new as [|x new IH] using rev_ind.
  - rewrite decide_False; [done|]. apply not_elem_of_nil.
  - rewrite revealAll_snoc, lookup_updCell, IH.
    destruct (decide (x = q)) as [->|Hne].
    + rewrite (decide_True (P := q ∈ new ++ [q]))
        by (apply elem_of_app; right; by apply list_elem_of_singleton).
      case_decide; [|done]. by destruct (cells b !! q).
    + destruct (decide (q ∈ new)) as [Hin|Hout].
      * rewrite decide_True by (apply elem_of_app; by left). done.
      * rewrite decide_False; [done|].
        intros [?|?%list_elem_of_singleton]%elem_of_app; congruence.
Qed.

Lemma lookup_revealAll_notin new b q :
  q ∉ new → cells (revealAll new b) !! q = cells b !! q.
Proof. intros. rewrite lookup_revealAll. by rewrite decide_False. Qed.

Lemma lookup_revealAll_in new b q :
  q ∈ new → cells (revealAll new b) !! q = setRevealed true <$> cells b !! q.
Proof. intros. rewrite lookup_revealAll. by rewrite decide_True. Qed.

(** Every field but [isRevealed] reads the same after a reveal. *)
Lemma lookup_revealAll_static new b q c' :
  cells (revealAll new b) !! q = Some c' →
  ∃ c, cells b !! q = Some c ∧ c' = setRevealed (isRevealed c') c.
Proof.
  rewrite lookup_revealAll. case_decide.
  - destruct (cells b !! q) as [c|]; [|done]. intros [= <-]. eauto.
  - intros Hc. exists c'. split; [done|]. by destruct c'.
Qed.

Lemma revealAll_shape new b :
  rows (revealAll new b) = rows b ∧ cols (revealAll new b) = cols b
  ∧ mineCount (revealAll new b) = mineCount b
  ∧ minesPlaced (revealAll new b) = minesPlaced b
  ∧ powerupConfig (revealAll new b) = powerupConfig b
  ∧ length (cells (revealAll new b)) = length (cells b).
Proof.
  induction new as [|x new IH] using rev_ind; [done|].
  rewrite revealAll_snoc. simpl. rewrite length_alter. exact IH.
Qed.

Lemma getCell_revealAll new b r c :
  Board.getCell (revealAll new b) r c = Board.getCell b r c.
Proof.
  induction new as [|x new IH] using rev_ind; [done|].
  by rewrite revealAll_snoc, getCell_updCell.
Qed.

Lemma getAdjacentCells_revealAll new b r c :
  Board.getAdjacentCells (revealAll new b) r c = Board.getAdjacentCells b r c.
Proof.
  induction new as [|x new IH] using rev_ind; [done|].
  by rewrite revealAll_snoc, getAdjacentCells_updCell.
Qed.

Lemma cellHas_revealAll_static (g : Cell → bool) new b q :
  (∀ v c, g (setRevealed v c) = g c) →
  cellHas g (revealAll new b) q = cellHas g b q.
Proof.
  intros Hg. unfold cellHas. rewrite lookup_revealAll.
  case_decide; [|done]. destruct (cells b !! q); simpl; [apply Hg|done].
Qed.

(** The frame of the loop: the board it returns is the board it started
    from with exactly the returned cells marked; these were all fresh, are
    pairwise distinct, and the call ended at the first mine or power-up
    it marked. *)
Lemma revealLoop_frame fuel b st rev0 b' res :
  Board.revealLoop fuel b st rev0 = Some (b', res) →
  ∃ new, revealed res = rev0 ++ new ∧ b' = revealAll new b ∧ NoDup new
         ∧ Forall (fresh b) new ∧ stopShape b new res.
Proof.
  intros Hrun.
  pose (Inv := λ b1 (st rev : list nat),
    ∃ new, rev = rev0 ++ new ∧ b1 = revealAll new b ∧ NoDup new
           ∧ Forall (fresh b) new ∧ Forall (plain b) new).
  pose (Post := λ b1 res,
    ∃ new, revealed res = rev0 ++ new ∧ b1 = revealAll new b ∧ NoDup new
           ∧ Forall (fresh b) new ∧ stopShape b new res).
  refine (revealLoop_rule Inv Post _ _ _ fuel b st rev0 b' res _ Hrun).
  - intros b1 rev (new & -> & -> & Hnd & Hfresh & Hplain).
    exists new. repeat split; try done. left. done.
  - intros b1 cur rest rev c HI _ _. exact HI.
  - intros b1 cur rest rev c (new & -> & -> & Hnd & Hfresh & Hplain)
      Hc Hr Hf.
    assert (cur ∉ new) as Hnotin.
    { intros Hin. rewrite lookup_revealAll_in in Hc by done.
      destruct (cells b !! cur); [|done]. injection Hc as <-. done. }
    rewrite lookup_revealAll_notin in Hc by done.
    assert (NoDup (new ++ [cur])) as Hnd'.
    { apply NoDup_app. repeat split; [done| |apply NoDup_singleton].
      intros x Hx ->%list_elem_of_singleton. done. }
    assert (Forall (fresh b) (new ++ [cur])) as Hfresh'.
    { apply Forall_app. split; [done|]. apply Forall_singleton.
      exists c. done. }
    simpl. destruct (isMine c) eqn:Em; [|destruct (truthy (powerup c)) eqn:Ep].
    + exists (new ++ [cur]). rewrite revealAll_snoc, app_assoc.
      repeat split; try done. right. left. exists new, cur.
      unfold cellHas. rewrite Hc. done.
    + exists (new ++ [cur]). rewrite revealAll_snoc, app_assoc.
      repeat split; try done. right. right. exists new, cur, c. done.
    + assert (Inv (updCell (setRevealed true) cur (revealAll new b))
                  rest ((rev0 ++ new) ++ [cur])) as HI.
      { exists (new ++ [cur]). rewrite revealAll_snoc, app_assoc.
        repeat split; try done. apply Forall_app. split; [done|].
        apply Forall_singleton. exists c. done. }
      destruct (adjacentMines c =? 0); [|exact HI].
      destruct HI as (new' & ? & ? & ? & ? & ?). exists new'. done.
  - exists []. rewrite app_nil_r. repeat split; try done; constructor.
Qed.

End RevealFrame.

(** ** Board creation *)

Section Creation.

Lemma upto_nonpositive n : n ≤ 0 → Board.upto n = [].
Proof.
  intros H. unfold Board.upto. replace (Z.to_nat n) with 0%nat by lia. done.
Qed.

Lemma flat_map_nil {A B} (l : list A) : flat_map (λ _, @nil B) l = [].
Proof. induction l; simpl; done. Qed.

(** C1 (as the code has it): [create] never fails; for a non-positive
    number of rows or of columns it returns a board that keeps the
    requested dimensions and has no cell at all. *)
Theorem create_nonpositive_returns_empty_board
    (rows cols mineCount : Z) (cfg : option PowerupConfig) :
  rows ≤ 0 ∨ cols ≤ 0 →
  Board.createOutcome rows cols mineCount cfg
  = inr (mkBoard rows cols mineCount [] false cfg).
Proof.
  intros H. unfold Board.createOutcome, Board.create. do 2 f_equal.
  destruct H as [H|H].
  - by rewrite (upto_nonpositive rows).
  - rewrite (upto_nonpositive cols) by done. apply flat_map_nil.
Qed.

Lemma create_nonpositive_returns_empty_board_witness :
  Board.createOutcome 0 9 10 None = inr (mkBoard 0 9 10 [] false None).
Proof.
  apply (create_nonpositive_returns_empty_board 0 9 10 None). left. lia.
Defined.

(** C1 refuted as stated: with zero rows [create] does not fail with
    [InvalidDimensions], it returns a board. *)
Lemma create_zero_rows_does_not_fail :
  (0 ≤ 0 ∨ 9 ≤ 0)
  ∧ Board.createOutcome 0 9 10 None ≠ inl InvalidDimensions
  ∧ Board.createOutcome 0 9 10 None = inr (mkBoard 0 9 10 [] false None).
Proof. split; [left; lia|]. split; [discriminate|reflexivity]. Qed.

End Creation.

(** ** Immediate stop of a reveal *)

Section RevealStop.
Implicit Types (b : BoardState) (p q cur : nat) (st rest rev new : list nat).

Lemma revealLoop_mine_step fuel b cur rest rev (c : Cell) :
  cells b !! cur = Some c → isRevealed c = false → isFlagged c = false →
  isMine c = true →
  Board.revealLoop (S fuel) b (cur :: rest) rev
  = Some (updCell (setRevealed true) cur b,
          mkReveal (rev ++ [cur]) true (Some cur) None).
Proof. intros Hc Hr Hf Hm. simpl. rewrite Hc, Hr, Hf, Hm. done. Qed.

Lemma revealLoop_powerup_step fuel b cur rest rev (c : Cell) :
  cells b !! cur = Some c → isRevealed c = false → isFlagged c = false →
  isMine c = false → truthy (powerup c) = true →
  Board.revealLoop (S fuel) b (cur :: rest) rev
  = Some (updCell (setRevealed true) cur b,
          mkReveal (rev ++ [cur]) false None (powerup c)).
Proof. intros Hc Hr Hf Hm Hp. simpl. rewrite Hc, Hr, Hf, Hm, Hp. done. Qed.

(** The frame of a whole call. *)
Lemma revealCell_frame b r c b' res :
  Board.revealCell b r c = Some (b', res) →
  b' = revealAll (revealed res) b ∧ NoDup (revealed res)
  ∧ Forall (fresh b) (revealed res) ∧ stopShape b (revealed res) res.
Proof.
  unfold Board.revealCell.
  destruct (Board.getCell b r c) as [p|];
    [destruct (cells b !! p) as [cell|];
     [destruct (isRevealed cell || isFlagged cell)|]|].
  2: { intros (new & Hrev & -> & ? & ? & ?)%revealLoop_frame.
       simpl in Hrev. subst new. done. }
  all: intros [= <- <-]; simpl; split; [done|];
       split; [apply NoDup_nil_2|]; split; [apply Forall_nil_2|];
       left; simpl; split; [apply Forall_nil_2|done].
Qed.

(** C5: whenever the loop marks a cell (one that is neither revealed nor
    flagged when popped) and that cell is a mine, the call returns at once
    with [hitMine = true] and this cell as [explodedCell]; when it is not a
    mine but carries a power-up, the call returns at once with that
    power-up.  In both cases the returned board differs from the current
    one in this cell only, whatever is still queued in [rest].  Seen from
    the caller: every call of [revealCell] returns, the returned board is
    the given one with exactly the listed cells marked, and the list either
    holds no mine and no power-up at all, or ends with the mine that is
    reported as [explodedCell], or ends with the cell whose power-up is
    reported, every cell before the last one being neither. *)
Theorem revealLoop_stops_at_mine_or_powerup :
  (∀ fuel b cur rest rev (c : Cell),
      cells b !! cur = Some c → isRevealed c = false → isFlagged c = false →
      (isMine c = true →
         Board.revealLoop (S fuel) b (cur :: rest) rev
         = Some (updCell (setRevealed true) cur b,
                 mkReveal (rev ++ [cur]) true (Some cur) None))
      ∧ (isMine c = false → truthy (powerup c) = true →
         Board.revealLoop (S fuel) b (cur :: rest) rev
         = Some (updCell (setRevealed true) cur b,
                 mkReveal (rev ++ [cur]) false None (powerup c))))
  ∧ (∀ b r c,
        ∃ b' res, Board.revealCell b r c = Some (b', res)
                  ∧ b' = revealAll (revealed res) b
                  ∧ stopShape b (revealed res) res).
Proof.
  split.
  - intros fuel b cur rest rev c Hc Hr Hf. split.
    + intros Hm. by eapply revealLoop_mine_step.
    + intros Hm Hp. by eapply revealLoop_powerup_step.
  - intros b r c. destruct (revealCell_total b r c) as [[b' res] Hrun].
    exists b', res. split; [done|].
    by apply revealCell_frame in Hrun as (? & _ & _ & ?).
Qed.

Lemma revealLoop_stops_at_mine_or_powerup_witness :
  Board.revealLoop 1 (board (mineOnRightSession false)) [2%nat; 0%nat] []
  = Some (updCell (setRevealed true) 2 (board (mineOnRightSession false)),
          mkReveal [2%nat] true (Some 2%nat) None)
  ∧ Board.revealLoop 1 shieldOnBorderBoard [2%nat; 0%nat] [1%nat]
    = Some (updCell (setRevealed true) 2 shieldOnBorderBoard,
            mkReveal [1%nat; 2%nat] false None (Some "shield")).
Proof.
  split.
  - exact (proj1 (proj1 revealLoop_stops_at_mine_or_powerup 0%nat
             (board (mineOnRightSession false)) 2%nat [0%nat] []
             (mkCell 0 2 2 true false false false 0 None false false)
             eq_refl eq_refl eq_refl) eq_refl).
  - exact (proj2 (proj1 revealLoop_stops_at_mine_or_powerup 0%nat
             shieldOnBorderBoard 2%nat [0%nat] [1%nat]
             (mkCell 0 2 2 false false false false 1 (Some "shield")
                     false false)
             eq_refl eq_refl eq_refl) eq_refl eq_refl).
Defined.

Lemma revealCell_length b r c b' res :
  Board.revealCell b r c = Some (b', res) →
  length (cells b') = length (cells b).
Proof.
  intros [-> _]%revealCell_frame. apply revealAll_shape.
Qed.

(** A mine is only ever marked when it sat in the initial work list:
    the cascade pushes cells that are not mines. *)
Lemma revealLoop_mines_from_worklist fuel b st0 rev0 b' res :
  Board.revealLoop fuel b st0 rev0 = Some (b', res) →
  ∀ q, q ∈ revealed res → cellHas isMine b q = true → q ∈ st0 ++ rev0.
Proof.
  intros Hrun.
  pose (Inv := λ b1 (st rev : list nat),
    (∃ new, b1 = revealAll new b)
    ∧ ∀ q, q ∈ st ++ rev → cellHas isMine b q = true → q ∈ st0 ++ rev0).
  pose (Post := λ (b1 : BoardState) res,
    ∀ q, q ∈ revealed res → cellHas isMine b q = true → q ∈ st0 ++ rev0).
  refine (revealLoop_rule Inv Post _ _ _ fuel b st0 rev0 b' res _ Hrun).
  - intros b1 rev [_ H] q Hq. apply H. by simpl.
  - intros b1 cur rest rev c [Hnew H] _ _. split; [done|].
    intros q Hq. apply H. rewrite elem_of_app in Hq |- *.
    destruct Hq; [left; by apply elem_of_cons; right|by right].
  - intros b1 cur rest rev c [[new ->] H] Hc Hr Hf.
    assert (∀ q, q ∈ rest ++ rev ++ [cur] →
                 cellHas isMine b q = true → q ∈ st0 ++ rev0) as H'.
    { intros q Hq. apply H. rewrite !elem_of_app in Hq.
      rewrite elem_of_app, elem_of_cons.
      destruct Hq as [?|[?|Hq%list_elem_of_singleton]]; tauto. }
    assert (∃ new', updCell (setRevealed true) cur (revealAll new b)
                    = revealAll new' b) as Hnew'.
    { exists (new ++ [cur]). by rewrite revealAll_snoc. }
    simpl. destruct (isMine c); [|destruct (truthy (powerup c))].
    + intros q Hq. apply H'. simpl. apply elem_of_app. by right.
    + intros q Hq. apply H'. simpl. apply elem_of_app. by right.
    + destruct (adjacentMines c =? 0); (split; [done|]); [|done].
      intros q Hq Hm. rewrite elem_of_app, elem_of_pushNeighbours in Hq.
      destruct Hq as [[[_ Hpush]|Hq]|Hq].
      * exfalso. unfold pushable in Hpush.
        rewrite <- revealAll_snoc in Hpush.
        rewrite (cellHas_revealAll_static isMine) in Hpush by done.
        rewrite Hm in Hpush. rewrite andb_false_r in Hpush. done.
      * apply H'; [|done]. apply elem_of_app. by left.
      * apply H'; [|done]. apply elem_of_app. by right.
  - split; [by exists []|]. done.
Qed.

End RevealStop.

(** ** Mines are hit at the target only *)

Section MineOnlyAtTarget.
Implicit Types (b : BoardState) (p q : nat).

(** C10 (as the code has it): a call of [revealCell] on an in-bounds
    target returns; its [hitMine] is true exactly when the target is a
    mine that is neither revealed nor flagged at the time of the call; no
    cell of the returned list other than the target is a mine; and a mine
    that is revealed afterwards is the target or was revealed before. *)
Theorem revealCell_hits_mine_only_at_target b r c p (cell : Cell) :
  Board.getCell b r c = Some p → cells b !! p = Some cell →
  ∃ b' res,
    Board.revealCell b r c = Some (b', res)
    ∧ (hitMine res = true
       ↔ isMine cell = true ∧ isRevealed cell = false
         ∧ isFlagged cell = false)
    ∧ (∀ q, q ∈ revealed res → q ≠ p → cellHas isMine b q = false)
    ∧ (∀ q, cellHas isMine b' q = true → cellHas isRevealed b' q = true →
            q = p ∨ cellHas isRevealed b q = true).
Proof.
  intros Hg Hc.
  destruct (revealCell_total b r c) as [[b' res] Hrun].
  exists b', res. split; [done|].
  pose proof (revealCell_frame _ _ _ _ _ Hrun) as (Hb' & Hnd & Hfresh & Hshape).
  unfold Board.revealCell in Hrun. rewrite Hg, Hc in Hrun.
  destruct (isRevealed cell || isFlagged cell) eqn:Eskip.
  { injection Hrun as <- <-. simpl. split; [|split].
    - split; [done|]. intros (_ & Hr & Hf). rewrite Hr, Hf in Eskip. done.
    - intros q Hq. by apply elem_of_nil in Hq.
    - intros q _ Hq. by right. }
  apply orb_false_iff in Eskip as [Er Ef].
  assert (∀ q, q ∈ revealed res → cellHas isMine b q = true → q = p)
    as Hmines.
  { intros q Hq Hm.
    pose proof (revealLoop_mines_from_worklist _ _ _ _ _ _ Hrun q Hq Hm) as H.
    rewrite app_nil_r in H. by apply list_elem_of_singleton in H. }
  split; [|split].
  - split.
    + intros Hhit. split; [|done].
      destruct Hshape as [(_ & Hh & _)|[(pre & x & Hnew & _ & Hx & _)
                                        |(pre & x & cx & _ & _ & _ & _ & _ & Hh & _)]];
        [congruence| |congruence].
      assert (x = p) as ->.
      { apply Hmines; [|done]. rewrite Hnew. apply elem_of_app. right.
        by apply list_elem_of_singleton. }
      unfold cellHas in Hx. by rewrite Hc in Hx.
    + intros (Hm & _ & _). unfold Board.revealFuel in Hrun.
      replace (9 * length (cells b) + 2)%nat
        with (S (9 * length (cells b) + 1)) in Hrun by lia.
      rewrite (revealLoop_mine_step _ _ _ _ _ cell) in Hrun by done.
      by injection Hrun as <- <-.
  - intros q Hq Hne. destruct (cellHas isMine b q) eqn:Em; [|done].
    by apply Hmines in Hq.
  - intros q Hm Hr. subst b'.
    rewrite (cellHas_revealAll_static isMine) in Hm by done.
    destruct (decide (q ∈ revealed res)) as [Hin|Hout].
    + left. by apply Hmines.
    + right. unfold cellHas in *.
      by rewrite lookup_revealAll_notin in Hr.
Qed.

Lemma revealCell_hits_mine_only_at_target_witness :
  (∃ b' res,
     Board.revealCell (board (mineOnRightSession false)) 0 2 = Some (b', res)
     ∧ hitMine res = true
     ∧ (∀ q, q ∈ revealed res → q ≠ 2%nat →
             cellHas isMine (board (mineOnRightSession false)) q = false)
     ∧ (∀ q, cellHas isMine b' q = true → cellHas isRevealed b' q = true →
             q = 2%nat
             ∨ cellHas isRevealed (board (mineOnRightSession false)) q = true))
  ∧ (∃ b' res,
       Board.revealCell (board (mineOnRightSession false)) 0 0
       = Some (b', res)
       ∧ hitMine res = false
       ∧ (∀ q, q ∈ revealed res → q ≠ 0%nat →
               cellHas isMine (board (mineOnRightSession false)) q = false)
       ∧ (∀ q, cellHas isMine b' q = true → cellHas isRevealed b' q = true →
               q = 0%nat
               ∨ cellHas isRevealed (board (mineOnRightSession false)) q
                 = true)).
Proof.
  split.
  - destruct (revealCell_hits_mine_only_at_target
                (board (mineOnRightSession false)) 0 2 2%nat
                (mkCell 0 2 2 true false false false 0 None false false)
                eq_refl eq_refl)
      as (b' & res & Hrun & Hiff & Hrest).
    exists b', res. split; [exact Hrun|]. split; [|exact Hrest].
    apply Hiff. repeat split; reflexivity.
  - destruct (revealCell_hits_mine_only_at_target
                (board (mineOnRightSession false)) 0 0 0%nat
                (mkCell 0 0 0 false false false false 0 None false false)
                eq_refl eq_refl)
      as (b' & res & Hrun & Hiff & Hrest).
    exists b', res. split; [exact Hrun|]. split; [|exact Hrest].
    destruct (hitMine res); [|reflexivity].
    destruct (proj1 Hiff eq_refl) as [Hm _]. discriminate Hm.
Defined.

(** C10 refuted as stated: the in-bounds target [(0, 2)] is a mine, yet
    the call reports [hitMine = false], because the mine is flagged. *)
Lemma revealCell_flagged_mine_target_not_hit :
  Board.getCell flaggedMineBoard 0 2 = Some 2%nat
  ∧ cellHas isMine flaggedMineBoard 2 = true
  ∧ ∃ b' res, Board.revealCell flaggedMineBoard 0 2 = Some (b', res)
              ∧ hitMine res = false.
Proof.
  split; [by vm_compute|]. split; [by vm_compute|].
  eexists _, _. split; [vm_compute; reflexivity|]. reflexivity.
Qed.

End MineOnlyAtTarget.

(** ** Flag toggling *)

Section FlagCycle.
Implicit Types (b : BoardState) (p q : nat).

Lemma exactlyOneMarking_iff (c : Cell) :
  exactlyOneMarking c ↔ ¬ (isFlagged c = true ∧ isQuestion c = true).
Proof.
  unfold exactlyOneMarking. split.
  - intros (m & _ & Huniq) [Hf Hq].
    pose proof (Huniq flagged Hf). pose proof (Huniq questioned Hq).
    congruence.
  - intros Hnot.
    destruct (isFlagged c) eqn:Ef, (isQuestion c) eqn:Eq.
    + exfalso. by apply Hnot.
    + exists flagged. split; [done|].
      intros [] Hm; simpl in Hm; [destruct Hm| |]; congruence.
    + exists questioned. split; [done|].
      intros [] Hm; simpl in Hm; [destruct Hm| |]; congruence.
    + exists unmarked. split; [done|].
      intros [] Hm; simpl in Hm; congruence.
Qed.

(** What one effective toggle does to the target cell. *)
Lemma toggleFlag_effect b r c p (cell : Cell) :
  Board.getCell b r c = Some p → cells b !! p = Some cell →
  isRevealed cell = false →
  ∃ b' nf nq,
    Board.toggleFlag b r c = (b', mkFlag true (Some p))
    ∧ cells b' !! p = Some (setQuestion nq (setFlagged nf cell))
    ∧ (nf, nq) = (if isFlagged cell then (false, true)
                  else if isQuestion cell then (false, false)
                  else (true, false))
    ∧ (∀ q, q ≠ p → cells b' !! q = cells b !! q)
    ∧ rows b' = rows b ∧ cols b' = cols b ∧ mineCount b' = mineCount b
    ∧ minesPlaced b' = minesPlaced b.
Proof.
  intros Hg Hc Hr. unfold Board.toggleFlag. rewrite Hg, Hc, Hr.
  destruct (isFlagged cell) eqn:Ef; [|destruct (isQuestion cell) eqn:Eq].
  - eexists _, false, true. split; [done|]. split.
    { rewrite !lookup_updCell_eq, Hc. simpl. by destruct cell. }
    split; [done|]. split; [|done].
    intros q Hq. by rewrite !lookup_updCell_ne.
  - eexists _, false, false. split; [done|]. split.
    { rewrite !lookup_updCell_eq, Hc. simpl. destruct cell; simpl in *.
      by subst. }
    split; [done|]. split; [|done].
    intros q Hq. by rewrite !lookup_updCell_ne.
  - eexists _, true, false. split; [done|]. split.
    { rewrite !lookup_updCell_eq, Hc. simpl. destruct cell; simpl in *.
      by subst. }
    split; [done|]. split; [|done].
    intros q Hq. by rewrite !lookup_updCell_ne.
Qed.

Lemma toggleFlag_noop b r c :
  Board.getCell b r c = None
  ∨ targets b r c (λ cell, isRevealed cell = true) →
  Board.toggleFlag b r c = (b, mkFlag false None).
Proof.
  unfold Board.toggleFlag.
  intros [->|(p & cell & -> & -> & ->)]; done.
Qed.

Lemma toggleFlag_preserves_invariant b r c :
  flagCycleInvariant b → flagCycleInvariant (Board.toggleFlag b r c).1.
Proof.
  intros Hinv.
  destruct (Board.getCell b r c) as [p|] eqn:Hg;
    [|by rewrite toggleFlag_noop by by left].
  destruct (getCell_inv _ _ _ _ Hg) as (_ & _ & _ & [cell Hc]).
  destruct (isRevealed cell) eqn:Hr.
  { rewrite toggleFlag_noop; [done|]. right. by exists p, cell. }
  destruct (toggleFlag_effect _ _ _ _ _ Hg Hc Hr)
    as (b' & nf & nq & -> & Hp & Hfq & Hother & _).
  simpl. intros q cq Hq Hrq.
  destruct (decide (q = p)) as [->|Hne].
  - rewrite Hp in Hq. injection Hq as <-.
    apply exactlyOneMarking_iff. simpl. intros [-> ->].
    destruct (isFlagged cell); [done|]. by destruct (isQuestion cell).
  - rewrite Hother in Hq by done. by eapply Hinv.
Qed.

End FlagCycle.

(** ** Calls that do nothing *)

Section NoOps.
Implicit Types (b : BoardState) (p q : nat).

Lemma chordLoop_total adjacent b result :
  Forall (λ q, (q < length (cells b))%nat) adjacent →
  is_Some (Board.chordLoop b adjacent result).
Proof.
  revert b result. induction adjacent as [|adj rest IH];
    intros b result Hval; simpl; [eauto|].
  apply Forall_cons in Hval as [Hadj Hrest].
  destruct (lookup_lt_is_Some_2 _ _ Hadj) as [a ->].
  destruct (negb (isRevealed a) && negb (isFlagged a)); [|by apply IH].
  destruct (revealCell_total b (row a) (col a)) as [[b' rr] Hrun].
  rewrite Hrun. apply IH.
  eapply Forall_impl; [exact Hrest|]. intros q Hq. simpl in Hq.
  by rewrite (revealCell_length _ _ _ _ _ Hrun).
Qed.

(** [chordReveal] always returns. *)
Lemma chordReveal_total b r c : is_Some (Board.chordReveal b r c).
Proof.
  unfold Board.chordReveal.
  destruct (Board.getCell b r c) as [p|]; [|eauto].
  destruct (cells b !! p) as [cell|]; [|eauto].
  destruct (_ || _); [eauto|]. destruct (negb _); [eauto|].
  apply chordLoop_total. apply Forall_forall. intros q.
  apply getAdjacentCells_lt.
Qed.

Lemma revealCell_noop b r c :
  Board.getCell b r c = None
  ∨ targets b r c (λ cell, isRevealed cell = true ∨ isFlagged cell = true) →
  Board.revealCell b r c = Some (b, Board.noReveal).
Proof.
  unfold Board.revealCell.
  intros [->|(p & cell & -> & -> & H)]; [done|].
  destruct H as [-> | ->]; [done|]. by rewrite orb_true_r.
Qed.

Lemma chordReveal_noop b r c :
  Board.getCell b r c = None
  ∨ targets b r c (λ cell, isRevealed cell = false ∨ adjacentMines cell = 0
                           ∨ flaggedNeighbours b r c ≠ adjacentMines cell) →
  Board.chordReveal b r c = Some (b, Board.noReveal).
Proof.
  unfold Board.chordReveal.
  intros [->|(p & cell & -> & -> & H)]; [done|].
  destruct (negb (isRevealed cell) || (adjacentMines cell =? 0)) eqn:E;
    [done|].
  apply orb_false_iff in E as [Er Ea].
  destruct H as [H|[H|H]].
  - rewrite H in Er. done.
  - rewrite H in Ea. done.
  - fold (flaggedNeighbours b r c).
    destruct (flaggedNeighbours b r c =? adjacentMines cell) eqn:En;
      [lia|done].
Qed.

(** C9: [revealCell] and [chordReveal] return for every board and all
    integer coordinates ([toggleFlag] is total as written); coordinates
    out of range address no cell; and each of the three calls returns its
    empty result and the very same board when there is no cell at the
    coordinates, and moreover: [revealCell] when the cell is revealed or
    flagged, [chordReveal] when the cell is unrevealed, has no adjacent
    mine, or has a number of flagged neighbours other than its
    [adjacentMines], [toggleFlag] when the cell is revealed. *)
Theorem noop_calls_return_empty_and_keep_board b r c :
  (is_Some (Board.revealCell b r c) ∧ is_Some (Board.chordReveal b r c))
  ∧ (outOfRange b r c → Board.getCell b r c = None)
  ∧ (Board.getCell b r c = None
     ∨ targets b r c (λ cell, isRevealed cell = true ∨ isFlagged cell = true) →
     Board.revealCell b r c = Some (b, mkReveal [] false None None))
  ∧ (Board.getCell b r c = None
     ∨ targets b r c (λ cell, isRevealed cell = false ∨ adjacentMines cell = 0
                              ∨ flaggedNeighbours b r c ≠ adjacentMines cell) →
     Board.chordReveal b r c = Some (b, mkReveal [] false None None))
  ∧ (Board.getCell b r c = None
     ∨ targets b r c (λ cell, isRevealed cell = true) →
     Board.toggleFlag b r c = (b, mkFlag false None)).
Proof.
  split; [split; [apply revealCell_total|apply chordReveal_total]|].
  split; [apply getCell_None_out|].
  split; [apply revealCell_noop|].
  split; [apply chordReveal_noop|apply toggleFlag_noop].
Qed.

Lemma noop_calls_return_empty_and_keep_board_witness :
  Board.revealCell (Board.create 2 2 0 None) 5 (-1)
  = Some (Board.create 2 2 0 None, mkReveal [] false None None)
  ∧ Board.chordReveal (Board.create 2 2 0 None) 0 0
    = Some (Board.create 2 2 0 None, mkReveal [] false None None)
  ∧ Board.toggleFlag (Board.create 2 2 0 None) 0 2
    = (Board.create 2 2 0 None, mkFlag false None).
Proof.
  split; [|split].
  - apply (noop_calls_return_empty_and_keep_board
             (Board.create 2 2 0 None) 5 (-1)). left. reflexivity.
  - apply (noop_calls_return_empty_and_keep_board
             (Board.create 2 2 0 None) 0 0). right.
    exists 0%nat, (Board.newCell 2 0 0).
    split; [reflexivity|]. split; [reflexivity|]. left. reflexivity.
  - apply (noop_calls_return_empty_and_keep_board
             (Board.create 2 2 0 None) 0 2). left. reflexivity.
Defined.

End NoOps.

(** ** Well-formed boards *)

Section WellFormed.
Implicit Types (b : BoardState) (p q : nat).

Lemma lookup_flat_map_const {A B} (f : A → list B) (n : nat) (l : list A) p y :
  (∀ x, length (f x) = n) → flat_map f l !! p = Some y →
  ∃ i k x, l !! i = Some x ∧ f x !! k = Some y ∧ p = (i * n + k)%nat.
Proof.
  intros Hn. revert p. induction l as [|x l IH]; intros p Hp; [done|].
  simpl in Hp. apply lookup_app_Some in Hp as [Hp|[Hge Hp]].
  - exists 0%nat, p, x. done.
  - rewrite Hn in Hge, Hp. apply IH in Hp as (i & k & x' & Hi & Hk & Heq).
    exists (S i), k, x'. split; [done|]. split; [done|]. lia.
Qed.

Lemma length_flat_map_const {A B} (f : A → list B) (n : nat) (l : list A) :
  (∀ x, length (f x) = n) → length (flat_map f l) = (length l * n)%nat.
Proof.
  intros Hn. induction l as [|x l IH]; [done|].
  simpl. rewrite length_app, Hn, IH. done.
Qed.

Lemma length_upto n : length (Board.upto n) = Z.to_nat n.
Proof. unfold Board.upto. by rewrite length_fmap, length_seq. Qed.

Lemma lookup_upto n i x :
  Board.upto n !! i = Some x → x = Z.of_nat i ∧ (i < Z.to_nat n)%nat.
Proof.
  unfold Board.upto. rewrite list_lookup_fmap.
  destruct (seq 0 (Z.to_nat n) !! i) as [j|] eqn:E; [|done].
  apply lookup_seq in E as [-> ?]. intros [= <-]. done.
Qed.

Lemma create_wf rows cols mineCount cfg :
  wfBoard (Board.create rows cols mineCount cfg).
Proof.
  split.
  - simpl.
    rewrite (length_flat_map_const _ (Z.to_nat cols)), length_upto; [done|].
    intros x. by rewrite length_fmap, length_upto.
  - simpl. intros p c Hp.
    apply (lookup_flat_map_const _ (Z.to_nat cols)) in Hp
        as (i & k & x & Hi & Hk & ->);
      [|intros x; by rewrite length_fmap, length_upto].
    apply lookup_upto in Hi as [-> Hi].
    rewrite list_lookup_fmap in Hk.
    destruct (Board.upto cols !! k) as [y|] eqn:Ey; [|done].
    apply lookup_upto in Ey as [-> Hk']. injection Hk as <-. simpl.
    repeat split; lia.
Qed.

Lemma create_lookup rows cols mineCount cfg p c :
  cells (Board.create rows cols mineCount cfg) !! p = Some c →
  c = Board.newCell cols (row c) (col c).
Proof.
  simpl. intros Hp.
  apply (lookup_flat_map_const _ (Z.to_nat cols)) in Hp
      as (i & k & x & Hi & Hk & ->);
    [|intros x; by rewrite length_fmap, length_upto].
  rewrite list_lookup_fmap in Hk.
  destruct (Board.upto cols !! k) as [y|] eqn:Ey; [|done].
  by injection Hk as <-.
Qed.

Lemma updCell_wf (f : Cell → Cell) p b :
  (∀ c, row (f c) = row c ∧ col (f c) = col c ∧ index (f c) = index c) →
  wfBoard b → wfBoard (updCell f p b).
Proof.
  intros Hf [Hlen Hcells]. split.
  - simpl. by rewrite length_alter.
  - intros q c. rewrite lookup_updCell. simpl rows. simpl cols.
    case_decide; [|apply Hcells].
    destruct (cells b !! q) as [c0|] eqn:E; [|done]. intros [= <-].
    destruct (Hf c0) as (-> & -> & ->). by apply Hcells.
Qed.

Lemma revealAll_wf new b : wfBoard b → wfBoard (revealAll new b).
Proof.
  intros Hwf. induction new as [|x new IH] using rev_ind; [done|].
  rewrite revealAll_snoc. by apply updCell_wf.
Qed.

(** On a well-formed board the coordinates stored in a cell lead back to
    that cell. *)
Lemma wf_getCell_self b p (c : Cell) :
  wfBoard b → cells b !! p = Some c →
  Board.getCell b (row c) (col c) = Some p.
Proof.
  intros [_ Hcells] Hc. destruct (Hcells p c Hc) as (Hr & Hk & Hp & _).
  unfold Board.getCell.
  destruct (_ || _) eqn:G; [lia|].
  replace (Z.to_nat (row c * cols b + col c)) with p by lia.
  by rewrite Hc.
Qed.

Lemma wf_getCell_Some b r k :
  wfBoard b → 0 ≤ r < rows b → 0 ≤ k < cols b →
  Board.getCell b r k = Some (Z.to_nat (r * cols b + k)).
Proof.
  intros [Hlen _] Hr Hk. unfold Board.getCell.
  destruct (_ || _) eqn:G; [lia|].
  destruct (cells b !! _) eqn:E; [done|].
  apply lookup_ge_None in E. nia.
Qed.

End WellFormed.

(** ** Chord reveal *)

Section Chord.
Implicit Types (b : BoardState) (p q : nat) (calls : list RevealResult).

Lemma cellHas_revealAll_mono new b q :
  cellHas isRevealed b q = true →
  cellHas isRevealed (revealAll new b) q = true.
Proof.
  unfold cellHas. rewrite lookup_revealAll.
  case_decide; [|done]. by destruct (cells b !! q).
Qed.

Lemma cellHas_revealAll_in new b q :
  q ∈ new → (q < length (cells b))%nat →
  cellHas isRevealed (revealAll new b) q = true.
Proof.
  intros Hin Hlt. unfold cellHas. rewrite lookup_revealAll_in by done.
  by destruct (lookup_lt_is_Some_2 _ _ Hlt) as [c ->].
Qed.

(** The target of an effective call heads the returned list. *)
Lemma revealCell_reveals_target b r c p b' res :
  Board.getCell b r c = Some p → fresh b p →
  Board.revealCell b r c = Some (b', res) →
  ∃ tl, revealed res = p :: tl.
Proof.
  intros Hg (cell & Hc & Hr & Hf). unfold Board.revealCell, Board.revealFuel.
  rewrite Hg, Hc, Hr, Hf. simpl orb. cbv iota.
  replace (9 * length (cells b) + 2)%nat
    with (S (9 * length (cells b) + 1)) by lia.
  simpl. rewrite Hc, Hr, Hf. simpl.
  destruct (isMine cell); [intros [= <- <-]; by exists []|].
  destruct (truthy (powerup cell)); [intros [= <- <-]; by exists []|].
  destruct (adjacentMines cell =? 0);
    intros (new & -> & _)%revealLoop_frame; by exists new.
Qed.

Lemma chordLoop_calls adjacent b result0 b' res :
  Board.chordLoop b adjacent result0 = Some (b', res) →
  res = foldl Board.mergeReveal result0 (chordCalls b adjacent)
  ∧ ∃ new, b' = revealAll new b.
Proof.
  revert b result0. induction adjacent as [|adj rest IH];
    intros b result0; simpl.
  { intros [= <- <-]. split; [done|]. by exists []. }
  destruct (cells b !! adj) as [a|]; [|done].
  destruct (negb (isRevealed a) && negb (isFlagged a)); [|apply IH].
  destruct (Board.revealCell b (row a) (col a)) as [[b1 rr]|] eqn:Hcall;
    [|done].
  intros (-> & new & ->)%IH. split; [done|].
  apply revealCell_frame in Hcall as (-> & _).
  exists (revealed rr ++ new). by rewrite revealAll_app.
Qed.

(** What the merge surfaces from a sequence of calls. *)
Lemma foldl_mergeReveal calls :
  let res := foldl Board.mergeReveal Board.noReveal calls in
  revealed res = concat (revealed <$> calls)
  ∧ (hitMine res = true ↔ mineHits calls ≠ [])
  ∧ explodedCell res = last (mineHits calls) ≫= explodedCell
  ∧ resPowerup res = last (powerupFinds calls) ≫= resPowerup.
Proof.
  induction calls as [|rr calls IH] using rev_ind; [done|].
  rewrite foldl_app. simpl.
  destruct IH as (IH1 & IH2 & IH3 & IH4).
  unfold mineHits, powerupFinds in *.
  rewrite fmap_app, concat_app, !filter_app, !filter_cons, !filter_nil.
  simpl. rewrite app_nil_r, IH1.
  split; [done|]. split; [|split].
  - destruct (hitMine rr) eqn:Eh.
    + rewrite decide_True by done. split; [|done].
      intros _ H. by apply app_eq_nil in H as [_ ?].
    + rewrite decide_False by done. by rewrite app_nil_r.
  - destruct (hitMine rr) eqn:Eh.
    + rewrite decide_True by done. by rewrite last_snoc.
    + rewrite decide_False by done. by rewrite app_nil_r.
  - destruct (truthy (resPowerup rr)) eqn:Et.
    + rewrite decide_True by done. by rewrite last_snoc.
    + rewrite decide_False by done. by rewrite app_nil_r.
Qed.

(** Every neighbour that is not flagged ends up revealed, whatever the
    earlier neighbour calls ran into. *)
Lemma chordLoop_reveals adjacent b result0 b' res :
  wfBoard b →
  Board.chordLoop b adjacent result0 = Some (b', res) →
  ∀ q, q ∈ adjacent → cellHas isFlagged b q = false →
       cellHas isRevealed b' q = true.
Proof.
  revert b result0. induction adjacent as [|adj rest IH];
    intros b result0 Hwf Hrun q Hq Hflag.
  { by apply elem_of_nil in Hq. }
  simpl in Hrun. destruct (cells b !! adj) as [a|] eqn:Ha; [|done].
  destruct (negb (isRevealed a) && negb (isFlagged a)) eqn:Efresh.
  - destruct (Board.revealCell b (row a) (col a)) as [[b1 rr]|] eqn:Hcall;
      [|done].
    apply andb_true_iff in Efresh as [Er Ef].
    apply negb_true_iff in Er, Ef.
    pose proof (revealCell_reveals_target _ _ _ adj _ _
                  (wf_getCell_self _ _ _ Hwf Ha)
                  (ex_intro _ a (conj Ha (conj Er Ef))) Hcall) as [tl Htl].
    pose proof (revealCell_frame _ _ _ _ _ Hcall) as (Hb1 & _).
    apply elem_of_cons in Hq as [->|Hq].
    + apply chordLoop_calls in Hrun as (_ & new & ->).
      apply cellHas_revealAll_mono. subst b1.
      apply cellHas_revealAll_in; [rewrite Htl; by left|].
      by eapply lookup_lt_Some.
    + eapply IH; [|exact Hrun|done|].
      * subst b1. by apply revealAll_wf.
      * subst b1. by rewrite (cellHas_revealAll_static isFlagged).
  - apply elem_of_cons in Hq as [->|Hq]; [|by eapply IH].
    apply chordLoop_calls in Hrun as (_ & new & ->).
    apply cellHas_revealAll_mono. unfold cellHas in *. rewrite Ha in *.
    rewrite Hflag in Efresh. simpl in Efresh.
    rewrite andb_true_r in Efresh. by apply negb_false_iff in Efresh.
Qed.

(** C2 (as the code has it): a chord that proceeds returns; its result
    merges every neighbour call: the revealed cells are those of all the
    calls, [hitMine] tells whether some call hit a mine, [explodedCell] is
    that of the last call that hit a mine and [powerup] that of the last
    call that found a power-up; and every neighbour without a flag is
    revealed afterwards, so the calls after a mine or a power-up were
    made all the same. *)
Theorem chordReveal_merges_all_neighbour_calls b r c p (cell : Cell) :
  wfBoard b →
  Board.getCell b r c = Some p → cells b !! p = Some cell →
  isRevealed cell = true → adjacentMines cell ≠ 0 →
  flaggedNeighbours b r c = adjacentMines cell →
  ∃ b' res,
    Board.chordReveal b r c = Some (b', res)
    ∧ let calls := chordCalls b (Board.getAdjacentCells b r c) in
      revealed res = concat (revealed <$> calls)
      ∧ (hitMine res = true ↔ mineHits calls ≠ [])
      ∧ explodedCell res = last (mineHits calls) ≫= explodedCell
      ∧ resPowerup res = last (powerupFinds calls) ≫= resPowerup
      ∧ ∀ q, q ∈ Board.getAdjacentCells b r c →
             cellHas isFlagged b q = false →
             cellHas isRevealed b' q = true.
Proof.
  intros Hwf Hg Hc Hr Ha Hn.
  destruct (chordReveal_total b r c) as [[b' res] Hrun].
  exists b', res. split; [done|].
  unfold Board.chordReveal in Hrun. rewrite Hg, Hc, Hr in Hrun.
  destruct (adjacentMines cell =? 0) eqn:E0; [lia|]. simpl in Hrun.
  fold (flaggedNeighbours b r c) in Hrun. rewrite Hn, Z.eqb_refl in Hrun.
  simpl in Hrun.
  pose proof (chordLoop_calls _ _ _ _ _ Hrun) as [-> _].
  pose proof (foldl_mergeReveal
                (chordCalls b (Board.getAdjacentCells b r c)))
    as (H1 & H2 & H3 & H4).
  simpl. repeat split; try done; try apply H2.
  intros q Hq Hf. by eapply chordLoop_reveals.
Qed.

Lemma chordReveal_merges_all_neighbour_calls_witness :
  ∃ b' res,
    Board.chordReveal wrongFlagsBoard 1 1 = Some (b', res)
    ∧ let calls :=
        chordCalls wrongFlagsBoard
                   (Board.getAdjacentCells wrongFlagsBoard 1 1) in
      revealed res = concat (revealed <$> calls)
      ∧ (hitMine res = true ↔ mineHits calls ≠ [])
      ∧ explodedCell res = last (mineHits calls) ≫= explodedCell
      ∧ resPowerup res = last (powerupFinds calls) ≫= resPowerup
      ∧ ∀ q, q ∈ Board.getAdjacentCells wrongFlagsBoard 1 1 →
             cellHas isFlagged wrongFlagsBoard q = false →
             cellHas isRevealed b' q = true.
Proof.
  apply (chordReveal_merges_all_neighbour_calls wrongFlagsBoard 1 1 4%nat
           (mkCell 1 1 4 false true false false 2 None false false)).
  - split; [reflexivity|]. intros p c Hp.
    do 9 (destruct p as [|p];
          [injection Hp as <-; vm_compute; intuition discriminate|]).
    discriminate Hp.
  - reflexivity.
  - reflexivity.
  - reflexivity.
  - discriminate.
  - reflexivity.
Defined.

(** [wrongFlagsBoard] is what the board operations produce from a fresh
    3x3 board with two mines: first click at the bottom centre (with draws
    that put the mines in the two upper corners), two flags in the lower
    corners, then a reveal of the centre. *)
Lemma wrongFlagsBoard_reachable :
  let b1 := (Board.placeMines (Board.create 3 3 2 None) 2 1
               (mkRng (λ _, (1 # 2)%Q) 0)).1 in
  let b2 := (Board.toggleFlag b1 2 0).1 in
  let b3 := (Board.toggleFlag b2 2 2).1 in
  fst <$> Board.revealCell b3 1 1 = Some wrongFlagsBoard.
Proof. vm_compute. reflexivity. Qed.

(** C2 refuted as stated: on [wrongFlagsBoard] the chord of the centre
    proceeds (the centre is revealed, shows 2 and has 2 flagged
    neighbours), hits the mine at position 0 first and the mine at
    position 2 next; the merged result surfaces the second one. *)
Lemma chordReveal_surfaces_last_mine_not_first :
  cells wrongFlagsBoard !! 4%nat
  = Some (mkCell 1 1 4 false true false false 2 None false false)
  ∧ flaggedNeighbours wrongFlagsBoard 1 1 = 2
  ∧ ∃ b' res,
      Board.chordReveal wrongFlagsBoard 1 1 = Some (b', res)
      ∧ head (mineHits (chordCalls wrongFlagsBoard
                          (Board.getAdjacentCells wrongFlagsBoard 1 1)))
          ≫= explodedCell = Some 0%nat
      ∧ explodedCell res = Some 2%nat.
Proof.
  split; [reflexivity|]. split; [reflexivity|].
  eexists _, _. split; [vm_compute; reflexivity|].
  split; vm_compute; reflexivity.
Qed.

End Chord.

(** ** The shield *)

Section Shield.
Implicit Types (b : BoardState) (p q : nat) (s : Session).

Lemma revealCell_mine_target b r c p (cell : Cell) :
  Board.getCell b r c = Some p → cells b !! p = Some cell →
  isRevealed cell = false → isFlagged cell = false → isMine cell = true →
  Board.revealCell b r c
  = Some (updCell (setRevealed true) p b,
          mkReveal [p] true (Some p) None).
Proof.
  intros Hg Hc Hr Hf Hm. unfold Board.revealCell, Board.revealFuel.
  rewrite Hg, Hc, Hr, Hf. simpl orb. cbv iota.
  replace (9 * length (cells b) + 2)%nat
    with (S (9 * length (cells b) + 1)) by lia.
  by rewrite (revealLoop_mine_step _ _ _ _ _ cell).
Qed.

(** C7: in a session that is playing, a reveal whose target is a mine,
    neither revealed nor flagged, goes one of two ways.  With the shield
    active the handler returns a session that is still playing, whose
    shield is spent, in which the target is unrevealed and flagged with
    its other fields as before, and every other cell is untouched.
    Without the shield the session is lost. *)
Theorem handleReveal_mine_hit_shield_or_lost s r c p (cell : Cell) :
  gameState s = playing → minesPlaced (board s) = true →
  Board.getCell (board s) r c = Some p → cells (board s) !! p = Some cell →
  isRevealed cell = false → isFlagged cell = false → isMine cell = true →
  (shieldActive (powerups s) = true →
     ∃ s', Game.handleReveal s r c = Some s'
           ∧ gameState s' = playing
           ∧ shieldActive (powerups s') = false
           ∧ cells (board s') !! p = Some (setFlagged true cell)
           ∧ isRevealed (setFlagged true cell) = false
           ∧ isFlagged (setFlagged true cell) = true
           ∧ ∀ q, q ≠ p → cells (board s') !! q = cells (board s) !! q)
  ∧ (shieldActive (powerups s) = false →
     ∃ s', Game.handleReveal s r c = Some s' ∧ gameState s' = lost).
Proof.
  intros Hplay Hplaced Hg Hc Hr Hf Hm.
  unfold Game.handleReveal.
  rewrite Hplay, Hg, Hc, Hr, Hf, Hplaced. simpl orb. simpl negb. cbv iota.
  rewrite (revealCell_mine_target _ _ _ _ cell) by done.
  simpl. unfold PowerUps.consumeShield. split; intros Hs; rewrite Hs; simpl.
  - eexists. split; [done|]. simpl. rewrite Hplay.
    split; [done|]. split; [done|]. split.
    { rewrite !list_lookup_alter_eq, Hc. simpl.
      destruct cell; simpl in *. by subst. }
    split; [done|]. split; [done|].
    intros q Hq. by rewrite !list_lookup_alter_ne.
  - eexists. split; [done|]. done.
Qed.

Lemma handleReveal_mine_hit_shield_or_lost_witness :
  (∃ s', Game.handleReveal (mineOnRightSession true) 0 2 = Some s'
         ∧ gameState s' = playing
         ∧ shieldActive (powerups s') = false
         ∧ isRevealed <$> cells (board s') !! 2%nat = Some false
         ∧ isFlagged <$> cells (board s') !! 2%nat = Some true)
  ∧ (∃ s', Game.handleReveal (mineOnRightSession false) 0 2 = Some s'
           ∧ gameState s' = lost).
Proof.
  split.
  - destruct (proj1 (handleReveal_mine_hit_shield_or_lost
               (mineOnRightSession true) 0 2 2%nat
               (mkCell 0 2 2 true false false false 0 None false false)
               eq_refl eq_refl eq_refl eq_refl eq_refl eq_refl eq_refl)
               eq_refl)
      as (s' & Hrun & Hst & Hsh & Hcell & _).
    exists s'. rewrite Hcell. repeat split; assumption.
  - exact (proj2 (handleReveal_mine_hit_shield_or_lost
               (mineOnRightSession false) 0 2 2%nat
               (mkCell 0 2 2 true false false false 0 None false false)
               eq_refl eq_refl eq_refl eq_refl eq_refl eq_refl eq_refl)
               eq_refl).
Defined.

End Shield.

(** ** Mine placement *)

Section Placement.
Implicit Types (b : BoardState) (p q : nat) (g : Rng).

Lemma foldl_inv {A B} (P : A → Prop) (f : A → B → A) (l : list B) (a : A) :
  P a → (∀ a x, x ∈ l → P a → P (f a x)) → P (foldl f a l).
Proof.
  revert a. induction l as [|x l IH]; intros a Ha Hstep; [done|].
  simpl. apply IH.
  - apply Hstep; [by left|done].
  - intros a' y Hy. apply Hstep. by right.
Qed.

Lemma getCell_ext b b' r c :
  rows b' = rows b → cols b' = cols b →
  length (cells b') = length (cells b) →
  Board.getCell b' r c = Board.getCell b r c.
Proof.
  intros Hr Hc Hl. unfold Board.getCell. rewrite Hr, Hc.
  destruct (_ || _); [done|]. set (i := Z.to_nat _).
  destruct (cells b' !! i) eqn:E1, (cells b !! i) eqn:E2; try done.
  - apply lookup_lt_Some in E1. apply lookup_ge_None in E2. lia.
  - apply lookup_lt_Some in E2. apply lookup_ge_None in E1. lia.
Qed.

Lemma getAdjacentCells_ext b b' r c :
  rows b' = rows b → cols b' = cols b →
  length (cells b') = length (cells b) →
  Board.getAdjacentCells b' r c = Board.getAdjacentCells b r c.
Proof.
  intros Hr Hc Hl. unfold Board.getAdjacentCells.
  apply list_omap_ext, Forall2_same_length_lookup. split; [done|].
  intros i x y Hx Hy. rewrite Hx in Hy. injection Hy as <-.
  by apply getCell_ext.
Qed.

Lemma countMines_ext b b' (l : list nat) :
  (∀ q, cellHas isMine b' q = cellHas isMine b q) →
  Board.countMines b' l = Board.countMines b l.
Proof.
  intros H. unfold Board.countMines. do 2 f_equal.
  apply list_filter_iff. intros q. by rewrite H.
Qed.

(** *** Setting the mines *)

Lemma lookup_setMines l b q :
  cells (Board.setMines b l) !! q
  = if decide (q ∈ l) then setMine true <$> cells b !! q else cells b !! q.
Proof.
  unfold Board.setMines.
  induction l as [|x l IH] using rev_ind.
  - rewrite decide_False; [done|]. apply not_elem_of_nil.
  - rewrite foldl_app. simpl foldl. rewrite lookup_updCell, IH.
    destruct (decide (x = q)) as [->|Hne].
    + rewrite (decide_True (P := q ∈ l ++ [q]))
        by (apply elem_of_app; right; by apply list_elem_of_singleton).
      case_decide; [|done]. by destruct (cells b !! q).
    + destruct (decide (q ∈ l)) as [Hin|Hout].
      * rewrite decide_True by (apply elem_of_app; by left). done.
      * rewrite decide_False; [done|].
        intros [?|?%list_elem_of_singleton]%elem_of_app; congruence.
Qed.

Lemma setMines_shape l b :
  rows (Board.setMines b l) = rows b ∧ cols (Board.setMines b l) = cols b
  ∧ length (cells (Board.setMines b l)) = length (cells b)
  ∧ powerupConfig (Board.setMines b l) = powerupConfig b.
Proof.
  unfold Board.setMines. induction l as [|x l IH] using rev_ind; [done|].
  rewrite foldl_app. simpl. by rewrite length_alter.
Qed.

(** *** Recomputing the counts *)

Lemma computeAdjacent_spec b :
  rows (Board.computeAdjacent b) = rows b
  ∧ cols (Board.computeAdjacent b) = cols b
  ∧ powerupConfig (Board.computeAdjacent b) = powerupConfig b
  ∧ ∀ p, cells (Board.computeAdjacent b) !! p = adjust b <$> cells b !! p.
Proof.
  unfold Board.computeAdjacent.
  set (step := λ b0 p, match cells b0 !! p with
                       | Some cell => _ | None => b0 end).
  assert (∀ l, NoDup l →
            let b' := foldl step b l in
            rows b' = rows b ∧ cols b' = cols b
            ∧ powerupConfig b' = powerupConfig b
            ∧ ∀ p, cells b' !! p
                   = if decide (p ∈ l) then adjust b <$> cells b !! p
                     else cells b !! p) as Hgen.
  { induction l as [|x l IH] using rev_ind; intros Hnd.
    { cbv zeta. simpl foldl. split; [done|]. split; [done|]. split; [done|].
      intros p. rewrite decide_False; [done|].
      apply not_elem_of_nil. }
    apply NoDup_app in Hnd as (Hnd & Hx & _).
    specialize (IH Hnd). cbv zeta in IH.
    destruct IH as (Hr & Hc & Hcfg & Hl).
    cbv zeta. rewrite foldl_app. simpl foldl.
    set (b1 := foldl step b l) in *.
    assert (x ∉ l) as Hxl.
    { intros Hin. apply (Hx x Hin). by apply list_elem_of_singleton. }
    assert (length (cells b1) = length (cells b)) as Hlen.
    { apply Nat.le_antisymm.
      - destruct (decide (length (cells b1) ≤ length (cells b))%nat);
          [done|].
        assert (is_Some (cells b1 !! length (cells b))) as [c0 Hc0]
          by (apply lookup_lt_is_Some; lia).
        rewrite Hl in Hc0. rewrite (lookup_ge_None_2 (cells b)) in Hc0 by lia.
        destruct (decide (length (cells b) ∈ l)); simpl in Hc0;
          discriminate.
      - destruct (decide (length (cells b) ≤ length (cells b1))%nat);
          [done|].
        assert (cells b1 !! length (cells b1) = None) as Hn
          by (apply lookup_ge_None; lia).
        rewrite Hl in Hn.
        assert (is_Some (cells b !! length (cells b1))) as [c0 Hc0]
          by (apply lookup_lt_is_Some; lia).
        rewrite Hc0 in Hn.
        destruct (decide (length (cells b1) ∈ l)); simpl in Hn;
          discriminate. }
    assert (∀ q, cellHas isMine b1 q = cellHas isMine b q) as Hmines.
    { intros q. unfold cellHas. rewrite Hl. case_decide; [|done].
      destruct (cells b !! q) as [c0|]; [|done]. simpl. unfold adjust.
      by destruct (isMine c0) eqn:E. }
    assert (∀ p, cells (step b1 x) !! p
                 = if decide (p ∈ l ++ [x]) then adjust b <$> cells b !! p
                   else cells b !! p) as Hl'.
    { intros p.
      pose proof (Hl x) as Hlx. rewrite decide_False in Hlx by done.
      destruct (decide (p = x)) as [->|Hne].
      - unfold step. rewrite Hlx. rewrite decide_True
          by (apply elem_of_app; right; by apply list_elem_of_singleton).
        destruct (cells b !! x) as [cell|] eqn:Ecell; [|by rewrite Hlx].
        unfold adjust. destruct (isMine cell) eqn:Em;
          [simpl; by rewrite Em|].
        cbn [negb]. rewrite lookup_updCell_eq, Hlx. simpl. rewrite Em. simpl.
        rewrite (getAdjacentCells_ext b b1) by done.
        by rewrite (countMines_ext b b1).
      - assert (cells (step b1 x) !! p = cells b1 !! p) as ->.
        { unfold step. rewrite Hlx. destruct (cells b !! x) as [cell|];
            [|done].
          destruct (negb (isMine cell)); [|done].
          by rewrite lookup_updCell_ne. }
        rewrite Hl. destruct (decide (p ∈ l)) as [Hin|Hout].
        + rewrite decide_True by (apply elem_of_app; by left). done.
        + rewrite decide_False; [done|].
          intros [?|?%list_elem_of_singleton]%elem_of_app; congruence. }
    assert (rows (step b1 x) = rows b ∧ cols (step b1 x) = cols b
            ∧ powerupConfig (step b1 x) = powerupConfig b) as (? & ? & ?).
    { unfold step. destruct (cells b1 !! x) as [cell|]; [|done].
      by destruct (negb (isMine cell)). }
    done. }
  destruct (Hgen (seq 0 (length (cells b))) (NoDup_seq _ _))
    as (Hr & Hc & Hcfg & Hl).
  split; [done|]. split; [done|]. split; [done|].
  intros p. rewrite Hl. case_decide as Hin; [done|].
  rewrite lookup_ge_None_2; [done|].
  destruct (decide (length (cells b) ≤ p)%nat); [done|].
  exfalso. apply Hin. apply elem_of_seq. lia.
Qed.

(** *** Shuffling and the safe zone *)

Lemma elem_of_swap i j (array : list nat) x :
  x ∈ Board.swap i j array → x ∈ array.
Proof.
  unfold Board.swap.
  destruct (array !! i) as [a|] eqn:Ei; [|done].
  destruct (array !! j) as [a'|] eqn:Ej; [|done].
  intros (k & Hk)%list_elem_of_lookup. apply list_elem_of_lookup.
  apply list_lookup_insert_Some in Hk as [(-> & -> & _)|[_ Hk]]; [eauto|].
  apply list_lookup_insert_Some in Hk as [(-> & -> & _)|[_ Hk]]; eauto.
Qed.

Lemma elem_of_shuffleFrom i (array : list nat) g x :
  x ∈ (Board.shuffleFrom i array g).1 → x ∈ array.
Proof.
  revert array g. induction i as [|i IH]; intros array g; [done|].
  change (Board.shuffleFrom (S i) array g)
    with (let '(j, g') := randomBelow (S i + 1) g in
          Board.shuffleFrom i (Board.swap (S i) j array) g').
  destruct (randomBelow (S i + 1) g) as [j g'].
  intros H%IH. by eapply elem_of_swap.
Qed.

Lemma elem_of_slice0 stop (array : list nat) x :
  x ∈ Board.slice0 stop array → x ∈ array.
Proof. unfold Board.slice0. apply subseteq_take. Qed.

Lemma elem_of_safeZoneOf_click b r c :
  r * cols b + c ∈ Board.safeZoneOf b r c.
Proof.
  unfold Board.safeZoneOf.
  apply (foldl_inv (λ zone : gset Z, r * cols b + c ∈ zone)).
  - by apply elem_of_singleton.
  - intros zone q _ Hz. destruct (cells b !! q); [|done].
    apply elem_of_union. by left.
Qed.

Lemma elem_of_safeZoneOf_adjacent b r c q (cq : Cell) :
  q ∈ Board.getAdjacentCells b r c → cells b !! q = Some cq →
  index cq ∈ Board.safeZoneOf b r c.
Proof.
  unfold Board.safeZoneOf. generalize ({[r * cols b + c]} : gset Z).
  induction (Board.getAdjacentCells b r c) as [|a l IH]; intros zone Hq Hc.
  { by apply elem_of_nil in Hq. }
  simpl. apply elem_of_cons in Hq as [->|Hq]; [|by apply IH].
  rewrite Hc.
  apply (foldl_inv (λ zone : gset Z, index cq ∈ zone)).
  - apply elem_of_union. right. by apply elem_of_singleton.
  - intros zone' q' _ Hz. destruct (cells b !! q'); [|done].
    apply elem_of_union. by left.
Qed.

(** *** Power-ups and the whole placement *)

Lemma powerupsOnly_refl b : powerupsOnly b b.
Proof.
  repeat split. intros p c' Hc. exists c'. split; [done|]. by destruct c'.
Qed.

Lemma placePowerups_frame cfg b g :
  powerupsOnly b (Board.placePowerups cfg b g).1.
Proof.
  unfold Board.placePowerups.
  apply (foldl_inv (λ st : BoardState * Rng, powerupsOnly b st.1)).
  - apply powerupsOnly_refl.
  - intros [b1 g1] cell _ (Hr & Hc & Hl & Hcells).
    destruct (random g1) as [u g2].
    destruct (Qlt_le_dec u _); [|done].
    destruct (randomBelow _ g2) as [k g3]. cbn [fst] in *.
    split; [exact Hr|]. split; [exact Hc|].
    split; [by rewrite length_updCell|].
    intros p c'. rewrite lookup_updCell.
    case_decide; [|apply Hcells].
    destruct (cells b1 !! p) as [c1|] eqn:E1; [|done]. intros [= <-].
    destruct (Hcells p c1 E1) as (c0 & Hc0 & Heq).
    exists c0. split; [done|]. rewrite Heq. by destruct c0.
Qed.

Lemma placeMines_spec b r c g :
  minesPlaced b = false →
  ∃ minePositions b3,
    (Board.placeMines b r c g).1 = setMinesPlaced true b3
    ∧ (∀ q, q ∈ minePositions → Z.of_nat q ∉ Board.safeZoneOf b r c)
    ∧ powerupsOnly (Board.computeAdjacent (Board.setMines b minePositions))
                   b3.
Proof.
  intros Hnot. unfold Board.placeMines. rewrite Hnot.
  destruct (Board.shuffleArray _ g) as [shuffled g1] eqn:Esh.
  set (minePositions := Board.slice0 _ shuffled).
  set (b2 := Board.computeAdjacent _).
  assert (∀ q, q ∈ minePositions → Z.of_nat q ∉ Board.safeZoneOf b r c)
    as Hsafe.
  { intros q Hq%elem_of_slice0.
    assert (q ∈ (Board.shuffleArray
                   (Board.validPositionsOf b (Board.safeZoneOf b r c)) g).1)
      as Hq' by by rewrite Esh.
    apply elem_of_shuffleFrom in Hq'.
    unfold Board.validPositionsOf in Hq'.
    by apply list_elem_of_filter in Hq' as [? _]. }
  destruct (powerupConfig b2) as [cfg|].
  - destruct (enabled cfg).
    + pose proof (placePowerups_frame cfg b2 g1) as Hp.
      destruct (Board.placePowerups cfg b2 g1) as [b3 g2].
      exists minePositions, b3. done.
    + exists minePositions, b2. split; [done|]. split; [done|].
      apply powerupsOnly_refl.
  - exists minePositions, b2. split; [done|]. split; [done|].
    apply powerupsOnly_refl.
Qed.

(** Every cell of the placed board, read against the board before. *)
Lemma placeMines_lookup b r c g :
  minesPlaced b = false →
  let b' := (Board.placeMines b r c g).1 in
  ∃ minePositions,
    (∀ q, q ∈ minePositions → Z.of_nat q ∉ Board.safeZoneOf b r c)
    ∧ rows b' = rows b ∧ cols b' = cols b
    ∧ length (cells b') = length (cells b)
    ∧ minesPlaced b' = true
    ∧ ∀ p c', cells b' !! p = Some c' →
        ∃ c0, cells b !! p = Some c0
          ∧ row c' = row c0 ∧ col c' = col c0 ∧ index c' = index c0
          ∧ isMine c'
            = (if decide (p ∈ minePositions) then true else isMine c0)
          ∧ (isMine c' = false →
             adjacentMines c'
             = Board.countMines (Board.setMines b minePositions)
                 (Board.getAdjacentCells b (row c0) (col c0))).
Proof.
  intros Hnot b'.
  destruct (placeMines_spec b r c g Hnot)
    as (mp & b3 & Hb' & Hsafe & Hr3 & Hc3 & Hl3 & Hcells3).
  fold b' in Hb'.
  destruct (computeAdjacent_spec (Board.setMines b mp))
    as (Hr2 & Hc2 & _ & Hcells2).
  destruct (setMines_shape mp b) as (Hr1 & Hc1 & Hl1 & _).
  assert (length (cells (Board.computeAdjacent (Board.setMines b mp)))
          = length (cells b)) as Hl2.
  { rewrite <- Hl1.
    assert (∀ (l1 l2 : list Cell),
              (∀ p, l1 !! p = adjust (Board.setMines b mp) <$> l2 !! p) →
              length l1 = length l2) as Hlen.
    { intros l1 l2 H.
      assert (l1 = adjust (Board.setMines b mp) <$> l2) as ->.
      { apply list_eq. intros i. by rewrite list_lookup_fmap. }
      apply length_fmap. }
    by apply Hlen. }
  exists mp. rewrite Hb'. simpl.
  split; [done|]. split; [congruence|]. split; [congruence|].
  split; [congruence|]. split; [done|].
  intros p c' Hc'.
  destruct (Hcells3 p c' Hc') as (c2 & Hc2' & Heq).
  rewrite Hcells2, lookup_setMines in Hc2'.
  destruct (cells b !! p) as [c0|] eqn:Ec0;
    [|by destruct (decide (p ∈ mp))].
  exists c0. split; [done|].
  rewrite Heq. simpl.
  destruct (decide (p ∈ mp)); simpl in Hc2'; injection Hc2' as <-;
    unfold adjust; simpl.
  - done.
  - destruct (isMine c0) eqn:Em; simpl; rewrite ?Em; [done|].
    repeat split; try done. intros _.
    by rewrite (getAdjacentCells_ext b (Board.setMines b mp)).
Qed.

End Placement.

(** ** Neighbourhoods on a well-formed board *)

Section Neighbourhood.
Implicit Types (b : BoardState) (p q : nat).

Lemma directions_spec (dr dc : Z) :
  (dr, dc) ∈ Board.directions ↔ Z.max (Z.abs dr) (Z.abs dc) = 1.
Proof.
  unfold Board.directions. split.
  - rewrite !elem_of_cons, elem_of_nil.
    intros H. repeat destruct H as [H|H]; try done;
      injection H as -> ->; reflexivity.
  - intros H.
    assert (dr = -1 ∨ dr = 0 ∨ dr = 1) as Hdr by lia.
    assert (dc = -1 ∨ dc = 0 ∨ dc = 1) as Hdc by lia.
    rewrite !elem_of_cons.
    destruct Hdr as [-> | [-> | ->]], Hdc as [-> | [-> | ->]];
      first [ discriminate H | tauto ].
Qed.

(** The cells [getAdjacentCells] returns are exactly the cells of the
    board at distance one, in the maximum norm, from the given place. *)
Lemma elem_of_getAdjacentCells_wf b r k q :
  wfBoard b →
  q ∈ Board.getAdjacentCells b r k
  ↔ ∃ cq, cells b !! q = Some cq ∧ isNeighbourOf r k cq.
Proof.
  intros Hwf. unfold Board.getAdjacentCells. rewrite list_elem_of_omap.
  split.
  - intros ([dr dc] & Hd & Hg). simpl in Hg.
    apply directions_spec in Hd.
    destruct (getCell_inv _ _ _ _ Hg) as (Hr & Hk & Hq & [cq Hcq]).
    exists cq. split; [done|].
    destruct Hwf as [_ Hcells].
    destruct (Hcells q cq Hcq) as (Hr' & Hk' & Hq' & _).
    assert (row cq = r + dr) as Hrow by nia.
    assert (col cq = k + dc) as Hcol by nia.
    unfold isNeighbourOf. rewrite Hrow, Hcol.
    replace (r + dr - r) with dr by lia.
    replace (k + dc - k) with dc by lia. done.
  - intros (cq & Hcq & Hn). unfold isNeighbourOf in Hn.
    exists (row cq - r, col cq - k). split.
    + by apply directions_spec.
    + simpl. replace (r + (row cq - r)) with (row cq) by lia.
      replace (k + (col cq - k)) with (col cq) by lia.
      by apply wf_getCell_self.
Qed.

End Neighbourhood.

(** ** The safe zone *)

Section SafeZone.
Implicit Types (b : BoardState) (p q : nat) (g : Rng).

Lemma placeMines_safe b r c g :
  wfBoard b → minesPlaced b = false →
  (∀ q cq, cells b !! q = Some cq → isMine cq = false) →
  0 ≤ r < rows b → 0 ≤ c < cols b →
  ∀ q cq, cells (Board.placeMines b r c g).1 !! q = Some cq →
          Z.abs (row cq - r) ≤ 1 → Z.abs (col cq - c) ≤ 1 →
          isMine cq = false.
Proof.
  intros Hwf Hnot Hclean Hr Hc q cq Hcq Hdr Hdc.
  destruct (placeMines_lookup b r c g Hnot)
    as (mp & Hsafe & _ & _ & _ & _ & Hcells).
  destruct (Hcells q cq Hcq) as (c0 & Hc0 & Hrow & Hcol & _ & Hmine & _).
  rewrite Hmine. rewrite decide_False; [by eapply Hclean|].
  intros Hin. apply (Hsafe q Hin).
  destruct (proj2 Hwf q c0 Hc0) as (_ & _ & Hq & Hidx).
  destruct (decide (row c0 = r ∧ col c0 = c)) as [[Er Ec]|Hne].
  - rewrite Hq, Er, Ec. apply elem_of_safeZoneOf_click.
  - rewrite <- Hidx. apply (elem_of_safeZoneOf_adjacent b r c q); [|done].
    apply elem_of_getAdjacentCells_wf; [done|].
    exists c0. split; [done|]. unfold isNeighbourOf. lia.
Qed.

(** C3: on a board fresh from [create], whatever the mine count, the
    power-up configuration and the random draws, after [placeMines] with
    an in-bounds safe click [(r, c)] the mines are placed, the clicked
    cell exists and is no mine, every cell returned by [getAdjacentCells]
    for the click is no mine, and more generally no cell within one row
    and one column of the click is a mine. *)
Theorem placeMines_keeps_safe_zone_clear
    (nrows ncols mines : Z) (cfg : option PowerupConfig) (r c : Z) g :
  0 ≤ r < nrows → 0 ≤ c < ncols →
  let b' := (Board.placeMines (Board.create nrows ncols mines cfg) r c g).1 in
  minesPlaced b' = true
  ∧ (∃ p cell, Board.getCell b' r c = Some p ∧ cells b' !! p = Some cell
               ∧ isMine cell = false)
  ∧ (∀ q, q ∈ Board.getAdjacentCells b' r c →
          ∃ cq, cells b' !! q = Some cq ∧ isMine cq = false)
  ∧ (∀ q cq, cells b' !! q = Some cq →
             Z.abs (row cq - r) ≤ 1 → Z.abs (col cq - c) ≤ 1 →
             isMine cq = false).
Proof.
  intros Hr Hc b'.
  set (b := Board.create nrows ncols mines cfg) in *.
  assert (wfBoard b) as Hwf by apply create_wf.
  assert (∀ q cq, cells b !! q = Some cq → isMine cq = false) as Hclean.
  { intros q cq Hq. apply create_lookup in Hq. by rewrite Hq. }
  assert (∀ q cq, cells b' !! q = Some cq →
             Z.abs (row cq - r) ≤ 1 → Z.abs (col cq - c) ≤ 1 →
             isMine cq = false) as Hsafe.
  { by apply placeMines_safe. }
  destruct (placeMines_lookup b r c g eq_refl)
    as (mp & _ & Hrows & Hcols & Hlen & Hplaced & Hcells).
  fold b' in Hrows, Hcols, Hlen, Hplaced, Hcells.
  assert (wfBoard b') as Hwf'.
  { split.
    - rewrite Hlen, Hrows, Hcols. apply Hwf.
    - intros p c' Hc'.
      destruct (Hcells p c' Hc') as (c0 & Hc0 & -> & -> & -> & _).
      rewrite Hrows, Hcols. by apply Hwf. }
  split; [done|]. split; [|split; [|done]].
  - assert (Board.getCell b' r c = Some (Z.to_nat (r * cols b' + c)))
      as Hg.
    { apply wf_getCell_Some; [done|rewrite Hrows|rewrite Hcols]; done. }
    destruct (getCell_inv _ _ _ _ Hg) as (_ & _ & _ & [cell Hcell]).
    exists (Z.to_nat (r * cols b' + c)), cell.
    split; [done|]. split; [done|].
    destruct (proj2 Hwf' _ _ Hcell) as (Hr' & Hc' & Hp & _).
    assert (cols b' = ncols) as Ecols by by rewrite Hcols.
    rewrite Ecols in *.
    rewrite Z2Nat.id in Hp by nia.
    assert (row cell = r) as Erow by nia.
    assert (col cell = c) as Ecol by nia.
    apply (Hsafe _ _ Hcell); lia.
  - intros q Hq. apply elem_of_getAdjacentCells_wf in Hq as (cq & Hcq & Hn);
      [|done].
    exists cq. split; [done|]. unfold isNeighbourOf in Hn.
    apply (Hsafe _ _ Hcq); lia.
Qed.

Lemma placeMines_keeps_safe_zone_clear_witness :
  let b' := (Board.placeMines (Board.create 9 9 10 None) 4 4
               (mkRng (λ _, 0%Q) 0)).1 in
  minesPlaced b' = true
  ∧ (∃ p cell, Board.getCell b' 4 4 = Some p ∧ cells b' !! p = Some cell
               ∧ isMine cell = false)
  ∧ (∀ q, q ∈ Board.getAdjacentCells b' 4 4 →
          ∃ cq, cells b' !! q = Some cq ∧ isMine cq = false)
  ∧ (∀ q cq, cells b' !! q = Some cq →
             Z.abs (row cq - 4) ≤ 1 → Z.abs (col cq - 4) ≤ 1 →
             isMine cq = false).
Proof.
  apply (placeMines_keeps_safe_zone_clear 9 9 10 None 4 4
           (mkRng (λ _, 0%Q) 0)); lia.
Defined.

End SafeZone.

(** ** Adjacent-mine counts *)

Section Adjacency.
Implicit Types (b : BoardState) (p q : nat) (g : Rng).

Lemma filter_ext_in {A} (P Q : A → Prop) `{∀ x, Decision (P x)}
    `{∀ x, Decision (Q x)} (l : list A) :
  (∀ x, x ∈ l → P x ↔ Q x) → filter P l = filter Q l.
Proof.
  induction l as [|x l IH]; intros Hext; [done|].
  rewrite !filter_cons.
  rewrite IH by (intros y Hy; apply Hext; by right).
  destruct (decide (P x)) as [HP|HP], (decide (Q x)) as [HQ|HQ]; try done;
    exfalso; apply (Hext x (list_elem_of_here _ _)) in HP || apply HP;
    try done; by apply (Hext x (list_elem_of_here _ _)).
Qed.

(** Counting cells that satisfy [P] is counting their positions. *)
Lemma length_filter_positions (P : Cell → Prop) `{∀ c, Decision (P c)}
    (l : list Cell) :
  length (filter P l)
  = length (filter (λ i, posHas P l i = true) (seq 0 (length l))).
Proof.
  induction l as [|x l IH] using rev_ind; [done|].
  rewrite length_app. simpl length.
  replace (length l + 1)%nat with (S (length l)) by lia.
  rewrite seq_S, !filter_app, !length_app, IH. simpl.
  f_equal.
  - f_equal. apply filter_ext_in. intros i Hi%elem_of_seq.
    unfold posHas. rewrite lookup_app_l by lia. done.
  - rewrite !filter_cons, !filter_nil. unfold posHas.
    rewrite lookup_app_r by lia. rewrite Nat.sub_diag. simpl.
    destruct (decide (P x)) as [HP|HP].
    + rewrite bool_decide_eq_true_2 by done. by rewrite decide_True.
    + rewrite bool_decide_eq_false_2 by done. by rewrite decide_False.
Qed.

Lemma NoDup_omap_inj {A B} (f : A → option B) (l : list A) :
  NoDup l →
  (∀ x y z, x ∈ l → y ∈ l → f x = Some z → f y = Some z → x = y) →
  NoDup (omap f l).
Proof.
  induction 1 as [|x l Hx Hnd IH]; intros Hinj; csimpl; [constructor|].
  destruct (f x) as [z|] eqn:Ez.
  - constructor.
    + rewrite list_elem_of_omap. intros (y & Hy & Hfy).
      assert (x = y) as <-; [|done].
      eapply Hinj; [by left|by right|done..].
    + apply IH. intros y1 y2 z' ? ?. apply Hinj; by right.
  - apply IH. intros y1 y2 z' ? ?. apply Hinj; by right.
Qed.

Lemma NoDup_directions : NoDup Board.directions.
Proof.
  unfold Board.directions.
  repeat (apply NoDup_cons; split;
          [rewrite ?elem_of_cons, elem_of_nil; intros H;
           repeat destruct H as [H|H]; done|]).
  apply NoDup_nil_2.
Qed.

Lemma NoDup_getAdjacentCells b r k :
  wfBoard b → NoDup (Board.getAdjacentCells b r k).
Proof.
  intros Hwf. unfold Board.getAdjacentCells.
  apply NoDup_omap_inj; [apply NoDup_directions|].
  intros [dr1 dc1] [dr2 dc2] z _ _ H1 H2. simpl in *.
  destruct (getCell_inv _ _ _ _ H1) as (? & ? & Hz1 & _).
  destruct (getCell_inv _ _ _ _ H2) as (? & ? & Hz2 & _).
  assert (dr1 = dr2) by nia. assert (dc1 = dc2) by nia. congruence.
Qed.

(** The count [placeMines] takes over [getAdjacentCells] is the
    brute-force count over the whole board. *)
Lemma countMines_brute_force b (c : Cell) :
  wfBoard b →
  Board.countMines b (Board.getAdjacentCells b (row c) (col c))
  = bruteForceMineCount b c.
Proof.
  intros Hwf. unfold Board.countMines, bruteForceMineCount. f_equal.
  rewrite length_filter_positions.
  apply Permutation_length, NoDup_Permutation.
  - apply NoDup_filter. by apply NoDup_getAdjacentCells.
  - apply NoDup_filter, NoDup_seq.
  - intros q. rewrite !list_elem_of_filter, elem_of_seq.
    rewrite elem_of_getAdjacentCells_wf by done.
    unfold cellHas, posHas. split.
    + intros (Hm & cq & Hcq & Hn). rewrite Hcq in Hm |- *.
      split; [by apply bool_decide_eq_true_2|].
      apply lookup_lt_Some in Hcq. lia.
    + intros (Hm & _). destruct (cells b !! q) as [cq|]; [|done].
      apply bool_decide_eq_true_1 in Hm as [Hm Hn].
      split; [done|]. by exists cq.
Qed.

Lemma placeMines_wf b r c g :
  wfBoard b → wfBoard (Board.placeMines b r c g).1.
Proof.
  intros Hwf. destruct (minesPlaced b) eqn:Hplaced.
  { unfold Board.placeMines. by rewrite Hplaced. }
  destruct (placeMines_lookup b r c g Hplaced)
    as (mp & _ & Hrows & Hcols & Hlen & _ & Hcells).
  split.
  - rewrite Hlen, Hrows, Hcols. apply Hwf.
  - intros p c' Hc'.
    destruct (Hcells p c' Hc') as (c0 & Hc0 & -> & -> & -> & _).
    rewrite Hrows, Hcols. by apply Hwf.
Qed.

Lemma placeMines_counts b r c g :
  wfBoard b → minesPlaced b = false →
  ∀ p cell, cells (Board.placeMines b r c g).1 !! p = Some cell →
            isMine cell = false →
            adjacentMines cell
            = bruteForceMineCount (Board.placeMines b r c g).1 cell.
Proof.
  intros Hwf Hplaced p cell Hcell Hm.
  pose proof (placeMines_wf b r c g Hwf) as Hwf'.
  destruct (placeMines_lookup b r c g Hplaced)
    as (mp & _ & Hrows & Hcols & Hlen & _ & Hcells).
  destruct (Hcells p cell Hcell) as (c0 & Hc0 & Hrow & Hcol & _ & _ & Hadj).
  rewrite Hadj by done.
  rewrite <- countMines_brute_force by done.
  rewrite Hrow, Hcol.
  rewrite (getAdjacentCells_ext b (Board.placeMines b r c g).1) by done.
  apply countMines_ext. intros q. unfold cellHas.
  rewrite lookup_setMines.
  destruct (cells (Board.placeMines b r c g).1 !! q) as [cq|] eqn:Ecq.
  - destruct (Hcells q cq Ecq) as (cq0 & -> & _ & _ & _ & -> & _).
    by destruct (decide (q ∈ mp)).
  - apply lookup_ge_None in Ecq. rewrite Hlen in Ecq.
    apply lookup_ge_None in Ecq. rewrite Ecq.
    by destruct (decide (q ∈ mp)).
Qed.

(** C6: on a board fresh from [create], after [placeMines] (any click,
    any mine count, any configuration, any random draws) every cell that
    is not a mine has as [adjacentMines] the number of cells of the board
    that are mines and lie at distance one from it. *)
Theorem placeMines_adjacentMines_is_brute_force_count
    (rows cols mineCount : Z) (cfg : option PowerupConfig) (r c : Z) g :
  let b' := (Board.placeMines (Board.create rows cols mineCount cfg) r c g).1 in
  ∀ p cell, cells b' !! p = Some cell → isMine cell = false →
            adjacentMines cell = bruteForceMineCount b' cell.
Proof.
  intros b'. apply placeMines_counts; [apply create_wf|done].
Qed.

Lemma placeMines_adjacentMines_is_brute_force_count_witness :
  let b' := (Board.placeMines (Board.create 1 4 1 None) 0 1
               (mkRng (λ _, 0%Q) 0)).1 in
  adjacentMines (mkCell 0 2 2 false false false false 1 None false false)
  = bruteForceMineCount b'
      (mkCell 0 2 2 false false false false 1 None false false).
Proof.
  apply (placeMines_adjacentMines_is_brute_force_count 1 4 1 None 0 1
           (mkRng (λ _, 0%Q) 0) 2%nat
           (mkCell 0 2 2 false false false false 1 None false false));
    reflexivity.
Defined.

End Adjacency.

(** ** Flood fill *)

Section FloodFill.
Implicit Types (b : BoardState) (p q s cur : nat) (st rest rev new : list nat).

Lemma zeroConnected_zero b s p (cs : Cell) :
  cells b !! s = Some cs → zeroCell cs → zeroConnected b s p →
  ∃ cp, cells b !! p = Some cp ∧ zeroCell cp.
Proof. intros Hs Hz. destruct 1; eauto. Qed.

Lemma cascadeReach_region b s q (cs : Cell) :
  cells b !! s = Some cs → zeroCell cs →
  cascadeReach b s q ↔ zeroConnected b s q ∨ borders b s q.
Proof.
  intros Hs Hz. split.
  - induction 1 as [|p q cp cq Hreach IH Hp Hzp Hq Hn Hm].
    + left. constructor.
    + assert (zeroConnected b s p) as Hcomp.
      { destruct IH as [IH|(p' & cp' & cp2 & _ & _ & Hp2 & _ & _ & Hnum)];
          [done|].
        rewrite Hp in Hp2. injection Hp2 as <-.
        exfalso. apply Hnum. by destruct Hzp. }
      destruct (decide (adjacentMines cq = 0)) as [H0|H0].
      * left. by eapply zc_step.
      * right. by exists p, cp, cq.
  - intros [Hcomp|(p & cp & cq & Hcomp & Hp & Hq & Hn & Hm & _)].
    + induction Hcomp as [|p q cp cq Hcomp IH Hp Hq Hn Hzq];
        [constructor|].
      destruct (zeroConnected_zero b s p cs Hs Hz Hcomp) as (cp' & Hp' & Hzp).
      rewrite Hp in Hp'. injection Hp' as <-.
      eapply reach_step; eauto. by destruct Hzq.
    + assert (cascadeReach b s p) as Hreach.
      { clear Hp Hn. induction Hcomp as [|p0 q0 cp0 cq0 Hcomp IH Hp0 Hq0 Hn0 Hzq0];
          [constructor|].
        destruct (zeroConnected_zero b s p0 cs Hs Hz Hcomp)
          as (cp' & Hp' & Hzp).
        rewrite Hp0 in Hp'. injection Hp' as <-.
        eapply reach_step; eauto. by destruct Hzq0. }
      destruct (zeroConnected_zero b s p cs Hs Hz Hcomp) as (cp' & Hp' & Hzp).
      rewrite Hp in Hp'. injection Hp' as <-.
      eapply reach_step; eauto.
Qed.

(** Reading a cell of the board in the middle of a reveal. *)
Lemma revealAll_cell new b q (c' : Cell) :
  cells (revealAll new b) !! q = Some c' →
  ∃ c0, cells b !! q = Some c0
        ∧ c' = setRevealed (isRevealed c') c0
        ∧ (isRevealed c' = true ↔ isRevealed c0 = true ∨ q ∈ new).
Proof.
  rewrite lookup_revealAll. case_decide as Hin.
  - destruct (cells b !! q) as [c0|]; [|done]. intros [= <-].
    exists c0. simpl. split; [done|]. split; [done|]. tauto.
  - intros Hc. exists c'. split; [done|]. split; [by destruct c'|]. tauto.
Qed.

Lemma pushable_revealAll new b q (c0 : Cell) :
  cells b !! q = Some c0 →
  pushable (revealAll new b) q = true
  ↔ (isRevealed c0 = false ∧ q ∉ new) ∧ isFlagged c0 = false
    ∧ isMine c0 = false.
Proof.
  intros Hc0. unfold pushable.
  rewrite (cellHas_revealAll_static isFlagged),
    (cellHas_revealAll_static isMine) by done.
  unfold cellHas at 2 3. rewrite Hc0.
  rewrite !andb_true_iff, !negb_true_iff.
  assert (cellHas isRevealed (revealAll new b) q = false
          ↔ isRevealed c0 = false ∧ q ∉ new) as ->; [|tauto].
  unfold cellHas. rewrite lookup_revealAll, Hc0.
  case_decide; simpl; [|tauto]. split; [done|tauto].
Qed.

(** The cascade, started on cells of the region, marks cells of the
    region only, never ends on a mine or a power-up, and leaves the
    region closed. *)
Lemma revealLoop_cascade fuel b s st b' res :
  wfBoard b →
  (∀ q cq, cascadeReach b s q → cells b !! q = Some cq →
           isRevealed cq = false →
           isFlagged cq = false ∧ truthy (powerup cq) = false) →
  Forall (λ q, ∃ cq, cells b !! q = Some cq ∧ isMine cq = false
                     ∧ cascadeReach b s q) st →
  cascadeClosed b s [] st →
  s ∈ st ∨ cellHas isRevealed b s = true →
  Board.revealLoop fuel b st [] = Some (b', res) →
  hitMine res = false
  ∧ Forall (cascadeReach b s) (revealed res)
  ∧ cascadeClosed b s (revealed res) []
  ∧ (s ∈ revealed res ∨ cellHas isRevealed b s = true).
Proof.
  intros Hwf Hfree Hst Hclosed Hs Hrun.
  pose (Inv := λ b1 (st rev : list nat),
    b1 = revealAll rev b
    ∧ Forall (λ q, ∃ cq, cells b !! q = Some cq ∧ isMine cq = false
                         ∧ cascadeReach b s q) st
    ∧ Forall (cascadeReach b s) rev
    ∧ cascadeClosed b s rev st
    ∧ (s ∈ st ∨ s ∈ rev ∨ cellHas isRevealed b s = true)).
  pose (Post := λ (b1 : BoardState) res,
    hitMine res = false
    ∧ Forall (cascadeReach b s) (revealed res)
    ∧ cascadeClosed b s (revealed res) []
    ∧ (s ∈ revealed res ∨ cellHas isRevealed b s = true)).
  refine (revealLoop_rule Inv Post _ _ _ fuel b st [] b' res _ Hrun).
  - (* the work list ran empty *)
    intros b1 rev (_ & _ & Hrev & Hcl & Hs'). unfold Post. simpl.
    split; [done|]. split; [done|]. split; [done|].
    destruct Hs' as [Hs'|Hs']; [by apply elem_of_nil in Hs'|done].
  - (* a popped cell is skipped *)
    intros b1 cur rest rev c (-> & Hst' & Hrev & Hcl & Hs') Hc Hskip.
    apply Forall_cons in Hst' as [(c0 & Hc0 & Hm0 & Hreach) Hrest].
    destruct (revealAll_cell _ _ _ _ Hc) as (c0' & Hc0' & Hceq & Hrv).
    rewrite Hc0 in Hc0'. injection Hc0' as <-.
    assert (isRevealed c0 = true ∨ cur ∈ rev) as Hnow.
    { apply Hrv. destruct (isRevealed c) eqn:Er; [done|].
      assert (isRevealed c0 = false) as Er0.
      { destruct (isRevealed c0) eqn:E; [|done].
        assert (false = true) by (apply Hrv; by left). done. }
      destruct (Hfree cur c0 Hreach Hc0 Er0) as [Hf0 _].
      rewrite Hceq in Hskip. simpl in Hskip. by rewrite Hf0 in Hskip. }
    split; [done|]. split; [done|]. split; [done|]. split.
    + intros p cp q cq Hp Hcp Hpr Hz Hcq Hn Hm.
      destruct (Hcl p cp q cq Hp Hcp Hpr Hz Hcq Hn Hm) as [H|H]; [by left|].
      apply elem_of_cons in H as [->|H]; [|by right].
      left. rewrite Hc0 in Hcq. by injection Hcq as <-.
    + destruct Hs' as [Hs'|Hs']; [|by right].
      apply elem_of_cons in Hs' as [->|Hs']; [|by left].
      right. destruct Hnow as [Hnow|Hnow]; [|by left].
      right. unfold cellHas. by rewrite Hc0.
  - (* a popped cell is marked *)
    intros b1 cur rest rev c (-> & Hst' & Hrev & Hcl & Hs') Hc Hr Hf.
    apply Forall_cons in Hst' as [(c0 & Hc0 & Hm0 & Hreach) Hrest].
    destruct (revealAll_cell _ _ _ _ Hc) as (c0' & Hc0' & Hceq & Hrv).
    rewrite Hc0 in Hc0'. injection Hc0' as <-.
    assert (isRevealed c0 = false ∧ cur ∉ rev) as [Er0 Hnotin].
    { split.
      - destruct (isRevealed c0) eqn:E; [|done].
        assert (isRevealed c = true) by (apply Hrv; by left). congruence.
      - intros Hin.
        assert (isRevealed c = true) by (apply Hrv; by right). congruence. }
    assert (c = c0) as ->.
    { rewrite Hceq, Hr. destruct c0; simpl in *. by subst. }
    destruct (Hfree cur c0 Hreach Hc0 Er0) as [_ Hp0].
    simpl. rewrite Hm0, Hp0. rewrite <- revealAll_snoc.
    assert (Forall (cascadeReach b s) (rev ++ [cur])) as Hrev'.
    { apply Forall_app. split; [done|]. by apply Forall_singleton. }
    assert (∀ st', (∀ q, q ∈ rest → q ∈ st') →
              s ∈ st' ∨ s ∈ rev ++ [cur] ∨ cellHas isRevealed b s = true)
      as Hs''.
    { intros st' Hsub. destruct Hs' as [Hs'|[Hs'|Hs']].
      - apply elem_of_cons in Hs' as [->|Hs'].
        + right. left. apply elem_of_app. right.
          by apply list_elem_of_singleton.
        + left. by apply Hsub.
      - right. left. apply elem_of_app. by left.
      - right. by right. }
    assert (∀ st', (∀ q, q ∈ rest → q ∈ st') →
              ∀ p cp q cq,
                cascadeReach b s p → cells b !! p = Some cp →
                isRevealed cp = true ∨ p ∈ rev → zeroCell cp →
                cells b !! q = Some cq →
                isNeighbourOf (row cp) (col cp) cq → isMine cq = false →
                (isRevealed cq = true ∨ q ∈ rev ++ [cur]) ∨ q ∈ st')
      as Hold.
    { intros st' Hsub p cp q cq Hp Hcp Hpr Hz Hcq Hn Hm.
      destruct (Hcl p cp q cq Hp Hcp Hpr Hz Hcq Hn Hm) as [[H|H]|H].
      - left. by left.
      - left. right. apply elem_of_app. by left.
      - apply elem_of_cons in H as [->|H].
        + left. right. apply elem_of_app. right.
          by apply list_elem_of_singleton.
        + right. by apply Hsub. }
    destruct (adjacentMines c0 =? 0) eqn:E0.
    + (* a zero cell: its neighbours are pushed *)
      apply Z.eqb_eq in E0.
      rewrite getAdjacentCells_revealAll.
      set (stack := Board.pushNeighbours _ _ rest).
      assert (∀ q, q ∈ rest → q ∈ stack) as Hsub.
      { intros q Hq. apply elem_of_pushNeighbours. by right. }
      split; [done|]. split; [|split; [done|split; [|by apply Hs'']]].
      * apply Forall_forall. intros q Hq.
        apply elem_of_pushNeighbours in Hq as [[Hq Hpush]|Hq];
          [|by eapply Forall_forall in Hrest].
        apply elem_of_getAdjacentCells_wf in Hq as (cq & Hcq & Hn); [|done].
        apply (pushable_revealAll _ _ _ cq Hcq) in Hpush as (_ & _ & Hmq).
        exists cq. split; [done|]. split; [done|].
        by eapply (reach_step b s cur q c0 cq).
      * intros p cp q cq Hp Hcp Hpr Hz Hcq Hn Hm.
        assert (p = cur ∨ (isRevealed cp = true ∨ p ∈ rev)) as [->|Hpr'].
        { destruct Hpr as [?|[?|?%list_elem_of_singleton]%elem_of_app];
            tauto. }
        2: { by apply (Hold stack Hsub p cp q cq). }
        rewrite Hc0 in Hcp. injection Hcp as <-.
        destruct (isRevealed cq) eqn:Erq; [left; by left|].
        destruct (decide (q ∈ rev ++ [cur])) as [Hin|Hout];
          [left; by right|].
        right. apply elem_of_pushNeighbours. left. split.
        -- apply elem_of_getAdjacentCells_wf; [done|]. by exists cq.
        -- apply (pushable_revealAll _ _ _ cq Hcq).
           split; [done|]. split; [|done].
           apply (Hfree q cq); [|done..].
           by eapply (reach_step b s cur q c0 cq).
    + (* a numbered cell: nothing is pushed *)
      apply Z.eqb_neq in E0.
      split; [done|]. split; [done|]. split; [done|].
      split; [|by apply Hs''].
      intros p cp q cq Hp Hcp Hpr Hz Hcq Hn Hm.
      assert (p = cur ∨ (isRevealed cp = true ∨ p ∈ rev)) as [->|Hpr'].
      { destruct Hpr as [?|[?|?%list_elem_of_singleton]%elem_of_app];
          tauto. }
      * rewrite Hc0 in Hcp. injection Hcp as <-. by destruct Hz.
      * by apply (Hold rest (λ _ H, H) p cp q cq).
  - (* initially *)
    split; [done|]. split; [done|]. split; [apply Forall_nil_2|].
    split; [done|]. destruct Hs; [by left|right; by right].
Qed.

(** C4 (as the code has it).  First, for every board and all
    coordinates [revealCell] returns, no cell appears twice in the
    returned list, every listed cell was neither revealed nor flagged, and
    the returned board is the given one with exactly the listed cells
    marked revealed.  Second, on a well-formed board, when the target is
    an unrevealed, unflagged zero cell, no unrevealed cell of its region
    (its connected zero-adjacency component and the bordering numbered
    cells) is flagged or carries a power-up, and the earlier cascades
    through the region were completed, then the call hits no mine, the
    returned list consists exactly of the cells of the region that were
    not yet revealed, and every cell of the region is revealed
    afterwards. *)
Theorem revealCell_flood_fill :
  (∀ b r c,
      ∃ b' res, Board.revealCell b r c = Some (b', res)
                ∧ NoDup (revealed res)
                ∧ Forall (fresh b) (revealed res)
                ∧ b' = revealAll (revealed res) b)
  ∧ (∀ b r c s (cs : Cell),
        wfBoard b →
        Board.getCell b r c = Some s → cells b !! s = Some cs →
        isRevealed cs = false → isFlagged cs = false → zeroCell cs →
        noObstacle b s → cascadesCompleted b s →
        ∃ b' res,
          Board.revealCell b r c = Some (b', res)
          ∧ hitMine res = false
          ∧ (∀ q, q ∈ revealed res
                  ↔ inRegion b s q ∧ cellHas isRevealed b q = false)
          ∧ (∀ q, inRegion b s q → cellHas isRevealed b' q = true)).
Proof.
  split.
  - intros b r c. destruct (revealCell_total b r c) as [[b' res] Hrun].
    exists b', res. split; [done|].
    by apply revealCell_frame in Hrun as (? & ? & ? & _).
  - intros b r c s cs Hwf Hg Hcs Hr Hf Hz Hfree Hdone.
    pose proof (cascadeReach_region b s) as Hregion.
    destruct (revealCell_total b r c) as [[b' res] Hrun].
    exists b', res. split; [done|].
    pose proof (revealCell_frame _ _ _ _ _ Hrun) as (Hb' & _ & Hfresh & _).
    unfold Board.revealCell in Hrun. rewrite Hg, Hcs, Hr, Hf in Hrun.
    simpl in Hrun.
    apply (revealLoop_cascade _ _ s) in Hrun
        as (Hhit & Hreach & Hclosed & Hs); [|done|..].
    2: { intros q cq Hq. apply Hfree. unfold inRegion.
         by apply (Hregion q cs). }
    2: { apply Forall_singleton. exists cs. split; [done|].
         split; [by destruct Hz|constructor]. }
    2: { intros p cp q cq Hp Hcp [Hrp|Hin] Hzp Hcq Hn Hm;
           [|by apply elem_of_nil in Hin].
         left. left. eapply (Hdone p cp q cq); try done.
         unfold inRegion. by apply (Hregion p cs). }
    2: { left. by apply list_elem_of_singleton. }
    assert (s ∈ revealed res) as Hs'.
    { destruct Hs as [?|Hs]; [done|]. unfold cellHas in Hs.
      rewrite Hcs in Hs. congruence. }
    assert (∀ q, cascadeReach b s q →
                 ∃ cq, cells b !! q = Some cq
                       ∧ (isRevealed cq = true ∨ q ∈ revealed res))
      as Hcomplete.
    { induction 1 as [|p q cp cq Hp IH Hcp Hzp Hcq Hn Hm].
      - exists cs. split; [done|]. by right.
      - destruct IH as (cp' & Hcp' & Hpr).
        rewrite Hcp in Hcp'. injection Hcp' as <-.
        exists cq. split; [done|].
        destruct (Hclosed p cp q cq Hp Hcp Hpr Hzp Hcq Hn Hm) as [H|H];
          [done|by apply elem_of_nil in H]. }
    split; [done|]. split.
    + intros q. split.
      * intros Hq. split.
        -- unfold inRegion. apply (Hregion q cs Hcs Hz).
           by eapply Forall_forall in Hreach.
        -- eapply Forall_forall in Hfresh as (cq & Hcq & Hrq & _); [|done].
           unfold cellHas. by rewrite Hcq.
      * intros [Hq Hrq]. apply (Hregion q cs Hcs Hz) in Hq.
        destruct (Hcomplete q Hq) as (cq & Hcq & [H|H]); [|done].
        unfold cellHas in Hrq. rewrite Hcq in Hrq. congruence.
    + intros q Hq. apply (Hregion q cs Hcs Hz) in Hq.
      destruct (Hcomplete q Hq) as (cq & Hcq & [H|H]); subst b'.
      * apply cellHas_revealAll_mono. unfold cellHas. by rewrite Hcq.
      * apply cellHas_revealAll_in; [done|]. by eapply lookup_lt_Some.
Qed.

Lemma revealCell_flood_fill_witness :
  ∃ b' res,
    Board.revealCell (Board.create 3 3 0 None) 1 1 = Some (b', res)
    ∧ hitMine res = false
    ∧ (∀ q, q ∈ revealed res
            ↔ inRegion (Board.create 3 3 0 None) 4 q
              ∧ cellHas isRevealed (Board.create 3 3 0 None) q = false)
    ∧ (∀ q, inRegion (Board.create 3 3 0 None) 4 q →
            cellHas isRevealed b' q = true).
Proof.
  apply (proj2 revealCell_flood_fill (Board.create 3 3 0 None) 1 1 4%nat
           (Board.newCell 3 1 1)).
  - apply create_wf.
  - reflexivity.
  - reflexivity.
  - reflexivity.
  - reflexivity.
  - split; reflexivity.
  - intros q cq _ Hq _. apply create_lookup in Hq. rewrite Hq.
    split; reflexivity.
  - intros p cp q cq _ Hp Hrev. apply create_lookup in Hp.
    rewrite Hp in Hrev. discriminate Hrev.
Defined.

(** C4 refuted as stated: on [shieldOnBorderBoard] the mines are placed
    and the cell at [(0, 1)] is in bounds, unrevealed, unflagged and has no
    adjacent mine; the cell at position 0 belongs to its zero-adjacency
    component; yet the call stops at the shield on the bordering cell 2
    and leaves cell 0 unrevealed. *)
Lemma revealCell_powerup_cuts_flood_fill :
  minesPlaced shieldOnBorderBoard = true
  ∧ Board.getCell shieldOnBorderBoard 0 1 = Some 1%nat
  ∧ cells shieldOnBorderBoard !! 1%nat
    = Some (mkCell 0 1 1 false false false false 0 None false false)
  ∧ zeroConnected shieldOnBorderBoard 1 0
  ∧ ∃ b' res,
      Board.revealCell shieldOnBorderBoard 0 1 = Some (b', res)
      ∧ revealed res = [1%nat; 2%nat]
      ∧ resPowerup res = Some "shield"
      ∧ cellHas isRevealed b' 0 = false.
Proof.
  split; [reflexivity|]. split; [reflexivity|]. split; [reflexivity|].
  split.
  - apply (zc_step _ _ 1%nat 0%nat
             (mkCell 0 1 1 false false false false 0 None false false)
             (mkCell 0 0 0 false false false false 0 None false false)).
    + constructor.
    + reflexivity.
    + reflexivity.
    + reflexivity.
    + split; reflexivity.
  - eexists _, _. split; [vm_compute; reflexivity|].
    split; [reflexivity|]. split; reflexivity.
Qed.

End FloodFill.


(** * Further properties of the board *)

(** ** Layout *)

Section Layout.
Implicit Types (b : BoardState) (p q : nat).

(** X1: [create] lays [rows * cols] cells out row by row: the cell at
    [(r, c)] sits at position [r * cols + c], is found there by [getCell],
    and is blank (no mine, unrevealed, unmarked, no count, no power-up)
    with its own coordinates and index. *)
Theorem create_lays_cells_row_major
    (nrows ncols mines : Z) (cfg : option PowerupConfig) :
  0 ≤ nrows → 0 ≤ ncols →
  let b := Board.create nrows ncols mines cfg in
  Z.of_nat (length (cells b)) = nrows * ncols
  ∧ ∀ r c, 0 ≤ r < nrows → 0 ≤ c < ncols →
      Board.getCell b r c = Some (Z.to_nat (r * ncols + c))
      ∧ cells b !! Z.to_nat (r * ncols + c)
        = Some (mkCell r c (r * ncols + c) false false false false 0 None
                       false false).
Proof.
  intros Hr Hc b.
  pose proof (create_wf nrows ncols mines cfg) as Hwf. fold b in Hwf.
  split.
  - destruct Hwf as [Hlen _]. rewrite Hlen. simpl. lia.
  - intros r c Hr' Hc'.
    pose proof (wf_getCell_Some b r c Hwf Hr' Hc') as Hg. simpl cols in Hg.
    split; [done|].
    destruct (getCell_inv _ _ _ _ Hg) as (_ & _ & _ & [c0 Hc0]).
    rewrite Hc0. f_equal.
    pose proof (create_lookup _ _ _ _ _ _ Hc0) as Heq.
    destruct (proj2 Hwf _ _ Hc0) as (Hr0 & Hk0 & Hp & _). simpl in Hr0, Hk0, Hp.
    rewrite Z2Nat.id in Hp by nia.
    assert (row c0 = r) as Er by nia. assert (col c0 = c) as Ec by nia.
    rewrite Heq, Er, Ec. reflexivity.
Qed.

Lemma create_lays_cells_row_major_witness :
  let b := Board.create 9 9 10 None in
  Z.of_nat (length (cells b)) = 9 * 9
  ∧ ∀ r c, 0 ≤ r < 9 → 0 ≤ c < 9 →
      Board.getCell b r c = Some (Z.to_nat (r * 9 + c))
      ∧ cells b !! Z.to_nat (r * 9 + c)
        = Some (mkCell r c (r * 9 + c) false false false false 0 None
                       false false).
Proof. apply (create_lays_cells_row_major 9 9 10 None); lia. Defined.

(** X2: On a well-formed board [getAdjacentCells] returns, without
    repetition, exactly the cells at distance one (in the maximum norm)
    from the given place: at most eight, all eight away from the edges,
    never the place itself; and being adjacent is symmetric. *)
Theorem getAdjacentCells_is_the_neighbourhood b :
  wfBoard b →
  (∀ r k, NoDup (Board.getAdjacentCells b r k)
          ∧ (length (Board.getAdjacentCells b r k) ≤ 8)%nat
          ∧ ∀ q, q ∈ Board.getAdjacentCells b r k
                 ↔ ∃ cq, cells b !! q = Some cq
                         ∧ Z.max (Z.abs (row cq - r)) (Z.abs (col cq - k)) = 1)
  ∧ (∀ r k, 1 ≤ r → r + 1 < rows b → 1 ≤ k → k + 1 < cols b →
            length (Board.getAdjacentCells b r k) = 8%nat)
  ∧ (∀ p q cp cq, cells b !! p = Some cp → cells b !! q = Some cq →
       (q ∈ Board.getAdjacentCells b (row cp) (col cp)
        ↔ p ∈ Board.getAdjacentCells b (row cq) (col cq))
       ∧ p ∉ Board.getAdjacentCells b (row cp) (col cp)).
Proof.
  intros Hwf. split; [|split].
  - intros r k. split; [by apply NoDup_getAdjacentCells|].
    split; [apply getAdjacentCells_length|].
    intros q. by apply elem_of_getAdjacentCells_wf.
  - intros r k Hr1 Hr2 Hk1 Hk2. unfold Board.getAdjacentCells, Board.directions.
    csimpl.
    rewrite !(wf_getCell_Some b) by (done || lia). reflexivity.
  - intros p q cp cq Hp Hq. split.
    + rewrite !elem_of_getAdjacentCells_wf by done. unfold isNeighbourOf.
      split.
      * intros (cq' & Hq' & Hn). rewrite Hq in Hq'. injection Hq' as <-.
        exists cp. split; [done|]. lia.
      * intros (cp' & Hp' & Hn). rewrite Hp in Hp'. injection Hp' as <-.
        exists cq. split; [done|]. lia.
    + rewrite elem_of_getAdjacentCells_wf by done. unfold isNeighbourOf.
      intros (cp' & Hp' & Hn). rewrite Hp in Hp'. injection Hp' as <-. lia.
Qed.

Lemma getAdjacentCells_is_the_neighbourhood_witness :
  length (Board.getAdjacentCells (Board.create 9 9 10 None) 4 4) = 8%nat.
Proof.
  apply (proj1 (proj2 (getAdjacentCells_is_the_neighbourhood
                         (Board.create 9 9 10 None) (create_wf 9 9 10 None))));
    simpl; lia.
Defined.

End Layout.

(** ** Reveals and chords *)

Section RevealsAgain.
Implicit Types (b : BoardState) (p q : nat).

(** X3: Revealing the same place a second time does nothing: the second call
    returns the empty result and the board of the first. *)
Theorem revealCell_again_is_noop b r c :
  ∃ b' res, Board.revealCell b r c = Some (b', res)
            ∧ Board.revealCell b' r c
              = Some (b', mkReveal [] false None None).
Proof.
  destruct (revealCell_total b r c) as [[b' res] Hrun].
  exists b', res. split; [done|].
  pose proof (revealCell_frame _ _ _ _ _ Hrun) as (Hb' & _ & _ & _).
  apply revealCell_noop.
  destruct (Board.getCell b r c) as [p|] eqn:Hg.
  - right. destruct (getCell_inv _ _ _ _ Hg) as (_ & _ & _ & [cell Hcell]).
    assert (Board.getCell b' r c = Some p) as Hg'.
    { subst b'. by rewrite getCell_revealAll. }
    destruct (isRevealed cell || isFlagged cell) eqn:Eskip.
    + unfold Board.revealCell in Hrun. rewrite Hg, Hcell, Eskip in Hrun.
      injection Hrun as <- <-. exists p, cell. split; [done|]. split; [done|].
      by apply orb_true_iff in Eskip.
    + apply orb_false_iff in Eskip as [Er Ef].
      destruct (revealCell_reveals_target _ _ _ p _ _ Hg
                  (ex_intro _ cell (conj Hcell (conj Er Ef))) Hrun) as [tl Htl].
      exists p, (setRevealed true cell). split; [done|]. split; [|by left].
      subst b'. rewrite lookup_revealAll_in, Hcell; [done|].
      rewrite Htl. by left.
  - left. subst b'. by rewrite getCell_revealAll.
Qed.

(** The frame of the loop of [chordReveal]. *)
Lemma chordLoop_frame adjacent b result0 b' res :
  Board.chordLoop b adjacent result0 = Some (b', res) →
  ∃ new, revealed res = revealed result0 ++ new ∧ b' = revealAll new b
         ∧ NoDup new ∧ Forall (fresh b) new
         ∧ ((hitMine res = hitMine result0
             ∧ explodedCell res = explodedCell result0)
            ∨ (hitMine res = true
               ∧ ∃ e, explodedCell res = Some e ∧ e ∈ new
                      ∧ cellHas isMine b e = true)).
Proof.
  revert b result0. induction adjacent as [|adj rest IH];
    intros b result0; simpl.
  { intros [= <- <-]. exists []. rewrite app_nil_r.
    split; [done|]. split; [done|]. split; [apply NoDup_nil_2|].
    split; [apply Forall_nil_2|]. by left. }
  destruct (cells b !! adj) as [a|]; [|done].
  destruct (negb (isRevealed a) && negb (isFlagged a)); [|apply IH].
  destruct (Board.revealCell b (row a) (col a)) as [[b1 rr]|] eqn:Hcall;
    [|done].
  intros (new & Hrev & -> & Hnd & Hfresh & Hhit)%IH.
  apply revealCell_frame in Hcall as (-> & Hnd1 & Hfresh1 & Hshape).
  assert (Forall (λ q, fresh b q ∧ q ∉ revealed rr) new) as Hnew.
  { eapply Forall_impl; [exact Hfresh|]. intros q (cq & Hcq & Hr & Hf).
    destruct (revealAll_cell _ _ _ _ Hcq) as (c0 & Hc0 & Heq & Hrv).
    split.
    - exists c0. split; [done|]. split.
      + destruct (isRevealed c0) eqn:E; [|done].
        assert (isRevealed cq = true) by (apply Hrv; by left). congruence.
      + rewrite Heq in Hf. done.
    - intros Hin.
      assert (isRevealed cq = true) by (apply Hrv; by right). congruence. }
  exists (revealed rr ++ new). simpl in Hrev.
  split; [by rewrite Hrev, app_assoc|].
  split; [by rewrite revealAll_app|].
  split.
  { apply NoDup_app. split; [done|]. split; [|done].
    intros x Hx Hx'. eapply Forall_forall in Hnew as [_ Hnot]; [|exact Hx'].
    done. }
  split.
  { apply Forall_app. split; [done|].
    eapply Forall_impl; [exact Hnew|]. by intros q [? _]. }
  destruct Hhit as [[Hh He]|(Hh & e & He & Hin & Hm)].
  - simpl in Hh, He. destruct (hitMine rr) eqn:Ehit.
    + right. split; [done|].
      destruct Hshape as [(_ & Hh' & _)|[(pre & x & Hnew' & _ & Hx & _ & Hex & _)
                                        |(pre & x & cx & _ & _ & _ & _ & _ & Hh' & _)]];
        [congruence| |congruence].
      exists x. split; [by rewrite He|]. split; [|done].
      apply elem_of_app. left. rewrite Hnew'. apply elem_of_app. right.
      by apply list_elem_of_singleton.
    + by left.
  - right. split; [done|]. exists e. split; [done|].
    split; [apply elem_of_app; by right|].
    by rewrite (cellHas_revealAll_static isMine) in Hm.
Qed.

Lemma revealCell_uncovers b r c b2 res :
  Board.revealCell b r c = Some (b2, res) → uncovers b b2 res.
Proof.
  intros Hrun.
  destruct (revealCell_frame _ _ _ _ _ Hrun) as (Hb & _ & Hfresh & Hshape).
  exists (revealed res). split; [done|]. split; [done|]. intros Hhit.
  destruct Hshape as [(_ & Hh & _)|[(pre & x & Hnew & _ & Hx & _ & He & _)
                                    |(pre & x & cx & _ & _ & _ & _ & _ & Hh & _)]];
    [congruence| |congruence].
  exists x. split; [done|]. split; [|done].
  rewrite Hnew. apply elem_of_app. right. by apply list_elem_of_singleton.
Qed.

Lemma chordReveal_uncovers b r c b2 res :
  Board.chordReveal b r c = Some (b2, res) → uncovers b b2 res.
Proof.
  assert (uncovers b b Board.noReveal) as Hnoop.
  { exists []. split; [done|]. split; [done|]. done. }
  unfold Board.chordReveal.
  destruct (Board.getCell b r c) as [p|]; [|by intros [= <- <-]].
  destruct (cells b !! p) as [cell|]; [|by intros [= <- <-]].
  destruct (_ || _); [by intros [= <- <-]|].
  destruct (negb _); [by intros [= <- <-]|].
  intros Hrun.
  destruct (chordLoop_frame _ _ _ _ _ Hrun)
    as (new & _ & Hb2 & _ & Hfresh & Hhit).
  exists new. split; [done|]. split; [done|]. intros Hh.
  destruct Hhit as [[Hsame _]|[_ (e & He & Hin & Hm)]].
  - rewrite Hh in Hsame. done.
  - by exists e.
Qed.

(** X4: A chord lists no cell twice, lists only cells that were neither
    revealed nor flagged, and returns the given board with exactly the
    listed cells marked revealed: flags, mines, counts and power-ups are
    as before.  When it reports a mine, its [explodedCell] is a mine among
    the listed cells. *)
Theorem chordReveal_reveals_each_cell_once b r c :
  ∃ b' res,
    Board.chordReveal b r c = Some (b', res)
    ∧ b' = revealAll (revealed res) b
    ∧ NoDup (revealed res)
    ∧ Forall (fresh b) (revealed res)
    ∧ (hitMine res = true →
       ∃ e, explodedCell res = Some e ∧ e ∈ revealed res
            ∧ cellHas isMine b e = true).
Proof.
  destruct (chordReveal_total b r c) as [[b' res] Hrun].
  exists b', res. split; [done|].
  unfold Board.chordReveal in Hrun.
  assert (Board.chordLoop b (Board.getAdjacentCells b r c) Board.noReveal
          = Some (b', res)
          ∨ (b', res) = (b, Board.noReveal)) as [Hloop|Hnoop].
  { destruct (Board.getCell b r c) as [p|]; [|right; congruence].
    destruct (cells b !! p) as [cell|]; [|right; congruence].
    destruct (_ || _); [right; congruence|].
    destruct (negb _); [right; congruence|]. by left. }
  - apply chordLoop_frame in Hloop as (new & Hrev & -> & Hnd & Hfresh & Hhit).
    simpl in Hrev. subst new. split; [done|]. split; [done|]. split; [done|].
    intros Hh. destruct Hhit as [[Hh' _]|(_ & e & ? & ? & ?)].
    + simpl in Hh'. congruence.
    + by exists e.
  - injection Hnoop as -> ->. simpl. split; [done|].
    split; [apply NoDup_nil_2|]. split; [apply Forall_nil_2|]. done.
Qed.

End RevealsAgain.

(** ** Flags and the flag count *)

Section FlagsAgain.
Implicit Types (b : BoardState) (p q : nat).

Lemma alter_ext_at {A} (f g : A → A) (l : list A) (i : nat) :
  (∀ x, l !! i = Some x → f x = g x) → alter f i l = alter g i l.
Proof.
  intros H. apply list_eq. intros j. rewrite !list_lookup_alter.
  case_decide; [|done]. subst. destruct (l !! j) eqn:E; [|done].
  simpl. f_equal. by apply H.
Qed.

Lemma updCell_ext_at (f g : Cell → Cell) p b :
  (∀ x, cells b !! p = Some x → f x = g x) → updCell f p b = updCell g p b.
Proof. intros H. unfold updCell. f_equal. by apply alter_ext_at. Qed.

Lemma updCell_compose (f g : Cell → Cell) p b :
  updCell f p (updCell g p b) = updCell (f ∘ g) p b.
Proof.
  unfold updCell. simpl. f_equal. apply list_alter_alter_eq.
Qed.

Lemma updCell_id (f : Cell → Cell) p b :
  (∀ x, cells b !! p = Some x → f x = x) → updCell f p b = b.
Proof.
  intros H. destruct b as [r k m l mp cfg]. unfold updCell. simpl in *.
  f_equal. apply list_eq. intros j. rewrite list_lookup_alter.
  case_decide; [|done]. subst. destruct (l !! j) eqn:E; [|done].
  simpl. f_equal. by apply H.
Qed.

(** An effective [toggleFlag] is one assignment to the target cell. *)
Lemma toggleFlag_updCell b r c p (cell : Cell) :
  Board.getCell b r c = Some p → cells b !! p = Some cell →
  isRevealed cell = false →
  Board.toggleFlag b r c = (updCell toggled p b, mkFlag true (Some p)).
Proof.
  intros Hg Hc Hr. unfold Board.toggleFlag. rewrite Hg, Hc, Hr. f_equal.
  destruct (isFlagged cell) eqn:Ef; [|destruct (isQuestion cell) eqn:Eq].
  - rewrite updCell_compose. apply updCell_ext_at. intros x Hx.
    rewrite Hc in Hx. injection Hx as <-. unfold toggled. by rewrite Ef.
  - apply updCell_ext_at. intros x Hx.
    rewrite Hc in Hx. injection Hx as <-. unfold toggled. by rewrite Ef, Eq.
  - apply updCell_ext_at. intros x Hx.
    rewrite Hc in Hx. injection Hx as <-. unfold toggled. by rewrite Ef, Eq.
Qed.

(** X5: Three toggles of an unrevealed cell that carries exactly one marking
    give back the very same board. *)
Theorem toggleFlag_three_times_restores_board b r c p (cell : Cell) :
  Board.getCell b r c = Some p → cells b !! p = Some cell →
  isRevealed cell = false → exactlyOneMarking cell →
  toggleFlags b [(r, c); (r, c); (r, c)] = b.
Proof.
  intros Hg Hc Hr Hone. apply exactlyOneMarking_iff in Hone.
  assert (∀ x, isRevealed (toggled x) = isRevealed x) as Hrev.
  { intros x. unfold toggled. destruct (isFlagged x); [done|].
    by destruct (isQuestion x). }
  unfold toggleFlags. cbn [foldl fst snd].
  rewrite (toggleFlag_updCell b r c p cell) by done. cbn [fst].
  rewrite (toggleFlag_updCell (updCell toggled p b) r c p (toggled cell));
    [|by rewrite getCell_updCell|by rewrite lookup_updCell_eq, Hc
     |by rewrite Hrev].
  cbn [fst].
  rewrite (toggleFlag_updCell (updCell toggled p (updCell toggled p b))
             r c p (toggled (toggled cell)));
    [|by rewrite !getCell_updCell
     |by rewrite !lookup_updCell_eq, Hc|by rewrite !Hrev].
  cbn [fst]. rewrite !updCell_compose. apply updCell_id.
  intros x Hx. rewrite Hc in Hx. injection Hx as <-.
  destruct cell as [? ? ? ? ? f q ? ? ? ?]. simpl in *.
  unfold toggled. simpl.
  destruct f, q; simpl; try reflexivity. exfalso. by apply Hone.
Qed.

Lemma toggleFlag_three_times_restores_board_witness :
  toggleFlags (Board.create 2 2 0 None) [(0, 1); (0, 1); (0, 1)]
  = Board.create 2 2 0 None.
Proof.
  apply (toggleFlag_three_times_restores_board (Board.create 2 2 0 None) 0 1
           1%nat (Board.newCell 2 0 1)).
  - reflexivity.
  - reflexivity.
  - reflexivity.
  - exists unmarked. split; [split; reflexivity|].
    intros [] H; simpl in H; [reflexivity|discriminate H|discriminate H].
Defined.

Lemma length_filter_alter (P : Cell → Prop) `{∀ c, Decision (P c)}
    (f : Cell → Cell) (l : list Cell) (i : nat) (x : Cell) :
  l !! i = Some x →
  (length (filter P (alter f i l)) + (if decide (P x) then 1 else 0)
   = length (filter P l) + (if decide (P (f x)) then 1 else 0))%nat.
Proof.
  revert i. induction l as [|y l IH]; intros i Hi; [done|].
  destruct i as [|i]; simpl in Hi.
  - injection Hi as ->. simpl. rewrite !filter_cons.
    destruct (decide (P x)), (decide (P (f x))); simpl; lia.
  - specialize (IH i Hi). simpl.
    change (list_alter f i l) with (alter f i l).
    rewrite !filter_cons. destruct (decide (P y)); simpl; lia.
Qed.

(** X6: On an unrevealed cell, [toggleFlag] moves the flag count by one up
    when the cell was unmarked, by one down when it was flagged, and not at
    all when it carried a question mark. *)
Theorem toggleFlag_moves_flag_count b r c p (cell : Cell) :
  Board.getCell b r c = Some p → cells b !! p = Some cell →
  isRevealed cell = false →
  Board.getFlagCount (Board.toggleFlag b r c).1
  = Board.getFlagCount b
    + (if isFlagged cell then -1 else if isQuestion cell then 0 else 1).
Proof.
  intros Hg Hc Hr. rewrite (toggleFlag_updCell b r c p cell) by done.
  unfold Board.getFlagCount. simpl.
  pose proof (length_filter_alter (λ c, isFlagged c = true) toggled
                (cells b) p cell Hc) as H.
  assert (isFlagged (toggled cell)
          = if isFlagged cell then false
            else if isQuestion cell then false else true) as Ht.
  { unfold toggled. destruct (isFlagged cell) eqn:Ef; [done|].
    destruct (isQuestion cell); simpl; [done|]. done. }
  destruct (decide (isFlagged cell = true)) as [E|E],
           (decide (isFlagged (toggled cell) = true)) as [E'|E'];
    rewrite Ht in E';
    destruct (isFlagged cell), (isQuestion cell); simpl in *;
    try congruence; lia.
Qed.

Lemma toggleFlag_moves_flag_count_witness :
  Board.getFlagCount (Board.toggleFlag (Board.create 2 2 0 None) 0 1).1
  = Board.getFlagCount (Board.create 2 2 0 None) + 1.
Proof.
  apply (toggleFlag_moves_flag_count (Board.create 2 2 0 None) 0 1 1%nat
           (Board.newCell 2 0 1)); reflexivity.
Defined.

End FlagsAgain.

(** ** Win detection *)

Section WinCheck.
Implicit Types (b : BoardState) (p q : nat).

Lemma checkWin_iff b :
  Board.checkWin b = true
  ↔ ∀ p cell, cells b !! p = Some cell → isMine cell = false →
              isRevealed cell = true.
Proof.
  unfold Board.checkWin. rewrite forallb_forall. split.
  - intros H p cell Hp Hm.
    assert (In cell (cells b)) as Hin.
    { apply list_elem_of_In, list_elem_of_lookup. eauto. }
    specialize (H cell Hin). rewrite Hm in H. simpl in H.
    by destruct (isRevealed cell).
  - intros H cell Hin.
    apply list_elem_of_In, list_elem_of_lookup in Hin as [p Hp].
    destruct (isMine cell) eqn:Em; [done|]. simpl.
    by rewrite (H p cell Hp Em).
Qed.

Lemma checkWin_updCell_static (f : Cell → Cell) p b :
  (∀ c, isMine (f c) = isMine c ∧ isRevealed (f c) = isRevealed c) →
  Board.checkWin (updCell f p b) = Board.checkWin b.
Proof.
  intros Hf. unfold Board.checkWin. simpl cells.
  generalize (cells b). intros l. revert p.
  induction l as [|x l IH]; intros p; [done|].
  destruct p as [|p]; simpl.
  - destruct (Hf x) as [-> ->]. done.
  - change (list_alter f p l) with (alter f p l). by rewrite IH.
Qed.

Lemma checkWin_revealAll new b :
  Board.checkWin b = true → Board.checkWin (revealAll new b) = true.
Proof.
  rewrite !checkWin_iff. intros H p cell Hp Hm.
  destruct (revealAll_cell _ _ _ _ Hp) as (c0 & Hc0 & Heq & Hrv).
  apply Hrv. left. apply (H p c0 Hc0). rewrite Heq in Hm. done.
Qed.

(** X7: Win detection looks at mines and reveals only: the board is won
    exactly when every cell that is no mine is revealed; flagging never
    changes the verdict; a reveal or a chord never takes a win away. *)
Theorem checkWin_depends_on_reveals_only b :
  (Board.checkWin b = true
   ↔ ∀ p cell, cells b !! p = Some cell → isMine cell = false →
               isRevealed cell = true)
  ∧ (∀ r c, Board.checkWin (Board.toggleFlag b r c).1 = Board.checkWin b)
  ∧ (∀ r c, ∃ b' res, Board.revealCell b r c = Some (b', res)
                      ∧ (Board.checkWin b = true → Board.checkWin b' = true))
  ∧ (∀ r c, ∃ b' res, Board.chordReveal b r c = Some (b', res)
                      ∧ (Board.checkWin b = true → Board.checkWin b' = true)).
Proof.
  split; [apply checkWin_iff|]. split; [|split].
  - intros r c. unfold Board.toggleFlag.
    destruct (Board.getCell b r c) as [p|]; [|done].
    destruct (cells b !! p) as [cell|]; [|done].
    destruct (isRevealed cell); [done|]. simpl.
    destruct (isFlagged cell); [|destruct (isQuestion cell)];
      rewrite ?checkWin_updCell_static; done.
  - intros r c. destruct (revealCell_total b r c) as [[b' res] Hrun].
    exists b', res. split; [done|].
    apply revealCell_frame in Hrun as (-> & _). apply checkWin_revealAll.
  - intros r c. destruct (chordReveal_total b r c) as [[b' res] Hrun].
    exists b', res. split; [done|].
    destruct (chordReveal_uncovers _ _ _ _ _ Hrun) as (new & -> & _).
    apply checkWin_revealAll.
Qed.

End WinCheck.

(** ** The end-of-game display *)

Section EndDisplay.
Implicit Types (b : BoardState) (p q : nat).

Lemma revealAllMines_fold b (l : list nat) :
  NoDup l →
  let st := foldl (λ st p,
                     let '(b, mines) := st in
                     match cells b !! p with
                     | Some cell =>
                       if isMine cell && negb (isFlagged cell) then
                         (updCell (setRevealed true) p b, mines ++ [p])
                       else if negb (isMine cell) && isFlagged cell then
                         (updCell (setWrongFlag true) p b, mines ++ [p])
                       else (b, mines)
                     | None => (b, mines)
                     end)
                  (b, []) l in
  (∀ p, cells st.1 !! p
        = if decide (p ∈ l) then shownAtEnd <$> cells b !! p
          else cells b !! p)
  ∧ st.2 = filter (λ p, cellHas endMarked b p = true) l.
Proof.
  induction l as [|x l IH] using rev_ind; intros Hnd.
  { cbv zeta. cbn [foldl fst snd]. split; [|done]. intros p.
    rewrite decide_False; [done|]. apply not_elem_of_nil. }
  apply NoDup_app in Hnd as (Hnd & Hx & _).
  assert (x ∉ l) as Hxl.
  { intros Hin. apply (Hx x Hin). by apply list_elem_of_singleton. }
  specialize (IH Hnd). cbv zeta in IH |- *. rewrite foldl_app. simpl foldl.
  destruct (foldl _ (b, []) l) as [b1 mines]. simpl in IH.
  destruct IH as [Hl Hm].
  pose proof (Hl x) as Hlx. rewrite decide_False in Hlx by done.
  rewrite Hlx, filter_app, filter_cons, filter_nil.
  assert (∀ p, p ≠ x →
            (if decide (p ∈ l ++ [x]) then shownAtEnd <$> cells b !! p
             else cells b !! p)
            = cells b1 !! p) as Hother.
  { intros p Hne. rewrite Hl. destruct (decide (p ∈ l)) as [Hin|Hout].
    - rewrite decide_True by (apply elem_of_app; by left). done.
    - rewrite decide_False; [done|].
      intros [?|?%list_elem_of_singleton]%elem_of_app; congruence. }
  assert (x ∈ l ++ [x]) as Hxin
    by (apply elem_of_app; right; by apply list_elem_of_singleton).
  destruct (cells b !! x) as [cell|] eqn:Ecell.
  - assert (cellHas endMarked b x
            = (isMine cell && negb (isFlagged cell))
              || (negb (isMine cell) && isFlagged cell)) as ->
      by (unfold cellHas; by rewrite Ecell).
    assert (shownAtEnd cell
            = if isMine cell && negb (isFlagged cell)
              then setRevealed true cell
              else if negb (isMine cell) && isFlagged cell
                   then setWrongFlag true cell else cell) as Hshown by done.
    destruct (isMine cell && negb (isFlagged cell)) eqn:E1;
      [|destruct (negb (isMine cell) && isFlagged cell) eqn:E2];
      cbn [fst snd orb].
    + rewrite decide_True by done. split; [|by rewrite Hm].
      intros p. destruct (decide (p = x)) as [->|Hne].
      * rewrite lookup_updCell_eq, Hlx.
        rewrite (decide_True (P := x ∈ l ++ [x])) by done.
        rewrite Ecell. cbn. by rewrite Hshown.
      * rewrite lookup_updCell_ne by done. by rewrite Hother.
    + rewrite decide_True by done. split; [|by rewrite Hm].
      intros p. destruct (decide (p = x)) as [->|Hne].
      * rewrite lookup_updCell_eq, Hlx.
        rewrite (decide_True (P := x ∈ l ++ [x])) by done.
        rewrite Ecell. cbn. by rewrite Hshown.
      * rewrite lookup_updCell_ne by done. by rewrite Hother.
    + rewrite decide_False by done. split; [|by rewrite Hm, app_nil_r].
      intros p. destruct (decide (p = x)) as [->|Hne].
      * rewrite Hlx. rewrite (decide_True (P := x ∈ l ++ [x])) by done.
        rewrite Ecell. cbn. by rewrite Hshown.
      * by rewrite Hother.
  - assert (cellHas endMarked b x = false) as ->
      by (unfold cellHas; by rewrite Ecell).
    rewrite decide_False by done. cbn [fst snd].
    split; [|by rewrite Hm, app_nil_r].
    intros p. destruct (decide (p = x)) as [->|Hne].
    + rewrite Hlx. rewrite (decide_True (P := x ∈ l ++ [x])) by done.
      by rewrite Ecell.
    + by rewrite Hother.
Qed.

(** X8: [revealAllMines] reveals every unflagged mine, marks every flagged
    cell that is no mine as a wrong flag, and leaves every other cell and
    every other field alone; it returns, in board order, exactly the cells
    it changed.  Afterwards every mine is revealed or flagged. *)
Theorem revealAllMines_shows_mines_and_wrong_flags b :
  (∀ p, cells (Board.revealAllMines b).1 !! p = shownAtEnd <$> cells b !! p)
  ∧ (Board.revealAllMines b).2
    = filter (λ p, cellHas endMarked b p = true) (seq 0 (length (cells b)))
  ∧ (∀ p cell, cells (Board.revealAllMines b).1 !! p = Some cell →
               isMine cell = true →
               isRevealed cell = true ∨ isFlagged cell = true).
Proof.
  destruct (revealAllMines_fold b (seq 0 (length (cells b))) (NoDup_seq _ _))
    as [Hl Hm].
  fold (Board.revealAllMines b) in Hl, Hm.
  assert (∀ p, cells (Board.revealAllMines b).1 !! p
               = shownAtEnd <$> cells b !! p) as Hcells.
  { intros p. rewrite Hl. case_decide as Hin; [done|].
    rewrite lookup_ge_None_2; [done|].
    destruct (decide (length (cells b) ≤ p)%nat); [done|].
    exfalso. apply Hin. apply elem_of_seq. lia. }
  split; [done|]. split; [done|].
  intros p cell Hp Hmine. rewrite Hcells in Hp.
  destruct (cells b !! p) as [c0|]; [|done]. injection Hp as <-.
  unfold shownAtEnd in *.
  destruct (isMine c0) eqn:Em, (isFlagged c0) eqn:Ef; simpl in *;
    rewrite ?Em, ?Ef in *; simpl in *; try done; tauto.
Qed.

End EndDisplay.

(** ** Random picks *)

Section RandomPicks.
Implicit Types (b : BoardState) (p q : nat) (g : Rng).

Lemma pickAmong_spec (P : Cell → bool) b g :
  (∀ p, (pickAmong P b g).1 = Some p →
        ∃ cell, cells b !! p = Some cell ∧ P cell = true)
  ∧ ((∀ p cell, cells b !! p = Some cell → P cell = false) →
     pickAmong P b g = (None, g))
  ∧ (unitDraw g → (∃ p cell, cells b !! p = Some cell ∧ P cell = true) →
     is_Some (pickAmong P b g).1).
Proof.
  unfold pickAmong.
  set (candidates := filter _ _).
  assert (∀ p, p ∈ candidates
               ↔ ∃ cell, cells b !! p = Some cell ∧ P cell = true) as Hmem.
  { intros p. unfold candidates. rewrite list_elem_of_filter, elem_of_seq.
    unfold cellHas. split.
    - intros [HP _]. destruct (cells b !! p) as [cell|]; [|done]. eauto.
    - intros (cell & Hc & HP). rewrite Hc. split; [done|].
      apply lookup_lt_Some in Hc. lia. }
  split; [|split].
  - intros p. destruct (decide (length candidates = 0%nat)); [done|].
    destruct (randomBelow _ g) as [k g']. simpl. intros Hk.
    apply Hmem, list_elem_of_lookup. eauto.
  - intros Hnone. rewrite decide_True; [done|].
    destruct (decide (length candidates = 0%nat)) as [E|E]; [done|]. exfalso.
    assert (is_Some (candidates !! 0%nat)) as [p Hp]
      by (apply lookup_lt_is_Some; lia).
    assert (p ∈ candidates) as Hin by (apply list_elem_of_lookup; eauto).
    apply Hmem in Hin as (cell & Hc & HP).
    by rewrite (Hnone p cell Hc) in HP.
  - intros [H0 H1] (p & cell & Hc & HP).
    assert (p ∈ candidates) as Hp by (apply Hmem; eauto).
    destruct (decide (length candidates = 0%nat)) as [E|E].
    { apply list_elem_of_lookup in Hp as [i Hi].
      apply lookup_lt_Some in Hi. lia. }
    pose proof (randomBelow_lt (length candidates) g H0 H1) as Hlt.
    destruct (randomBelow _ g) as [k g']. simpl in *.
    apply lookup_lt_is_Some. apply Hlt. lia.
Qed.

(** X9: [getRandomSafeCell] only ever returns a cell that is no mine, not
    revealed and not flagged; it returns nothing, and takes no draw, when
    there is no such cell; and with a draw in the unit interval it does
    return one whenever there is one. *)
Theorem getRandomSafeCell_picks_a_hidden_safe_cell b g :
  (∀ p, (Board.getRandomSafeCell b g).1 = Some p →
        ∃ cell, cells b !! p = Some cell ∧ isMine cell = false
                ∧ isRevealed cell = false ∧ isFlagged cell = false)
  ∧ ((∀ p cell, cells b !! p = Some cell → safeToPick cell = false) →
     Board.getRandomSafeCell b g = (None, g))
  ∧ (unitDraw g →
     (∃ p cell, cells b !! p = Some cell ∧ safeToPick cell = true) →
     is_Some (Board.getRandomSafeCell b g).1).
Proof.
  change (Board.getRandomSafeCell b g) with (pickAmong safeToPick b g).
  destruct (pickAmong_spec safeToPick b g) as (H1 & H2 & H3).
  split; [|done].
  intros p Hp. destruct (H1 p Hp) as (cell & Hc & HP). exists cell.
  unfold safeToPick in HP.
  apply andb_true_iff in HP as [HP Hf]. apply andb_true_iff in HP as [Hm Hr].
  by rewrite negb_true_iff in Hm, Hr, Hf.
Qed.

Lemma getRandomSafeCell_picks_a_hidden_safe_cell_witness :
  is_Some (Board.getRandomSafeCell (Board.create 2 2 0 None)
                                   (mkRng (λ _, (1 # 2)%Q) 0)).1.
Proof.
  apply (getRandomSafeCell_picks_a_hidden_safe_cell (Board.create 2 2 0 None)
           (mkRng (λ _, (1 # 2)%Q) 0)).
  - split; by vm_compute.
  - exists 0%nat, (Board.newCell 2 0 0). split; reflexivity.
Defined.

(** X10: [getRandomUnflaggedMine] only ever returns a mine that is neither
    flagged nor revealed; it returns nothing, and takes no draw, when there
    is none; and with a draw in the unit interval it does return one
    whenever there is one. *)
Theorem getRandomUnflaggedMine_picks_a_hidden_mine b g :
  (∀ p, (Board.getRandomUnflaggedMine b g).1 = Some p →
        ∃ cell, cells b !! p = Some cell ∧ isMine cell = true
                ∧ isFlagged cell = false ∧ isRevealed cell = false)
  ∧ ((∀ p cell, cells b !! p = Some cell → hiddenMine cell = false) →
     Board.getRandomUnflaggedMine b g = (None, g))
  ∧ (unitDraw g →
     (∃ p cell, cells b !! p = Some cell ∧ hiddenMine cell = true) →
     is_Some (Board.getRandomUnflaggedMine b g).1).
Proof.
  change (Board.getRandomUnflaggedMine b g) with (pickAmong hiddenMine b g).
  destruct (pickAmong_spec hiddenMine b g) as (H1 & H2 & H3).
  split; [|done].
  intros p Hp. destruct (H1 p Hp) as (cell & Hc & HP). exists cell.
  unfold hiddenMine in HP.
  apply andb_true_iff in HP as [HP Hr]. apply andb_true_iff in HP as [Hm Hf].
  by rewrite negb_true_iff in Hr, Hf.
Qed.

Lemma getRandomUnflaggedMine_picks_a_hidden_mine_witness :
  is_Some (Board.getRandomUnflaggedMine (board (mineOnRightSession false))
                                        (mkRng (λ _, (1 # 2)%Q) 0)).1.
Proof.
  apply (getRandomUnflaggedMine_picks_a_hidden_mine
           (board (mineOnRightSession false)) (mkRng (λ _, (1 # 2)%Q) 0)).
  - split; by vm_compute.
  - exists 2%nat, (mkCell 0 2 2 true false false false 0 None false false).
    split; reflexivity.
Defined.

End RandomPicks.

(** ** The shuffle *)

Section Shuffle.
Implicit Types (b : BoardState) (p q : nat) (g : Rng).

Lemma swap_Permutation i j (array : list nat) : Board.swap i j array ≡ₚ array.
Proof.
  unfold Board.swap.
  destruct (array !! i) as [x|] eqn:Ei; [|done].
  destruct (array !! j) as [y|] eqn:Ej; [|done].
  by apply Permutation_insert_swap.
Qed.

Lemma shuffleFrom_spec i (array : list nat) g :
  (Board.shuffleFrom i array g).1 ≡ₚ array
  ∧ (Board.shuffleFrom i array g).2 = drawn i g.
Proof.
  revert array g. induction i as [|i IH]; intros array g.
  { split; [done|]. destruct g as [d k]. unfold drawn. simpl. f_equal. lia. }
  change (Board.shuffleFrom (S i) array g)
    with (let '(j, g') := randomBelow (S i + 1) g in
          Board.shuffleFrom i (Board.swap (S i) j array) g').
  assert ((randomBelow (S i + 1) g).2 = drawn 1 g) as Hg.
  { unfold randomBelow, random, drawn. simpl. f_equal. lia. }
  destruct (randomBelow (S i + 1) g) as [j g']. simpl in Hg. subst g'.
  destruct (IH (Board.swap (S i) j array) (drawn 1 g)) as [HP Hd].
  split.
  - by rewrite HP, swap_Permutation.
  - rewrite Hd. unfold drawn. simpl. f_equal. lia.
Qed.

(** X11: [shuffleArray] rearranges: the shuffled array holds the same
    elements, each as often as before, and the shuffle takes one draw per
    element but the first. *)
Theorem shuffleArray_permutes (array : list nat) g :
  (Board.shuffleArray array g).1 ≡ₚ array
  ∧ (Board.shuffleArray array g).2 = drawn (length array - 1) g.
Proof. apply shuffleFrom_spec. Qed.

End Shuffle.

(** ** How many mines are laid *)

Section MineCount.
Implicit Types (b : BoardState) (p q : nat) (g : Rng).

Lemma elem_of_safeZoneOf b r c x :
  x ∈ Board.safeZoneOf b r c
  ↔ x = r * cols b + c
    ∨ ∃ q cq, q ∈ Board.getAdjacentCells b r c
              ∧ cells b !! q = Some cq ∧ index cq = x.
Proof.
  unfold Board.safeZoneOf.
  set (step := λ (zone : gset Z) p, match cells b !! p with
                                    | Some cell => zone ∪ {[ index cell ]}
                                    | None => zone
                                    end).
  assert (∀ l (zone : gset Z),
            x ∈ foldl step zone l
            ↔ x ∈ zone ∨ ∃ q cq, q ∈ l ∧ cells b !! q = Some cq
                                  ∧ index cq = x) as H.
  { induction l as [|a l IH]; intros zone.
    { simpl. split; [by left|].
      intros [?|(q & cq & Hq & _)]; [done|]. by apply elem_of_nil in Hq. }
    cbn [foldl]. rewrite IH. unfold step.
    destruct (cells b !! a) as [ca|] eqn:Ea.
    - rewrite elem_of_union, elem_of_singleton. split.
      + intros [[?| ->]|(q & cq & Hq & Hc & Hi)].
        * by left.
        * right. exists a, ca. split; [by left|done].
        * right. exists q, cq. split; [by right|done].
      + intros [?|(q & cq & Hq & Hc & Hi)]; [by left; left|].
        apply elem_of_cons in Hq as [-> |Hq].
        * left. right. congruence.
        * right. eauto.
    - split.
      + intros [?|(q & cq & Hq & Hc & Hi)]; [by left|].
        right. exists q, cq. split; [by right|done].
      + intros [?|(q & cq & Hq & Hc & Hi)]; [by left|].
        apply elem_of_cons in Hq as [-> |Hq]; [congruence|]. right; eauto. }
  rewrite H, elem_of_singleton. done.
Qed.

Lemma click_not_adjacent b r c :
  wfBoard b → 0 ≤ r < rows b → 0 ≤ c < cols b →
  Z.to_nat (r * cols b + c) ∉ Board.getAdjacentCells b r c.
Proof.
  intros Hwf Hr Hc Hin.
  apply (elem_of_getAdjacentCells_wf b r c _ Hwf) in Hin as (cq & Hcq & Hn).
  destruct Hwf as [_ Hwf]. destruct (Hwf _ _ Hcq) as (Hrq & Hcq' & Hp & _).
  rewrite Z2Nat.id in Hp by nia.
  assert (row cq = r) as Er by nia. assert (col cq = c) as Ec by nia.
  unfold isNeighbourOf in Hn. rewrite Er, Ec in Hn. lia.
Qed.

Lemma safeZone_positions b r c :
  wfBoard b → 0 ≤ r < rows b → 0 ≤ c < cols b →
  filter (λ i, Z.of_nat i ∈ Board.safeZoneOf b r c) (seq 0 (length (cells b)))
  ≡ₚ Z.to_nat (r * cols b + c) :: Board.getAdjacentCells b r c.
Proof.
  intros Hwf Hr Hc. apply NoDup_Permutation.
  - apply NoDup_filter, NoDup_seq.
  - apply NoDup_cons. split; [by apply click_not_adjacent|].
    by apply NoDup_getAdjacentCells.
  - intros i. rewrite list_elem_of_filter, elem_of_seq, elem_of_safeZoneOf,
      elem_of_cons.
    split.
    + intros [[Hi|(q & cq & Hq & Hcq & Hi)] _].
      * left. lia.
      * right. destruct Hwf as [_ Hwf].
        destruct (Hwf _ _ Hcq) as (_ & _ & _ & Hidx).
        assert (i = q) as -> by lia. done.
    + intros [-> |Hq].
      * pose proof (wf_getCell_Some b r c Hwf Hr Hc) as Hg.
        apply getCell_inv in Hg as (_ & _ & _ & [cq Hcq]).
        apply lookup_lt_Some in Hcq. split; [|lia]. left.
        rewrite Z2Nat.id by nia. done.
      * pose proof Hq as Hq'.
        apply (elem_of_getAdjacentCells_wf b r c _ Hwf) in Hq'
          as (cq & Hcq & _).
        split; [|apply lookup_lt_Some in Hcq; lia].
        right. exists i, cq. split; [done|]. split; [done|].
        destruct Hwf as [_ Hwf]. by destruct (Hwf _ _ Hcq) as (_ & _ & _ & ?).
Qed.

Lemma length_filter_complement {A} (P Q : A → Prop)
    `{∀ x, Decision (P x)} `{∀ x, Decision (Q x)} (l : list A) :
  (∀ x, x ∈ l → Q x ↔ ¬ P x) →
  (length (filter P l) + length (filter Q l) = length l)%nat.
Proof.
  induction l as [|x l IH]; intros HPQ; [done|].
  rewrite !filter_cons.
  assert (Q x ↔ ¬ P x) as Hx by (apply HPQ; by left).
  assert (length (filter P l) + length (filter Q l) = length l)%nat as IH'.
  { apply IH. intros y Hy. apply HPQ. by right. }
  destruct (decide (P x)), (decide (Q x)); simpl; try lia; tauto.
Qed.

(** The cells left for the mines: all but the clicked cell and its
    neighbours. *)
Lemma length_validPositionsOf b r c :
  wfBoard b → 0 ≤ r < rows b → 0 ≤ c < cols b →
  Z.of_nat (length (Board.validPositionsOf b (Board.safeZoneOf b r c)))
  = Z.of_nat (length (cells b)) - 1
    - Z.of_nat (length (Board.getAdjacentCells b r c)).
Proof.
  intros Hwf Hr Hc.
  pose proof (safeZone_positions b r c Hwf Hr Hc) as HP.
  apply Permutation_length in HP. simpl in HP.
  pose proof (length_filter_complement
                (λ i, Z.of_nat i ∈ Board.safeZoneOf b r c)
                (λ i, Z.of_nat i ∉ Board.safeZoneOf b r c)
                (seq 0 (length (cells b)))) as Hsum.
  rewrite length_seq in Hsum. unfold Board.validPositionsOf.
  specialize (Hsum ltac:(done)). lia.
Qed.

Lemma NoDup_minePositionsOf b r c g :
  NoDup (minePositionsOf b r c g)
  ∧ ∀ q, q ∈ minePositionsOf b r c g →
         (q < length (cells b))%nat ∧ Z.of_nat q ∉ Board.safeZoneOf b r c.
Proof.
  unfold minePositionsOf.
  destruct (shuffleFrom_spec
              (length (Board.validPositionsOf b (Board.safeZoneOf b r c)) - 1)
              (Board.validPositionsOf b (Board.safeZoneOf b r c)) g) as [HP _].
  fold (Board.shuffleArray
          (Board.validPositionsOf b (Board.safeZoneOf b r c)) g) in HP.
  set (sh := (Board.shuffleArray _ g).1) in *.
  assert (NoDup sh) as Hnd.
  { rewrite HP. apply NoDup_filter, NoDup_seq. }
  split.
  - unfold Board.slice0. apply (sublist_NoDup _ sh); [done|apply sublist_take].
  - intros q Hq%elem_of_slice0. rewrite HP in Hq.
    apply list_elem_of_filter in Hq as [Hz Hs]. apply elem_of_seq in Hs.
    split; [lia|done].
Qed.

Lemma length_minePositionsOf b r c g :
  let room :=
    Z.of_nat (length (Board.validPositionsOf b (Board.safeZoneOf b r c))) in
  Z.of_nat (length (minePositionsOf b r c g))
  = if mineCount b <? 0 then Z.max (room + mineCount b) 0
    else Z.min (mineCount b) room.
Proof.
  intros room. unfold minePositionsOf.
  destruct (shuffleFrom_spec
              (length (Board.validPositionsOf b (Board.safeZoneOf b r c)) - 1)
              (Board.validPositionsOf b (Board.safeZoneOf b r c)) g) as [HP _].
  fold (Board.shuffleArray
          (Board.validPositionsOf b (Board.safeZoneOf b r c)) g) in HP.
  set (sh := (Board.shuffleArray _ g).1) in *.
  assert (Z.of_nat (length sh) = room) as Hlen
    by (unfold room; by rewrite HP).
  unfold Board.slice0. rewrite length_take, Hlen.
  destruct (mineCount b <? 0) eqn:Em.
  - apply Z.ltb_lt in Em. rewrite Z.min_l by lia.
    rewrite (proj2 (Z.ltb_lt _ _)) by lia. lia.
  - apply Z.ltb_ge in Em.
    rewrite (proj2 (Z.ltb_ge _ _)) by lia. lia.
Qed.

Lemma placeMines_unfold b r c g :
  minesPlaced b = false →
  ∃ b3, (Board.placeMines b r c g).1 = setMinesPlaced true b3
        ∧ powerupsOnly
            (Board.computeAdjacent (Board.setMines b (minePositionsOf b r c g)))
            b3.
Proof.
  intros Hnot. unfold Board.placeMines, minePositionsOf. rewrite Hnot.
  destruct (Board.shuffleArray _ g) as [shuffled g1] eqn:Esh. cbn [fst].
  set (b2 := Board.computeAdjacent _).
  destruct (powerupConfig b2) as [cfg|].
  - destruct (enabled cfg).
    + pose proof (placePowerups_frame cfg b2 g1) as Hp.
      destruct (Board.placePowerups cfg b2 g1) as [b3 g2].
      exists b3. done.
    + exists b2. split; [done|]. apply powerupsOnly_refl.
  - exists b2. split; [done|]. apply powerupsOnly_refl.
Qed.

(** Where the mines lie after [placeMines]. *)
Lemma placeMines_isMine b r c g :
  minesPlaced b = false →
  let b' := (Board.placeMines b r c g).1 in
  length (cells b') = length (cells b)
  ∧ ∀ p c', cells b' !! p = Some c' →
      ∃ c0, cells b !! p = Some c0
        ∧ isMine c'
          = (if decide (p ∈ minePositionsOf b r c g) then true else isMine c0)
        ∧ isRevealed c' = isRevealed c0 ∧ isFlagged c' = isFlagged c0.
Proof.
  intros Hnot b'.
  destruct (placeMines_unfold b r c g Hnot) as (b3 & Hb' & _ & _ & Hl3 & Hc3).
  fold b' in Hb'. set (mp := minePositionsOf b r c g) in *.
  destruct (computeAdjacent_spec (Board.setMines b mp)) as (_ & _ & _ & Hc2).
  destruct (setMines_shape mp b) as (_ & _ & Hl1 & _).
  assert (length (cells (Board.computeAdjacent (Board.setMines b mp)))
          = length (cells b)) as Hl2.
  { rewrite <- Hl1.
    assert (cells (Board.computeAdjacent (Board.setMines b mp))
            = adjust (Board.setMines b mp) <$> cells (Board.setMines b mp))
      as ->.
    { apply list_eq. intros i. by rewrite list_lookup_fmap. }
    apply length_fmap. }
  rewrite Hb'. simpl. split; [congruence|].
  intros p c' Hc'.
  destruct (Hc3 p c' Hc') as (c2 & Hc2' & Heq).
  rewrite Hc2, lookup_setMines in Hc2'.
  destruct (cells b !! p) as [c0|] eqn:Ec0; [|by destruct (decide (p ∈ mp))].
  exists c0. split; [done|]. rewrite Heq. simpl.
  destruct (decide (p ∈ mp)); simpl in Hc2'; injection Hc2' as <-;
    unfold adjust; simpl; [done|].
  by destruct (isMine c0) eqn:Em; simpl; rewrite ?Em.
Qed.

Lemma mineTotal_placeMines b r c g :
  minesPlaced b = false → mineFree b →
  mineTotal (Board.placeMines b r c g).1
  = Z.of_nat (length (minePositionsOf b r c g)).
Proof.
  intros Hnot Hfree. unfold mineTotal. f_equal.
  destruct (placeMines_isMine b r c g Hnot) as [Hlen Hcells].
  destruct (NoDup_minePositionsOf b r c g) as [Hnd Hin].
  rewrite length_filter_positions. apply Permutation_length.
  apply NoDup_Permutation; [apply NoDup_filter, NoDup_seq|done|].
  intros i. rewrite list_elem_of_filter, elem_of_seq. unfold posHas. split.
  - intros [Hm _].
    destruct (cells (Board.placeMines b r c g).1 !! i) as [c'|] eqn:Ec';
      [|done].
    destruct (Hcells i c' Ec') as (c0 & Hc0 & Hi & _).
    apply bool_decide_eq_true in Hm. rewrite Hm in Hi.
    destruct (decide (i ∈ minePositionsOf b r c g)); [done|].
    by rewrite (Hfree i c0 Hc0) in Hi.
  - intros Hi. destruct (Hin i Hi) as [Hlt _]. split; [|lia].
    assert (is_Some (cells (Board.placeMines b r c g).1 !! i)) as [c' Hc']
      by (apply lookup_lt_is_Some; lia).
    rewrite Hc'. destruct (Hcells i c' Hc') as (c0 & Hc0 & Hm & _).
    rewrite decide_True in Hm by done. by apply bool_decide_eq_true.
Qed.

Lemma create_mineFree nrows ncols mines cfg :
  mineFree (Board.create nrows ncols mines cfg).
Proof. intros q cq Hq. apply create_lookup in Hq. by rewrite Hq. Qed.

Lemma length_getAdjacentCells_interior b r c :
  wfBoard b → 1 ≤ r < rows b - 1 → 1 ≤ c < cols b - 1 →
  length (Board.getAdjacentCells b r c) = 8%nat.
Proof.
  intros Hwf Hr Hc. unfold Board.getAdjacentCells, Board.directions.
  cbn [omap list_omap fst snd].
  rewrite !(wf_getCell_Some b) by (assumption || lia). done.
Qed.

(** X12: the first click on a fresh board lays as many mines as asked for,
    or as many as fit outside the clicked cell and its neighbours when
    that is fewer; a negative mine count [-k] leaves [k] of the cells that
    fit free and mines all the others.  For a click off the border nine
    cells are kept free. *)
Theorem placeMines_lays_the_mines_that_fit nrows ncols mines cfg r c g :
  0 ≤ r < nrows → 0 ≤ c < ncols →
  let b := Board.create nrows ncols mines cfg in
  let room :=
    nrows * ncols - 1 - Z.of_nat (length (Board.getAdjacentCells b r c)) in
  mineTotal (Board.placeMines b r c g).1
  = (if mines <? 0 then Z.max (room + mines) 0 else Z.min mines room)
  ∧ (1 ≤ r < nrows - 1 → 1 ≤ c < ncols - 1 → room = nrows * ncols - 9).
Proof.
  intros Hr Hc b room.
  pose proof (create_wf nrows ncols mines cfg) as Hwf. fold b in Hwf.
  split.
  - rewrite mineTotal_placeMines by (done || apply create_mineFree).
    pose proof (length_minePositionsOf b r c g) as Hlen. cbv zeta in Hlen.
    rewrite Hlen, (length_validPositionsOf b r c Hwf Hr Hc).
    destruct Hwf as [Hsize _]. rewrite Hsize.
    change (rows b) with nrows. change (cols b) with ncols.
    change (mineCount b) with mines.
    rewrite Nat2Z.inj_mul, !Z2Nat.id by lia. done.
  - intros Hr' Hc'. unfold room.
    rewrite (length_getAdjacentCells_interior b r c Hwf Hr' Hc'). lia.
Qed.

Lemma placeMines_lays_the_mines_that_fit_witness :
  mineTotal (Board.placeMines (Board.create 9 9 10 None) 4 4
                              (mkRng (λ _, 0%Q) 0)).1
  = Z.min 10 (9 * 9 - 1
              - Z.of_nat (length (Board.getAdjacentCells
                                    (Board.create 9 9 10 None) 4 4)))
  ∧ (1 ≤ 4 < 9 - 1 → 1 ≤ 4 < 9 - 1 →
     9 * 9 - 1 - Z.of_nat (length (Board.getAdjacentCells
                                     (Board.create 9 9 10 None) 4 4))
     = 9 * 9 - 9).
Proof.
  apply (placeMines_lays_the_mines_that_fit 9 9 10 None 4 4
           (mkRng (λ _, 0%Q) 0)); lia.
Defined.

End MineCount.

(** ** Power-ups on the board and the clicked cell *)

Section PowerupPlacement.
Implicit Types (b : BoardState) (p q : nat) (g : Rng).

Lemma create_no_powerups nrows ncols mines cfg :
  ∀ q cq, cells (Board.create nrows ncols mines cfg) !! q = Some cq →
          powerup cq = None.
Proof. intros q cq Hq. apply create_lookup in Hq. by rewrite Hq. Qed.

Lemma placePowerups_where cfg b g :
  ∀ p c', cells (Board.placePowerups cfg b g).1 !! p = Some c' →
    ∃ c0, cells b !! p = Some c0
      ∧ (powerup c' = powerup c0
         ∨ numbered c0 = true ∧ ∃ k, powerup c' = types cfg !! k).
Proof.
  unfold Board.placePowerups.
  set (safeCells := filter _ _).
  apply (foldl_inv (λ st : BoardState * Rng,
           ∀ p c', cells st.1 !! p = Some c' →
             ∃ c0, cells b !! p = Some c0
               ∧ (powerup c' = powerup c0
                  ∨ numbered c0 = true ∧ ∃ k, powerup c' = types cfg !! k))).
  - intros p c' Hc'. exists c'. split; [done|]. by left.
  - intros [b1 g1] cell Hcell IH.
    destruct (random g1) as [u g2].
    destruct (Qlt_le_dec u _); [|done].
    destruct (randomBelow _ g2) as [k g3]. cbn [fst] in *.
    intros p c'. rewrite lookup_updCell.
    case_decide as Hp; [|apply IH]. subst p.
    destruct (cells b1 !! cell) as [c1|] eqn:E1; [|done]. intros [= <-].
    destruct (IH cell c1 E1) as (c0 & Hc0 & _).
    exists c0. split; [done|]. right.
    apply list_elem_of_filter in Hcell as [Hnum _].
    unfold cellHas in Hnum. rewrite Hc0 in Hnum.
    split; [done|]. by exists k.
Qed.

Lemma lookup_setMinesPlaced v b p :
  cells (setMinesPlaced v b) !! p = cells b !! p.
Proof. done. Qed.

(** Where [placeMines] puts power-ups, read against the board with the
    mines set and the counts computed. *)
Lemma placeMines_powerups b r c g :
  minesPlaced b = false →
  (∀ q cq, cells b !! q = Some cq → powerup cq = None) →
  ∀ p cell kind,
    cells (Board.placeMines b r c g).1 !! p = Some cell →
    powerup cell = Some kind →
    numbered cell = true
    ∧ ∃ cfg, powerupConfig b = Some cfg ∧ enabled cfg = true
             ∧ kind ∈ types cfg.
Proof.
  intros Hnot Hnone p cell kind.
  unfold Board.placeMines. rewrite Hnot.
  destruct (Board.shuffleArray _ g) as [shuffled g1].
  set (mp := Board.slice0 _ shuffled).
  set (b2 := Board.computeAdjacent _).
  destruct (computeAdjacent_spec (Board.setMines b mp))
    as (_ & _ & Hcfg & Hc2). fold b2 in Hcfg, Hc2.
  destruct (setMines_shape mp b) as (_ & _ & _ & Hcfg1).
  assert (∀ q c2, cells b2 !! q = Some c2 → powerup c2 = None) as Hnone2.
  { intros q c2. rewrite Hc2, lookup_setMines.
    destruct (cells b !! q) as [c0|] eqn:E0;
      [|by destruct (decide (q ∈ mp))].
    pose proof (Hnone q c0 E0) as Hp0.
    destruct (decide (q ∈ mp)); simpl; intros [= <-]; unfold adjust;
      simpl; by destruct (isMine c0). }
  destruct (powerupConfig b2) as [cfg|] eqn:Ecfg.
  - destruct (enabled cfg) eqn:Een.
    + pose proof (placePowerups_where cfg b2 g1) as Hw.
      pose proof (placePowerups_frame cfg b2 g1) as (_ & _ & _ & Hf).
      destruct (Board.placePowerups cfg b2 g1) as [b3 g2].
      cbn [fst] in *. rewrite lookup_setMinesPlaced.
      intros Hcell Hkind.
      destruct (Hw p cell Hcell) as (c2 & Hc2' & Hor).
      destruct (Hf p cell Hcell) as (c2' & Hc2'' & Heq).
      rewrite Hc2' in Hc2''. injection Hc2'' as <-.
      destruct Hor as [Hsame|[Hnum (k & Hk)]].
      { rewrite Hsame, (Hnone2 p c2 Hc2') in Hkind. done. }
      split.
      * rewrite Heq. unfold numbered in *. by destruct c2.
      * exists cfg. split; [congruence|]. split; [done|].
        rewrite Hkind in Hk. apply list_elem_of_lookup. eauto.
    + cbn [fst]. rewrite lookup_setMinesPlaced. intros Hcell Hkind.
      by rewrite (Hnone2 p cell Hcell) in Hkind.
  - cbn [fst]. rewrite lookup_setMinesPlaced. intros Hcell Hkind.
    by rewrite (Hnone2 p cell Hcell) in Hkind.
Qed.

(** X13: after the first click a power-up lies only on a cell that is no
    mine and counts at least one mine around it, only when the
    configuration enables power-ups, and its kind is one of the configured
    ones. *)
Theorem placeMines_puts_powerups_on_numbered_cells
    nrows ncols mines cfg r c g p (cell : Cell) kind :
  cells (Board.placeMines (Board.create nrows ncols mines cfg) r c g).1 !! p
  = Some cell →
  powerup cell = Some kind →
  isMine cell = false ∧ adjacentMines cell > 0
  ∧ ∃ cfg', cfg = Some cfg' ∧ enabled cfg' = true ∧ kind ∈ types cfg'.
Proof.
  intros Hcell Hkind.
  destruct (placeMines_powerups (Board.create nrows ncols mines cfg) r c g)
    with (p := p) (cell := cell) (kind := kind) as [Hnum Hcfg]; try done.
  { apply create_no_powerups. }
  unfold numbered in Hnum. apply andb_true_iff in Hnum as [Hm Ha].
  apply negb_true_iff in Hm. apply Z.gtb_gt in Ha.
  split; [done|]. split; [lia|done].
Qed.

Lemma placeMines_puts_powerups_on_numbered_cells_witness :
  isMine (mkCell 0 2 2 false false false false 1 (Some "shield") false false)
  = false
  ∧ 1 > 0
  ∧ ∃ cfg', Some (mkPowerupConfig true (1 # 2) ["shield"]) = Some cfg'
            ∧ enabled cfg' = true ∧ "shield" ∈ types cfg'.
Proof.
  apply (placeMines_puts_powerups_on_numbered_cells 1 4 1
           (Some (mkPowerupConfig true (1 # 2) ["shield"])) 0 1
           (mkRng (λ _, 0%Q) 0) 2%nat
           (mkCell 0 2 2 false false false false 1 (Some "shield") false false)
           "shield"); reflexivity.
Defined.

(** The clicked cell after [placeMines]. *)
Lemma placeMines_click b r c g p (cell : Cell) :
  wfBoard b → minesPlaced b = false → mineFree b →
  (∀ q cq, cells b !! q = Some cq → powerup cq = None) →
  0 ≤ r < rows b → 0 ≤ c < cols b →
  cells (Board.placeMines b r c g).1 !! p = Some cell →
  row cell = r → col cell = c →
  isMine cell = false ∧ adjacentMines cell = 0 ∧ powerup cell = None.
Proof.
  intros Hwf Hnot Hfree Hnone Hr Hc Hcell Er Ec.
  assert (∀ q cq, cells (Board.placeMines b r c g).1 !! q = Some cq →
            Z.abs (row cq - r) ≤ 1 → Z.abs (col cq - c) ≤ 1 →
            isMine cq = false) as Hsafe
    by (by apply placeMines_safe).
  assert (isMine cell = false) as Hm by (apply (Hsafe p); [done|lia..]).
  assert (adjacentMines cell = 0) as Hz.
  { rewrite (placeMines_counts b r c g Hwf Hnot p cell Hcell Hm).
    unfold bruteForceMineCount.
    set (l := filter _ _). destruct l as [|x l'] eqn:El; [done|]. exfalso.
    assert (x ∈ l) as Hx by (rewrite El; by left).
    apply list_elem_of_filter in Hx as [[Hxm Hxn] Hx].
    apply list_elem_of_lookup in Hx as [q Hq].
    unfold isNeighbourOf in Hxn. rewrite Er, Ec in Hxn.
    rewrite (Hsafe q x Hq) in Hxm by lia. done. }
  split; [done|]. split; [done|].
  destruct (powerup cell) as [kind|] eqn:Ek; [|done].
  destruct (placeMines_powerups b r c g Hnot Hnone p cell kind Hcell Ek)
    as [Hnum _].
  unfold numbered in Hnum. rewrite Hz in Hnum.
  by rewrite andb_false_r in Hnum.
Qed.

(** The clicked cell after the first click. *)
Lemma placeMines_click_at b r c g :
  wfBoard b → minesPlaced b = false → mineFree b →
  (∀ q cq, cells b !! q = Some cq → powerup cq = None) →
  0 ≤ r < rows b → 0 ≤ c < cols b →
  let b' := (Board.placeMines b r c g).1 in
  ∃ cell,
    Board.getCell b' r c = Some (Z.to_nat (r * cols b + c))
    ∧ cells b' !! Z.to_nat (r * cols b + c) = Some cell
    ∧ row cell = r ∧ col cell = c
    ∧ isMine cell = false ∧ adjacentMines cell = 0 ∧ powerup cell = None.
Proof.
  intros Hwf Hnot Hfree Hnone Hr Hc b'.
  pose proof (placeMines_wf b r c g Hwf) as Hwf'. fold b' in Hwf'.
  destruct (placeMines_lookup b r c g Hnot) as (_ & _ & Erows & Ecols & _).
  fold b' in Erows, Ecols.
  assert (Board.getCell b' r c = Some (Z.to_nat (r * cols b + c))) as Hg.
  { rewrite <- Ecols. apply wf_getCell_Some; [done|lia..]. }
  pose proof Hg as Hg'.
  apply getCell_inv in Hg' as (_ & _ & _ & [cell Hcell]).
  exists cell. split; [done|]. split; [done|].
  destruct Hwf' as [_ Hwf'].
  destruct (Hwf' _ _ Hcell) as (Hrow & Hcol & Hpos & _).
  rewrite Ecols, Erows in *. rewrite Z2Nat.id in Hpos by nia.
  assert (row cell = r) as Er by nia. assert (col cell = c) as Ec by nia.
  split; [done|]. split; [done|].
  by apply (placeMines_click b r c g (Z.to_nat (r * cols b + c)) cell).
Qed.

(** X14: the cell of the first click is no mine, counts no mine around it
    and carries no power-up. *)
Theorem placeMines_leaves_click_blank nrows ncols mines cfg r c g :
  0 ≤ r < nrows → 0 ≤ c < ncols →
  ∃ cell,
    cells (Board.placeMines (Board.create nrows ncols mines cfg) r c g).1
      !! Z.to_nat (r * ncols + c) = Some cell
    ∧ row cell = r ∧ col cell = c
    ∧ isMine cell = false ∧ adjacentMines cell = 0 ∧ powerup cell = None.
Proof.
  intros Hr Hc.
  destruct (placeMines_click_at (Board.create nrows ncols mines cfg) r c g)
    as (cell & _ & Hcell); try done.
  - apply create_wf.
  - apply create_mineFree.
  - apply create_no_powerups.
  - by exists cell.
Qed.

Lemma placeMines_leaves_click_blank_witness :
  ∃ cell,
    cells (Board.placeMines (Board.create 3 3 2 None) 0 0
             (mkRng (λ _, 0%Q) 0)).1 !! Z.to_nat (0 * 3 + 0) = Some cell
    ∧ row cell = 0 ∧ col cell = 0
    ∧ isMine cell = false ∧ adjacentMines cell = 0 ∧ powerup cell = None.
Proof.
  apply (placeMines_leaves_click_blank 3 3 2 None 0 0 (mkRng (λ _, 0%Q) 0));
    lia.
Defined.

(** X15: mines are placed once: whatever the board, a call of [placeMines]
    leaves [minesPlaced] set, and a further call changes nothing and takes
    no draw. *)
Theorem placeMines_places_once b r c g r' c' g' :
  minesPlaced (Board.placeMines b r c g).1 = true
  ∧ Board.placeMines (Board.placeMines b r c g).1 r' c' g'
    = ((Board.placeMines b r c g).1, g').
Proof.
  assert (minesPlaced (Board.placeMines b r c g).1 = true) as H.
  { destruct (minesPlaced b) eqn:E.
    - unfold Board.placeMines. by rewrite E.
    - by destruct (placeMines_lookup b r c g E) as (_ & _ & _ & _ & _ & ? & _). }
  split; [done|]. unfold Board.placeMines at 1. by rewrite H.
Qed.

End PowerupPlacement.


(** * Further properties of the power-ups and the game *)

(** ** The inventory *)

Section Inventory.
Implicit Types (s : PowerUpsState) (inv : list (string * Q)) (b : BoardState).

Lemma findIndex_Some type inv i :
  PowerUps.findIndex type inv = Some i →
  ∃ entry, inv !! i = Some entry ∧ entry.1 = type.
Proof.
  revert i. induction inv as [|e inv IH]; intros i; simpl; [done|].
  destruct (String.eqb e.1 type) eqn:E.
  - intros [= <-]. exists e. split; [done|]. by apply String.eqb_eq.
  - destruct (PowerUps.findIndex type inv) as [j|]; [|done].
    simpl. intros [= <-]. by apply IH.
Qed.

Lemma findIndex_has type s :
  is_Some (PowerUps.findIndex type (inventory s)) ↔ PowerUps.has type s = true.
Proof.
  unfold PowerUps.has. induction (inventory s) as [|e inv IH]; simpl.
  { split; [by intros [? ?]|done]. }
  destruct (String.eqb e.1 type); simpl; [by split|].
  rewrite <- IH. destruct (PowerUps.findIndex type inv); simpl.
  - by split.
  - split; by intros [? ?].
Qed.

Lemma count_delete t inv i (entry : string * Q) :
  inv !! i = Some entry →
  Z.of_nat (length (filter (λ e, String.eqb e.1 t = true) (delete i inv)))
  = Z.of_nat (length (filter (λ e, String.eqb e.1 t = true) inv))
    - (if String.eqb entry.1 t then 1 else 0).
Proof.
  intros Hi. pose proof (delete_Permutation inv i entry Hi) as HP.
  rewrite (Permutation_length
             (filter_Permutation (λ e, String.eqb e.1 t = true) _ _ HP)).
  rewrite filter_cons. destruct (String.eqb entry.1 t) eqn:E.
  - rewrite decide_True by done. simpl. lia.
  - rewrite decide_False by done. lia.
Qed.

Lemma safeRevealLoop_total n b g acc :
  is_Some (PowerUps.safeRevealLoop n b g acc).
Proof.
  revert b g acc. induction n as [|n IH]; intros b g acc; [by eexists|].
  simpl.
  destruct (pickAmong_spec safeToPick b g) as [Hpick _].
  change (pickAmong safeToPick b g) with (Board.getRandomSafeCell b g)
    in Hpick.
  destruct (Board.getRandomSafeCell b g) as [[p|] g']; [|apply IH].
  destruct (Hpick p eq_refl) as (cell & Hcell & _). rewrite Hcell.
  destruct (revealCell_total b (row cell) (col cell)) as [[b' res] Hrun].
  rewrite Hrun. apply IH.
Qed.

Lemma use_spec type cfg now s f b g :
  (PowerUps.has type s = false →
     PowerUps.use type cfg now s f b g = Some (mkUse false s f b g [] None))
  ∧ (PowerUps.has type s = true →
     ∃ out, PowerUps.use type cfg now s f b g = Some out
       ∧ used out = true
       ∧ shieldActive (useInventory out) = shieldActive s
       ∧ ∀ t, PowerUps.count t (useInventory out)
              = PowerUps.count t s - (if String.eqb type t then 1 else 0)).
Proof.
  unfold PowerUps.use. split; intros Hhas.
  - destruct (PowerUps.findIndex type (inventory s)) as [i|] eqn:Ei; [|done].
    assert (PowerUps.has type s = true) as Hyes
      by (apply findIndex_has; rewrite Ei; by eexists).
    congruence.
  - apply findIndex_has in Hhas as [i Hi]. rewrite Hi.
    destruct (findIndex_Some _ _ _ Hi) as (entry & Hentry & Htype).
    assert (∀ t, PowerUps.count t
                   (mkPowerUps (delete i (inventory s)) (shieldActive s))
                 = PowerUps.count t s
                   - (if String.eqb type t then 1 else 0)) as Hcount.
    { intros t. unfold PowerUps.count. simpl.
      rewrite (count_delete t _ _ entry Hentry). by rewrite Htype. }
    destruct (String.eqb type "detector"); [by eexists|].
    destruct (String.eqb type "freeze").
    { destruct (PowerUps.activateFreeze _ now) as [f' d]. by eexists. }
    destruct (String.eqb type "safeReveal"); [|by eexists].
    unfold PowerUps.activateSafeReveal.
    destruct (safeRevealLoop_total
                (Z.to_nat (if safeRevealCellCount cfg =? 0 then 3
                           else safeRevealCellCount cfg)) b g [])
      as [[[b' g'] shown] Hrun].
    rewrite Hrun. by eexists.
Qed.

(** X16: [use] takes exactly one power-up of the kind asked for out of the
    inventory and reports [true]; when there is none of that kind it
    reports [false] and changes nothing.  The shield flag is never
    touched. *)
Theorem use_takes_one_of_the_kind type cfg now s f b g :
  (PowerUps.has type s = false →
     PowerUps.use type cfg now s f b g = Some (mkUse false s f b g [] None))
  ∧ (PowerUps.has type s = true →
     ∃ out, PowerUps.use type cfg now s f b g = Some out
       ∧ used out = true
       ∧ shieldActive (useInventory out) = shieldActive s
       ∧ ∀ t, PowerUps.count t (useInventory out)
              = PowerUps.count t s - (if String.eqb type t then 1 else 0)).
Proof. apply use_spec. Qed.

Lemma count_collect type now s g t :
  String.eqb type "shield" = false →
  PowerUps.count t (PowerUps.collect type now s g).1
  = PowerUps.count t s + (if String.eqb type t then 1 else 0).
Proof.
  intros Hns. unfold PowerUps.collect, PowerUps.count. rewrite Hns.
  destruct (random g) as [u g']. simpl.
  rewrite filter_app, length_app, filter_cons, filter_nil. simpl.
  destruct (String.eqb type t) eqn:E.
  - rewrite decide_True by done. simpl. lia.
  - rewrite decide_False by done. simpl. lia.
Qed.

(** X17: a collected power-up can be used once: after [collect] of a kind
    other than the shield, [use] of that kind succeeds and leaves as many
    power-ups of every kind as before the two calls.  A collected shield is
    activated and never enters the inventory. *)
Theorem collect_then_use_restores_counts type cfg now now' s f b g g' :
  (type ≠ "shield" →
     ∃ out, PowerUps.use type cfg now' (PowerUps.collect type now s g).1 f b g'
            = Some out
       ∧ used out = true
       ∧ ∀ t, PowerUps.count t (useInventory out) = PowerUps.count t s)
  ∧ (type = "shield" →
     PowerUps.collect type now s g = (mkPowerUps (inventory s) true, g)).
Proof.
  split.
  - intros Hns. apply String.eqb_neq in Hns.
    destruct (use_spec type cfg now' (PowerUps.collect type now s g).1 f b g')
      as [_ Huse].
    destruct Huse as (out & Hout & Hused & _ & Hcount).
    { unfold PowerUps.has, PowerUps.collect. rewrite Hns.
      destruct (random g) as [u g1]. simpl.
      rewrite existsb_app. simpl. rewrite String.eqb_refl.
      by rewrite orb_true_r. }
    exists out. split; [done|]. split; [done|].
    intros t. rewrite Hcount, count_collect by done. lia.
  - intros ->. done.
Qed.

Lemma collect_then_use_restores_counts_witness :
  ∃ out, PowerUps.use "freeze" (mkEffectConfig 0 0) 5
           (PowerUps.collect "freeze" 0 PowerUps.reset (mkRng (λ _, 0%Q) 0)).1
           PowerUps.resetFreeze (Board.create 1 1 0 None) (mkRng (λ _, 0%Q) 1)
         = Some out
    ∧ used out = true
    ∧ ∀ t, PowerUps.count t (useInventory out) = PowerUps.count t PowerUps.reset.
Proof.
  apply (collect_then_use_restores_counts "freeze" (mkEffectConfig 0 0) 0 5
           PowerUps.reset PowerUps.resetFreeze (Board.create 1 1 0 None)
           (mkRng (λ _, 0%Q) 0) (mkRng (λ _, 0%Q) 1)).
  discriminate.
Defined.

End Inventory.

(** ** The safe reveal *)

Section SafeReveal.
Implicit Types (b : BoardState) (p q : nat) (g : Rng).

(** A reveal aimed at a cell that is no mine uncovers no mine. *)
Lemma revealCell_safe_target b r c p (cell : Cell) b' res :
  Board.getCell b r c = Some p → cells b !! p = Some cell →
  isMine cell = false →
  Board.revealCell b r c = Some (b', res) →
  hitMine res = false ∧ ∀ q, q ∈ revealed res → cellHas isMine b q = false.
Proof.
  intros Hg Hc Hm Hrun.
  pose proof (revealCell_frame _ _ _ _ _ Hrun) as (_ & _ & _ & Hshape).
  unfold Board.revealCell in Hrun. rewrite Hg, Hc in Hrun.
  destruct (isRevealed cell || isFlagged cell).
  { injection Hrun as <- <-. split; [done|].
    intros q Hq. by apply elem_of_nil in Hq. }
  assert (∀ q, q ∈ revealed res → cellHas isMine b q = false) as Hsafe.
  { intros q Hq. destruct (cellHas isMine b q) eqn:E; [|done].
    pose proof (revealLoop_mines_from_worklist _ _ _ _ _ _ Hrun q Hq E) as H.
    rewrite app_nil_r in H. apply list_elem_of_singleton in H. subst q.
    unfold cellHas in E. rewrite Hc in E. congruence. }
  split; [|done].
  destruct Hshape as [(_ & Hh & _)|[(pre & x & Hnew & _ & Hx & _)
                                    |(pre & x & cx & _ & _ & _ & _ & _ & Hh & _)]];
    [done| |done].
  rewrite Hsafe in Hx; [done|].
  rewrite Hnew. apply elem_of_app. right. by apply list_elem_of_singleton.
Qed.

Lemma safeRevealLoop_spec n b g acc :
  wfBoard b →
  ∃ b' g' shown,
    PowerUps.safeRevealLoop n b g acc = Some (b', g', acc ++ shown)
    ∧ b' = revealAll shown b
    ∧ ∀ q, q ∈ shown → cellHas isMine b q = false.
Proof.
  revert b g acc. induction n as [|n IH]; intros b g acc Hwf.
  { exists b, g, []. rewrite app_nil_r. split; [done|]. split; [done|].
    intros q Hq. by apply elem_of_nil in Hq. }
  simpl.
  destruct (pickAmong_spec safeToPick b g) as [Hpick _].
  change (pickAmong safeToPick b g) with (Board.getRandomSafeCell b g)
    in Hpick.
  destruct (Board.getRandomSafeCell b g) as [[p|] g']; [|by apply IH].
  destruct (Hpick p eq_refl) as (cell & Hcell & Hsafe). rewrite Hcell.
  destruct (revealCell_total b (row cell) (col cell)) as [[b1 res] Hrun].
  rewrite Hrun.
  assert (isMine cell = false) as Hm.
  { unfold safeToPick in Hsafe. by destruct (isMine cell). }
  pose proof (wf_getCell_self b p cell Hwf Hcell) as Hg.
  destruct (revealCell_safe_target _ _ _ _ _ _ _ Hg Hcell Hm Hrun)
    as [_ Hnomine].
  pose proof (revealCell_frame _ _ _ _ _ Hrun) as (Hb1 & _).
  destruct (IH b1 g' (acc ++ revealed res)) as (b' & g'' & shown & Hloop & Hb' & Hs).
  { rewrite Hb1. by apply revealAll_wf. }
  exists b', g'', (revealed res ++ shown).
  rewrite app_assoc. split; [done|]. split.
  - by rewrite revealAll_app, <- Hb1.
  - intros q [Hq|Hq]%elem_of_app; [by apply Hnomine|].
    specialize (Hs q Hq). rewrite Hb1 in Hs.
    by rewrite cellHas_revealAll_static in Hs.
Qed.

(** X18: the safe-reveal power-up never uncovers a mine.  On a well-formed
    board it returns; the board it leaves is the one it found with the
    cells it reports marked revealed, and none of these cells is a mine. *)
Theorem activateSafeReveal_uncovers_no_mine cellCount b g :
  wfBoard b →
  ∃ b' g' shown,
    PowerUps.activateSafeReveal cellCount b g = Some (b', g', shown)
    ∧ b' = revealAll shown b
    ∧ ∀ q, q ∈ shown → cellHas isMine b q = false.
Proof.
  intros Hwf. unfold PowerUps.activateSafeReveal.
  destruct (safeRevealLoop_spec
              (Z.to_nat (if cellCount =? 0 then 3 else cellCount)) b g [] Hwf)
    as (b' & g' & shown & Hrun & Hb' & Hs).
  exists b', g', shown. done.
Qed.

Lemma activateSafeReveal_uncovers_no_mine_witness :
  ∃ b' g' shown,
    PowerUps.activateSafeReveal 0 (board (mineOnRightSession false))
                                (mkRng (λ _, 0%Q) 0) = Some (b', g', shown)
    ∧ b' = revealAll shown (board (mineOnRightSession false))
    ∧ ∀ q, q ∈ shown →
           cellHas isMine (board (mineOnRightSession false)) q = false.
Proof.
  apply (activateSafeReveal_uncovers_no_mine 0
           (board (mineOnRightSession false)) (mkRng (λ _, 0%Q) 0)).
  apply (placeMines_wf (Board.create 1 3 1 None) 0 0 (mkRng (λ _, 0%Q) 0)).
  apply create_wf.
Defined.

End SafeReveal.

(** ** The timer and the freeze *)

Section Timer.
Implicit Types (s : Session) (f : FreezeState) (c : Clock).

Lemma tick_cases maxTimer now s f c :
  (Game.tick maxTimer now s f c).2 = c
  ∨ (timerRunning s = true
     ∧ (freezeActive f = false ∨ freezeEndTime f ≤ now)
     ∧ timerFrozenUntil c ≤ now
     ∧ (Game.tick maxTimer now s f c).2
       = mkClock (Z.min (timer c + 1) (timerCap maxTimer))
                 (timerFrozenUntil c)).
Proof.
  unfold Game.tick, PowerUps.isTimerFrozen, timerCap.
  destruct (timerRunning s); [|by left]. cbn [negb].
  destruct (freezeActive f) eqn:Ea; cbn [andb].
  - destruct (now >=? freezeEndTime f) eqn:Ee; cbn [freezeActive orb];
      [|rewrite Ea; by left].
    destruct (now <? timerFrozenUntil c) eqn:Eu; [by left|]. right.
    split; [done|]. split; [right; lia|]. split; [lia|]. cbn [snd].
    f_equal. destruct (_ >? _) eqn:E; lia.
  - rewrite Ea. cbn [orb].
    destruct (now <? timerFrozenUntil c) eqn:Eu; [by left|]. right.
    split; [done|]. split; [by left|]. split; [lia|]. cbn [snd].
    f_equal. destruct (_ >? _) eqn:E; lia.
Qed.

(** X19: the timer counts up and stops at its cap.  Whatever the times of
    the ticks and the state of the freeze, a timer that starts between 0
    and the cap stays there and never runs backwards. *)
Theorem ticks_keep_timer_within_cap maxTimer s nows f c :
  0 ≤ maxTimer → 0 ≤ timer c ≤ timerCap maxTimer →
  timer c ≤ timer (ticks maxTimer s nows f c).2 ≤ timerCap maxTimer.
Proof.
  intros Hmax. unfold ticks. revert f c.
  induction nows as [|now nows IH]; intros f c Hc; [simpl; lia|].
  cbn [foldl fst snd].
  destruct (Game.tick maxTimer now s f c) as [f1 c1] eqn:Etick.
  assert (timer c ≤ timer c1 ≤ timerCap maxTimer) as Hc1.
  { pose proof (tick_cases maxTimer now s f c) as Hcases.
    rewrite Etick in Hcases. cbn [snd] in Hcases.
    destruct Hcases as [-> |(_ & _ & _ & ->)]; simpl; lia. }
  specialize (IH f1 c1 ltac:(lia)). simpl in IH. lia.
Qed.

Lemma ticks_keep_timer_within_cap_witness :
  0 ≤ timer (ticks 0 (mineOnRightSession false) [10; 20; 30]
                   PowerUps.resetFreeze (mkClock 0 0)).2 ≤ timerCap 0.
Proof.
  apply (ticks_keep_timer_within_cap 0 (mineOnRightSession false) [10; 20; 30]
           PowerUps.resetFreeze (mkClock 0 0)); [lia|].
  vm_compute. split; discriminate.
Defined.

(** X20: the freeze power-up holds the timer for its duration.  Used in a
    session in play that has one, it is taken from the inventory and the
    board is left alone; a tick before the duration has passed leaves the
    timer where it is, and a tick after it counts again. *)
Theorem usePowerup_freeze_holds_the_timer cfg s f c maxTimer t :
  gameState s = playing → PowerUps.has "freeze" (powerups s) = true →
  ∃ s' f' c',
    Game.usePowerup cfg "freeze" s f c = Some (s', f', c')
    ∧ board s' = board s ∧ gameState s' = playing
    ∧ timerRunning s' = timerRunning s
    ∧ PowerUps.count "freeze" (powerups s')
      = PowerUps.count "freeze" (powerups s) - 1
    ∧ timer c' = timer c
    ∧ (t < clock s + freezeSpan cfg →
       (Game.tick maxTimer t s' f' c').2 = c')
    ∧ (clock s + freezeSpan cfg ≤ t → timerRunning s = true →
       timer (Game.tick maxTimer t s' f' c').2
       = Z.min (timer c + 1) (timerCap maxTimer)).
Proof.
  intros Hplay Hhas. unfold Game.usePowerup. rewrite Hplay.
  destruct (use_spec "freeze" cfg (clock s) (powerups s) f (board s) (rng s))
    as [_ Huse].
  destruct (Huse Hhas) as (out & Hout & Hused & _ & Hcount).
  rewrite Hout.
  unfold PowerUps.use in Hout.
  destruct (PowerUps.findIndex "freeze" (inventory (powerups s))) as [i|];
    [|injection Hout as <-; discriminate].
  cbn in Hout. injection Hout as <-.
  specialize (Hcount "freeze"). cbn in Hcount. cbn.
  eexists _, _, _. split; [done|]. cbn. fold (freezeSpan cfg).
  split; [done|]. split; [done|]. split; [done|].
  split; [exact Hcount|]. split; [done|].
  unfold Game.tick, PowerUps.isTimerFrozen, timerCap. cbn.
  generalize (clock s + freezeSpan cfg). intros e.
  destruct (timerRunning s); cbn [negb]; (split; [intros Ht|intros Ht Hrun]);
    try done.
  - by rewrite (proj2 (Z.ltb_lt _ _) Ht), orb_true_r.
  - assert ((t >=? e) = true) as -> by lia.
    assert ((t <? e) = false) as -> by lia.
    cbn. destruct (_ >? _) eqn:E; lia.
Qed.

Lemma usePowerup_freeze_holds_the_timer_witness :
  ∃ s' f' c',
    Game.usePowerup (mkEffectConfig 0 0) "freeze" frozenSession
                    PowerUps.resetFreeze (mkClock 7 0) = Some (s', f', c')
    ∧ timer c' = 7
    ∧ (Game.tick 0 14999 s' f' c').2 = c'
    ∧ timer (Game.tick 0 15000 s' f' c').2 = 8.
Proof.
  destruct (usePowerup_freeze_holds_the_timer (mkEffectConfig 0 0)
              frozenSession PowerUps.resetFreeze (mkClock 7 0) 0 14999
              eq_refl eq_refl)
    as (s' & f' & c' & Hrun & _ & _ & _ & _ & Ht & Hbefore & _).
  destruct (usePowerup_freeze_holds_the_timer (mkEffectConfig 0 0)
              frozenSession PowerUps.resetFreeze (mkClock 7 0) 0 15000
              eq_refl eq_refl)
    as (s2 & f2 & c2 & Hrun2 & _ & _ & _ & _ & _ & _ & Hafter).
  rewrite Hrun in Hrun2. injection Hrun2 as <- <- <-.
  exists s', f', c'. split; [done|]. split; [done|].
  split; [apply Hbefore; vm_compute; reflexivity|].
  apply Hafter; [vm_compute; discriminate|reflexivity].
Defined.


End Timer.

(** ** The end of a game *)

Section EndOfGame.
Implicit Types (b : BoardState) (p q : nat) (s : Session).

Lemma foldl_each (t : Cell → bool) (u : Cell → Cell) b (l : list nat) :
  NoDup l →
  let b' := foldl (λ b p, match cells b !! p with
                          | Some cell => if t cell then updCell u p b else b
                          | None => b
                          end) b l in
  minesPlaced b' = minesPlaced b
  ∧ ∀ p, cells b' !! p
         = if decide (p ∈ l)
           then (λ c, if t c then u c else c) <$> cells b !! p
           else cells b !! p.
Proof.
  induction l as [|x l IH] using rev_ind; intros Hnd.
  { cbv zeta. cbn [foldl]. split; [done|]. intros p.
    rewrite decide_False; [done|]. apply not_elem_of_nil. }
  apply NoDup_app in Hnd as (Hnd & Hx & _).
  assert (x ∉ l) as Hxl.
  { intros Hin. apply (Hx x Hin). by apply list_elem_of_singleton. }
  specialize (IH Hnd). cbv zeta in IH |- *. rewrite foldl_app. simpl foldl.
  set (b1 := foldl _ b l) in *. destruct IH as [Hmp Hl].
  pose proof (Hl x) as Hlx. rewrite decide_False in Hlx by done.
  assert (x ∈ l ++ [x]) as Hxin
    by (apply elem_of_app; right; by apply list_elem_of_singleton).
  assert (∀ p, p ≠ x →
            (if decide (p ∈ l ++ [x])
             then (λ c, if t c then u c else c) <$> cells b !! p
             else cells b !! p)
            = cells b1 !! p) as Hother.
  { intros p Hne. rewrite Hl. destruct (decide (p ∈ l)) as [Hin|Hout].
    - rewrite decide_True by (apply elem_of_app; by left). done.
    - rewrite decide_False; [done|].
      intros [?|?%list_elem_of_singleton]%elem_of_app; congruence. }
  rewrite Hlx. destruct (cells b !! x) as [cell|] eqn:Ecell.
  - destruct (t cell) eqn:Et.
    + split; [done|]. intros p. destruct (decide (p = x)) as [-> |Hne].
      * rewrite lookup_updCell_eq, Hlx, decide_True, Ecell by done.
        simpl. by rewrite Et.
      * rewrite lookup_updCell_ne by done. by rewrite Hother.
    + split; [done|]. intros p. destruct (decide (p = x)) as [-> |Hne].
      * rewrite Hlx, decide_True, Ecell by done. simpl. by rewrite Et.
      * by rewrite Hother.
  - split; [done|]. intros p. destruct (decide (p = x)) as [-> |Hne].
    + rewrite Hlx, decide_True, Ecell by done. done.
    + by rewrite Hother.
Qed.

Lemma gameOver_won_board e s :
  minesPlaced (board (Game.gameOver true e s)) = minesPlaced (board s)
  ∧ ∀ p, cells (board (Game.gameOver true e s)) !! p
         = flaggedAtWin <$> cells (board s) !! p.
Proof.
  unfold Game.gameOver. cbn [board].
  destruct (foldl_each (λ c, isMine c && negb (isFlagged c)) (setFlagged true)
              (board s) (seq 0 (length (cells (board s)))) (NoDup_seq _ _))
    as [Hmp Hl].
  split; [exact Hmp|]. intros p. rewrite Hl. case_decide as Hin; [done|].
  rewrite lookup_ge_None_2; [done|].
  destruct (decide (length (cells (board s)) ≤ p)%nat); [done|].
  exfalso. apply Hin. apply elem_of_seq. lia.
Qed.

Lemma lookup_revealAllMines b p :
  cells (Board.revealAllMines b).1 !! p = shownAtEnd <$> cells b !! p.
Proof.
  destruct (revealAllMines_fold b (seq 0 (length (cells b))) (NoDup_seq _ _))
    as [Hl _].
  fold (Board.revealAllMines b) in Hl.
  rewrite Hl. case_decide as Hin; [done|].
  rewrite lookup_ge_None_2; [done|].
  destruct (decide (length (cells b) ≤ p)%nat); [done|].
  exfalso. apply Hin. apply elem_of_seq. lia.
Qed.

Lemma gameOver_won_cleared e s :
  Board.checkWin (board s) = true → cleared (board (Game.gameOver true e s)).
Proof.
  intros Hwin p cell. destruct (gameOver_won_board e s) as [_ Hl].
  rewrite Hl. destruct (cells (board s) !! p) as [c0|] eqn:E0; [|done].
  intros [= <-]. unfold flaggedAtWin.
  destruct (isMine c0) eqn:Em, (isFlagged c0) eqn:Ef; simpl;
    rewrite ?Em, ?Ef; try done.
  - apply (proj1 (checkWin_iff _) Hwin p c0 E0 Em).
  - apply (proj1 (checkWin_iff _) Hwin p c0 E0 Em).
Qed.

Lemma gameOver_lost_blown e (ce : Cell) s :
  cells (board s) !! e = Some ce → isMine ce = true →
  isRevealed ce = true → isFlagged ce = false →
  blown (board (Game.gameOver false (Some e) s)).
Proof.
  intros He Hm Hr Hf. unfold Game.gameOver. cbn [board]. split.
  - exists e, (setRevealed true (setExploded true ce)).
    rewrite lookup_revealAllMines, lookup_updCell_eq, He. simpl.
    unfold shownAtEnd. simpl. rewrite Hm, Hf. simpl. done.
  - intros p cell. rewrite lookup_revealAllMines.
    destruct (cells (updCell _ e (board s)) !! p) as [c0|]; [|done].
    intros [= <-]. unfold shownAtEnd.
    destruct (isMine c0) eqn:Em, (isFlagged c0) eqn:Ef; simpl;
      rewrite ?Em, ?Ef; simpl; try done; tauto.
Qed.

Lemma settles_outcome s1 b2 res s' :
  gameState s1 ≠ won → gameState s1 ≠ lost →
  uncovers (board s1) b2 res → settles s1 b2 res s' →
  (gameState s' = gameState s1 ∨ gameState s' = won ∨ gameState s' = lost)
  ∧ (gameState s' = won → cleared (board s') ∧ timerRunning s' = false)
  ∧ (gameState s' = lost →
     shieldActive (powerups s1) = false ∧ timerRunning s' = false
     ∧ blown (board s')).
Proof.
  intros Hnw Hnl (new & Hb2 & Hfresh & Hmine) [Hb|[Hc|Hd]].
  - destruct Hb as (_ & _ & e & _ & ->). cbn [gameState].
    split; [by left|]. split; intros; done.
  - destruct Hc as (Hhit & Hsh & ->).
    split; [by right; right|]. split; [done|]. intros _.
    split; [done|]. split; [done|].
    destruct (Hmine Hhit) as (e & -> & Hin & Hem).
    unfold cellHas in Hem.
    destruct (cells (board s1) !! e) as [ce|] eqn:Ece; [|done].
    apply (gameOver_lost_blown e (setRevealed true ce));
      unfold Game.withBoard; cbn [board]; try done.
    + rewrite Hb2, lookup_revealAll_in, Ece; done.
    + rewrite Forall_forall in Hfresh.
      destruct (Hfresh e Hin) as (ce' & Hce' & _ & Hf). by simplify_eq.
  - destruct Hd as (_ & s3 & Hb3 & Hg3 & Ht3 & ->).
    destruct (Board.checkWin b2) eqn:Ew.
    + split; [by right; left|]. split; [|done]. intros _.
      split; [|done]. apply gameOver_won_cleared. by rewrite Hb3.
    + rewrite Hg3. split; [by left|]. split; intros; done.
Qed.

End EndOfGame.

(** ** The handlers, case by case *)

Section Handlers.
Implicit Types (b : BoardState) (p q : nat) (s : Session).

Lemma settle_tail s1 b2 res (collected : bool) :
  uncovers (board s1) b2 res →
  ∃ s',
    (if hitMine res then
       match PowerUps.consumeShield (powerups (Game.withBoard b2 s1)) with
       | (true, pu) =>
         match explodedCell res with
         | None => None
         | Some e =>
           Some (mkSession
                   (updCell (setFlagged true) e
                      (updCell (setRevealed false) e b2))
                   (gameState (Game.withBoard b2 s1))
                   (timerRunning (Game.withBoard b2 s1)) pu
                   (rng (Game.withBoard b2 s1)) (clock (Game.withBoard b2 s1)))
         end
       | (false, _) =>
         Some (Game.gameOver false (explodedCell res) (Game.withBoard b2 s1))
       end
     else
       let s3 :=
         if collected && truthy (resPowerup res) then
           match resPowerup res with
           | Some kind =>
             let '(pu, g) :=
               PowerUps.collect kind (clock (Game.withBoard b2 s1))
                 (powerups (Game.withBoard b2 s1))
                 (rng (Game.withBoard b2 s1)) in
             mkSession (board (Game.withBoard b2 s1))
                       (gameState (Game.withBoard b2 s1))
                       (timerRunning (Game.withBoard b2 s1)) pu g
                       (clock (Game.withBoard b2 s1))
           | None => Game.withBoard b2 s1
           end
         else Game.withBoard b2 s1 in
       if Board.checkWin (board s3) then Some (Game.gameOver true None s3)
       else Some s3) = Some s'
    ∧ settles s1 b2 res s'.
Proof.
  intros Hunc. destruct (hitMine res) eqn:Hhit.
  - unfold PowerUps.consumeShield, Game.withBoard.
    cbn [powerups gameState timerRunning rng clock].
    destruct (shieldActive (powerups s1)) eqn:Esh; cbn [negb].
    + destruct Hunc as (new & _ & _ & Hm).
      destruct (Hm Hhit) as (e & He & _). rewrite He.
      eexists. split; [done|]. left. rewrite Hhit.
      split; [done|]. split; [done|]. by exists e.
    + eexists. split; [done|]. right. left. by rewrite Hhit.
  - cbv zeta. set (s3 := if collected && _ then _ else _).
    assert (board s3 = b2 ∧ gameState s3 = gameState s1
            ∧ timerRunning s3 = timerRunning s1) as (Hb3 & Hg3 & Ht3).
    { unfold s3. destruct (collected && _); [|done].
      destruct (resPowerup res) as [kind|]; [|done].
      by destruct (PowerUps.collect _ _ _ _). }
    rewrite Hb3. destruct (Board.checkWin b2) eqn:Ew.
    + eexists. split; [done|]. right. right. rewrite Hhit. split; [done|].
      exists s3. by rewrite Ew.
    + eexists. split; [done|]. right. right. rewrite Hhit. split; [done|].
      exists s3. by rewrite Ew.
Qed.

Lemma phase_cases (ph : Phase) :
  ph = won ∨ ph = lost ∨ ph ≠ won ∧ ph ≠ lost.
Proof. destruct ph; auto. Qed.

(** A reveal that is not ignored. *)
Lemma handleReveal_live s r c p (cell : Cell) :
  gameState s ≠ won → gameState s ≠ lost →
  Board.getCell (board s) r c = Some p → cells (board s) !! p = Some cell →
  isRevealed cell = false → isFlagged cell = false →
  ∃ s' b2 res,
    Game.handleReveal s r c = Some s'
    ∧ Board.revealCell (board (firstClick s r c)) r c = Some (b2, res)
    ∧ settles (firstClick s r c) b2 res s'.
Proof.
  intros Hnw Hnl Hg Hc Hr Hf. unfold Game.handleReveal.
  rewrite Hg, Hc, Hr, Hf. cbn [orb]. cbv zeta.
  fold (firstClick s r c).
  destruct (revealCell_total (board (firstClick s r c)) r c)
    as [[b2 res] Hrun].
  rewrite Hrun.
  destruct (settle_tail (firstClick s r c) b2 res true
              (revealCell_uncovers _ _ _ _ _ Hrun)) as (s' & Hs' & Hset).
  exists s', b2, res.
  destruct (gameState s); try done.
Qed.

(** Every call of [handleReveal]. *)
Lemma handleReveal_cases s r c :
  ∃ s', Game.handleReveal s r c = Some s'
    ∧ (s' = s
       ∨ gameState s ≠ won ∧ gameState s ≠ lost
         ∧ ∃ b2 res,
             Board.revealCell (board (firstClick s r c)) r c = Some (b2, res)
             ∧ settles (firstClick s r c) b2 res s').
Proof.
  destruct (phase_cases (gameState s)) as [Ew|[El|[Hnw Hnl]]].
  { exists s. split; [|by left]. unfold Game.handleReveal. by rewrite Ew. }
  { exists s. split; [|by left]. unfold Game.handleReveal. by rewrite El. }
  destruct (Board.getCell (board s) r c) as [p|] eqn:Hg; cycle 1.
  { exists s. split; [|by left]. unfold Game.handleReveal. rewrite Hg.
    by destruct (gameState s). }
  destruct (cells (board s) !! p) as [cell|] eqn:Hc; cycle 1.
  { exists s. split; [|by left]. unfold Game.handleReveal. rewrite Hg, Hc.
    by destruct (gameState s). }
  destruct (isRevealed cell || isFlagged cell) eqn:Esk.
  { exists s. split; [|by left]. unfold Game.handleReveal.
    rewrite Hg, Hc, Esk. by destruct (gameState s). }
  apply orb_false_iff in Esk as [Hr Hf].
  destruct (handleReveal_live s r c p cell Hnw Hnl Hg Hc Hr Hf)
    as (s' & b2 & res & H1 & H2 & H3).
  exists s'. split; [done|]. right. split; [done|]. split; [done|].
  by exists b2, res.
Qed.

(** Every call of [handleChord]. *)
Lemma handleChord_cases s r c :
  ∃ s', Game.handleChord s r c = Some s'
    ∧ (s' = s
       ∨ gameState s ≠ won ∧ gameState s ≠ lost
         ∧ minesPlaced (board s) = true
         ∧ ∃ b2 res,
             Board.chordReveal (board s) r c = Some (b2, res)
             ∧ settles s b2 res s').
Proof.
  destruct (phase_cases (gameState s)) as [Ew|[El|[Hnw Hnl]]].
  { exists s. split; [|by left]. unfold Game.handleChord. by rewrite Ew. }
  { exists s. split; [|by left]. unfold Game.handleChord. by rewrite El. }
  destruct (minesPlaced (board s)) eqn:Emp; cycle 1.
  { exists s. split; [|by left]. unfold Game.handleChord. rewrite Emp.
    by destruct (gameState s). }
  unfold Game.handleChord. rewrite Emp. cbn [negb].
  destruct (chordReveal_total (board s) r c) as [[b2 res] Hrun].
  rewrite Hrun. cbv zeta.
  destruct (settle_tail s b2 res (negb (length (revealed res) =? 0)%nat)
              (chordReveal_uncovers _ _ _ _ _ Hrun)) as (s' & Hs' & Hset).
  exists s'. split.
  - destruct (gameState s); done.
  - right. split; [done|]. split; [done|]. split; [done|]. by exists b2, res.
Qed.

End Handlers.

(** ** Outcomes of a click *)

Section Outcomes.
Implicit Types (b : BoardState) (p q : nat) (s : Session).

Lemma firstClick_facts s r c :
  powerups (firstClick s r c) = powerups s
  ∧ (gameState s ≠ won → gameState (firstClick s r c) ≠ won)
  ∧ (gameState s ≠ lost → gameState (firstClick s r c) ≠ lost).
Proof.
  unfold firstClick. destruct (negb (minesPlaced (board s))); [|done].
  by destruct (Board.placeMines _ _ _ _).
Qed.

(** Every outcome of a reveal or a chord that is not ignored. *)
Lemma click_outcome s r c s' :
  Game.handleReveal s r c = Some s' ∨ Game.handleChord s r c = Some s' →
  s' = s
  ∨ gameState s ≠ won ∧ gameState s ≠ lost
    ∧ (gameState s' = won → cleared (board s') ∧ timerRunning s' = false)
    ∧ (gameState s' = lost →
       shieldActive (powerups s) = false ∧ timerRunning s' = false
       ∧ blown (board s')).
Proof.
  intros [Hrun|Hrun].
  - destruct (handleReveal_cases s r c)
      as (s2 & Hs2 & [-> |(Hnw & Hnl & b2 & res & Hrev & Hset)]);
      rewrite Hrun in Hs2; injection Hs2 as <-; [by left|right].
    destruct (firstClick_facts s r c) as (Hpu & Hnw' & Hnl').
    destruct (settles_outcome (firstClick s r c) b2 res s' (Hnw' Hnw)
                (Hnl' Hnl) (revealCell_uncovers _ _ _ _ _ Hrev) Hset)
      as (_ & Hwon & Hlost).
    rewrite Hpu in Hlost. done.
  - destruct (handleChord_cases s r c)
      as (s2 & Hs2 & [-> |(Hnw & Hnl & _ & b2 & res & Hrev & Hset)]);
      rewrite Hrun in Hs2; injection Hs2 as <-; [by left|right].
    destruct (settles_outcome s b2 res s' Hnw Hnl
                (chordReveal_uncovers _ _ _ _ _ Hrev) Hset)
      as (_ & Hwon & Hlost).
    done.
Qed.

(** X21: a game is won only on a cleared board.  When a reveal or a chord
    turns a session into a won one, every cell without a mine is revealed,
    every mine is flagged and the timer is stopped. *)
Theorem win_leaves_board_cleared s r c s' :
  gameState s ≠ won →
  Game.handleReveal s r c = Some s' ∨ Game.handleChord s r c = Some s' →
  gameState s' = won →
  cleared (board s') ∧ timerRunning s' = false.
Proof.
  intros Hnw Hrun Hwon.
  destruct (click_outcome s r c s' Hrun) as [-> |(_ & _ & H & _)]; [done|].
  by apply H.
Qed.

Lemma win_leaves_board_cleared_witness :
  ∃ s', Game.handleReveal (mineOnRightSession false) 0 0 = Some s'
        ∧ cleared (board s') ∧ timerRunning s' = false.
Proof.
  assert (∃ s', Game.handleReveal (mineOnRightSession false) 0 0 = Some s'
                ∧ gameState s' = won) as (s' & Hrun & Hwon)
    by (eexists; split; vm_compute; reflexivity).
  exists s'. split; [exact Hrun|].
  apply (win_leaves_board_cleared (mineOnRightSession false) 0 0 s');
    [discriminate|by left|exact Hwon].
Defined.

(** X22: a game is lost only by a mine going off with no shield up.  When
    a reveal or a chord turns a session into a lost one, the shield was
    not active, a mine of the board is revealed and marked as exploded,
    every mine is revealed or flagged, and the timer is stopped. *)
Theorem loss_shows_the_mine_that_went_off s r c s' :
  gameState s ≠ lost →
  Game.handleReveal s r c = Some s' ∨ Game.handleChord s r c = Some s' →
  gameState s' = lost →
  shieldActive (powerups s) = false ∧ timerRunning s' = false
  ∧ blown (board s').
Proof.
  intros Hnl Hrun Hlost.
  destruct (click_outcome s r c s' Hrun) as [-> |(_ & _ & _ & H)]; [done|].
  by apply H.
Qed.

Lemma loss_shows_the_mine_that_went_off_witness :
  ∃ s', Game.handleReveal (mineOnRightSession false) 0 2 = Some s'
        ∧ shieldActive (powerups (mineOnRightSession false)) = false
        ∧ timerRunning s' = false ∧ blown (board s').
Proof.
  assert (∃ s', Game.handleReveal (mineOnRightSession false) 0 2 = Some s'
                ∧ gameState s' = lost) as (s' & Hrun & Hlost)
    by (eexists; split; vm_compute; reflexivity).
  exists s'. split; [exact Hrun|].
  apply (loss_shows_the_mine_that_went_off (mineOnRightSession false) 0 2 s');
    [discriminate|by left|exact Hlost].
Defined.

(** X23: the handlers always return.  Whatever the session and the
    coordinates, [handleReveal] and [handleChord] complete: the reveal
    loop ends, and a mine hit always names its exploded cell.  [usePowerup]
    completes as well, whatever the power-up. *)
Theorem handlers_always_return s r c cfg type f ck :
  is_Some (Game.handleReveal s r c) ∧ is_Some (Game.handleChord s r c)
  ∧ is_Some (Game.usePowerup cfg type s f ck).
Proof.
  split; [|split].
  - destruct (handleReveal_cases s r c) as (s' & -> & _). by eexists.
  - destruct (handleChord_cases s r c) as (s' & -> & _). by eexists.
  - unfold Game.usePowerup. destruct (gameState s); try by eexists.
    destruct (use_spec type cfg (clock s) (powerups s) f (board s) (rng s))
      as [Hno Hyes].
    destruct (PowerUps.has type (powerups s)).
    + destruct (Hyes eq_refl) as (out & -> & _). by eexists.
    + rewrite (Hno eq_refl). by eexists.
Qed.

(** X24: the first click never loses.  In a new game a reveal inside the
    grid returns a session that is in play or won, with the mines placed
    and the clicked cell revealed. *)
Theorem first_click_never_loses nrows ncols mines pu en g now r c :
  0 ≤ r < nrows → 0 ≤ c < ncols →
  ∃ s', Game.handleReveal (Game.newGame nrows ncols mines pu en g now).1.1 r c
        = Some s'
    ∧ (gameState s' = playing ∨ gameState s' = won)
    ∧ minesPlaced (board s') = true
    ∧ cellHas isRevealed (board s') (Z.to_nat (r * ncols + c)) = true.
Proof.
  intros Hr Hc. unfold Game.newGame. cbn [fst].
  set (cfg := if en then pu else None).
  set (b0 := Board.create nrows ncols mines cfg).
  set (s0 := mkSession b0 idle false PowerUps.reset g now).
  set (p := Z.to_nat (r * ncols + c)).
  pose proof (create_wf nrows ncols mines cfg) as Hwf0. fold b0 in Hwf0.
  pose proof (wf_getCell_Some b0 r c Hwf0 Hr Hc) as Hg0.
  change (cols b0) with ncols in Hg0. fold p in Hg0.
  pose proof Hg0 as Hg0'. apply getCell_inv in Hg0' as (_ & _ & _ & [c0 Hc0]).
  pose proof (create_lookup _ _ _ _ _ _ Hc0) as Ec0.
  assert (isRevealed c0 = false ∧ isFlagged c0 = false) as [Hr0 Hf0]
    by (by rewrite Ec0).
  destruct (handleReveal_live s0 r c p c0)
    as (s' & b2 & res & Hrun & Hrev & Hset); try done.
  exists s'. split; [done|].
  (* the board the reveal runs on *)
  assert (firstClick s0 r c
          = mkSession (Board.placeMines b0 r c g).1 playing true PowerUps.reset
                      (Board.placeMines b0 r c g).2 now) as Hfc.
  { unfold firstClick. change (minesPlaced (board s0)) with false.
    cbn [negb]. change (board s0) with b0. change (rng s0) with g.
    by destruct (Board.placeMines b0 r c g). }
  rewrite Hfc in Hrev, Hset. cbn [board] in Hrev.
  set (b1 := (Board.placeMines b0 r c g).1) in *.
  destruct (placeMines_click_at b0 r c g Hwf0 eq_refl
              (create_mineFree _ _ _ _) (create_no_powerups _ _ _ _) Hr Hc)
    as (c1 & Hg1 & Hc1 & _ & _ & Hm1 & _).
  change (cols b0) with ncols in Hg1, Hc1. fold p in Hg1, Hc1. fold b1 in Hg1, Hc1.
  destruct (placeMines_isMine b0 r c g eq_refl) as [_ Hcells].
  destruct (Hcells p c1 Hc1) as (c0' & Hc0' & _ & Hr1 & Hf1).
  rewrite Hc0 in Hc0'. injection Hc0' as <-.
  rewrite Ec0 in Hr1, Hf1. cbn in Hr1, Hf1.
  destruct (revealCell_safe_target _ _ _ _ _ _ _ Hg1 Hc1 Hm1 Hrev)
    as [Hhit _].
  destruct (revealCell_reveals_target b1 r c p b2 res Hg1) as [tl Htl];
    [by exists c1|done|].
  destruct (revealCell_frame _ _ _ _ _ Hrev) as (Hb2 & _).
  assert (minesPlaced b1 = true) as Hmp1.
  { by destruct (placeMines_lookup b0 r c g eq_refl)
      as (_ & _ & _ & _ & _ & ? & _). }
  assert (minesPlaced b2 = true) as Hmp2.
  { rewrite Hb2.
    destruct (revealAll_shape (revealed res) b1) as (_ & _ & _ & -> & _).
    done. }
  assert (cells b2 !! p = Some (setRevealed true c1)) as Hp2.
  { rewrite Hb2, lookup_revealAll_in, Hc1; [done|]. rewrite Htl. by left. }
  destruct Hset as [(Hh & _)|[(Hh & _)|(_ & s3 & Hb3 & Hg3 & _ & ->)]];
    [congruence..|].
  cbn [gameState] in Hg3.
  destruct (Board.checkWin b2).
  - split; [by right|].
    destruct (gameOver_won_board None s3) as [Hmp Hl].
    rewrite Hmp, Hb3. split; [done|].
    unfold cellHas. rewrite Hl, Hb3, Hp2. cbn. unfold flaggedAtWin.
    by destruct (_ && _).
  - split; [by left|]. rewrite Hb3. split; [done|].
    unfold cellHas. by rewrite Hp2.
Qed.

Lemma first_click_never_loses_witness :
  ∃ s', Game.handleReveal
          (Game.newGame 9 9 10 None false (mkRng (λ _, 0%Q) 0) 0).1.1 4 4
        = Some s'
    ∧ (gameState s' = playing ∨ gameState s' = won)
    ∧ minesPlaced (board s') = true
    ∧ cellHas isRevealed (board s') (Z.to_nat (4 * 9 + 4)) = true.
Proof.
  apply (first_click_never_loses 9 9 10 None false (mkRng (λ _, 0%Q) 0) 0 4 4);
    lia.
Defined.

(** X25: a chord that sets off a mine under the shield.  The shield is
    spent and the session stays in play; the mine the chord reports is
    covered again and flagged; every other cell is left as the chord left
    it - a second mine the same chord set off stays revealed.  Without the
    shield the session is lost. *)
Theorem handleChord_mine_hit_shield_or_lost s r c b2 res :
  gameState s = playing → minesPlaced (board s) = true →
  Board.chordReveal (board s) r c = Some (b2, res) → hitMine res = true →
  (shieldActive (powerups s) = true →
     ∃ e ce s',
       explodedCell res = Some e ∧ cells b2 !! e = Some ce
       ∧ isMine ce = true
       ∧ Game.handleChord s r c = Some s'
       ∧ gameState s' = playing ∧ shieldActive (powerups s') = false
       ∧ cells (board s') !! e = Some (setFlagged true (setRevealed false ce))
       ∧ ∀ q, q ≠ e → cells (board s') !! q = cells b2 !! q)
  ∧ (shieldActive (powerups s) = false →
     ∃ s', Game.handleChord s r c = Some s' ∧ gameState s' = lost).
Proof.
  intros Hplay Hmp Hrun Hhit.
  destruct (chordReveal_uncovers _ _ _ _ _ Hrun) as (new & Hb2 & Hfresh & Hm).
  destruct (Hm Hhit) as (e & He & Hin & Hmine).
  unfold cellHas in Hmine.
  destruct (cells (board s) !! e) as [ce0|] eqn:Ece0; [|done].
  assert (cells b2 !! e = Some (setRevealed true ce0)) as Hce
    by (rewrite Hb2, lookup_revealAll_in, Ece0; done).
  unfold Game.handleChord. rewrite Hplay, Hmp, Hrun, Hhit. cbn [negb].
  unfold PowerUps.consumeShield, Game.withBoard. cbn [powerups].
  split; intros Hsh; rewrite Hsh; cbn [negb].
  - rewrite He. exists e, (setRevealed true ce0). eexists.
    split; [done|]. split; [done|]. split; [done|]. split; [done|].
    cbn [gameState powerups shieldActive board].
    split; [done|]. split; [done|]. split.
    + by rewrite !lookup_updCell_eq, Hce.
    + intros q Hq. by rewrite !lookup_updCell_ne.
  - eexists. split; [done|]. done.
Qed.

Lemma handleChord_mine_hit_shield_or_lost_witness :
  ∃ e s', Game.handleChord (wrongFlagsSession true) 1 1 = Some s'
          ∧ gameState s' = playing ∧ shieldActive (powerups s') = false
          ∧ isFlagged <$> cells (board s') !! e = Some true
          ∧ isRevealed <$> cells (board s') !! e = Some false.
Proof.
  assert (∃ b2 res, Board.chordReveal (board (wrongFlagsSession true)) 1 1
                    = Some (b2, res) ∧ hitMine res = true)
    as (b2 & res & Hrun & Hhit)
    by (eexists _, _; split; vm_compute; reflexivity).
  destruct (proj1 (handleChord_mine_hit_shield_or_lost
                     (wrongFlagsSession true) 1 1 b2 res
                     eq_refl eq_refl Hrun Hhit) eq_refl)
    as (e & ce & s' & _ & _ & _ & Hs' & Hst & Hsh & Hcell & _).
  exists e, s'. rewrite Hcell. repeat split; assumption.
Defined.

(** X26: a finished game ignores every input.  After [gameOver], reveals,
    flags, chords and power-ups leave the session as it is, and the ticks
    of the timer no longer count. *)
Theorem finished_game_ignores_input isWon e s r c cfg type f ck maxTimer now :
  let s' := Game.gameOver isWon e s in
  Game.handleReveal s' r c = Some s' ∧ Game.handleFlag s' r c = s'
  ∧ Game.handleChord s' r c = Some s'
  ∧ Game.usePowerup cfg type s' f ck = Some (s', f, ck)
  ∧ Game.tick maxTimer now s' f ck = (f, ck).
Proof.
  intros s'.
  assert (gameState s' = won ∨ gameState s' = lost) as Hend
    by (unfold s', Game.gameOver; destruct isWon; auto).
  assert (timerRunning s' = false) as Hstop by done.
  unfold Game.handleReveal, Game.handleFlag, Game.handleChord,
    Game.usePowerup, Game.tick.
  rewrite Hstop. by destruct Hend as [-> | ->].
Qed.

End Outcomes.

(** ** The counters on display *)

Section Display.

Lemma padStart_toString (n : Z) :
  0 ≤ n ≤ 999 → UI.padStart 3 "0" (UI.toString n) = threeDigits n.
Proof.
  intros Hn.
  assert (forallb (λ k, bool_decide
            (UI.padStart 3 "0" (UI.toString (Z.of_nat k))
             = threeDigits (Z.of_nat k))) (seq 0 1000) = true) as Hall
    by (vm_compute; reflexivity).
  rewrite forallb_forall in Hall.
  assert (In (Z.to_nat n) (seq 0 1000)) as Hin by (apply in_seq; lia).
  apply Hall, bool_decide_eq_true in Hin.
  by rewrite Z2Nat.id in Hin by lia.
Qed.

Lemma updateMineCounter_digits (count : Z) :
  let n := Z.min (Z.abs count) 999 in
  UI.updateMineCounter count
  = if count <? 0
    then (Some "-"%char, Some (digitChar (n / 100)),
          Some (digitChar (n / 10 mod 10)))
    else (Some (digitChar (n / 100)), Some (digitChar (n / 10 mod 10)),
          Some (digitChar (n mod 10))).
Proof.
  intros n. unfold UI.updateMineCounter. fold n.
  rewrite (padStart_toString n) by (unfold n; lia).
  by destruct (count <? 0).
Qed.

(** X27: the mine counter shows the mines left, [mineCount] less the
    flags, clamped at 999.  A count that is not negative is shown by its
    three decimal digits.  A negative count is shown as a minus sign
    followed by the hundreds and the tens of its absolute value: the units
    are not shown, so with one to nine flags more than mines the counter
    reads [-00]. *)
Theorem updateMineCounter_shows_mines_left (s : Session) :
  let remaining := mineCount (board s) - Board.getFlagCount (board s) in
  let n := Z.min (Z.abs remaining) 999 in
  (0 ≤ remaining →
   Game.updateMineCounter s
   = (Some (digitChar (n / 100)), Some (digitChar (n / 10 mod 10)),
      Some (digitChar (n mod 10))))
  ∧ (remaining < 0 →
     Game.updateMineCounter s
     = (Some "-"%char, Some (digitChar (n / 100)),
        Some (digitChar (n / 10 mod 10))))
  ∧ (-9 ≤ remaining < 0 →
     Game.updateMineCounter s = (Some "-"%char, Some "0"%char, Some "0"%char)).
Proof.
  intros remaining n. unfold Game.updateMineCounter. fold remaining.
  pose proof (updateMineCounter_digits remaining) as Hd. cbv zeta in Hd.
  fold n in Hd. rewrite Hd.
  split; [|split]; intros Hr.
  - by rewrite (proj2 (Z.ltb_ge _ _)) by lia.
  - by rewrite (proj2 (Z.ltb_lt _ _)) by lia.
  - rewrite (proj2 (Z.ltb_lt _ _)) by lia.
    assert (n / 100 = 0 ∧ n / 10 mod 10 = 0) as [-> ->]; [|done].
    assert (1 ≤ n ≤ 9) as Hn by (unfold n; lia).
    rewrite (Z.div_small n 100), (Z.div_small n 10) by lia. done.
Qed.

Lemma updateMineCounter_shows_mines_left_witness :
  Game.updateMineCounter overflaggedSession
  = (Some "-"%char, Some "0"%char, Some "0"%char).
Proof.
  apply (proj2 (proj2 (updateMineCounter_shows_mines_left overflaggedSession))).
  vm_compute. split; [discriminate|reflexivity].
Defined.

(** X28: the timer display shows the three decimal digits of the time,
    clamped at 999. *)
Theorem updateTimer_shows_the_time (seconds : Z) :
  0 ≤ seconds →
  let n := Z.min seconds 999 in
  UI.updateTimer seconds
  = (Some (digitChar (n / 100)), Some (digitChar (n / 10 mod 10)),
     Some (digitChar (n mod 10))).
Proof.
  intros Hs n. unfold UI.updateTimer. fold n.
  by rewrite (padStart_toString n) by (unfold n; lia).
Qed.

Lemma updateTimer_shows_the_time_witness :
  UI.updateTimer 1234 = (Some "9"%char, Some "9"%char, Some "9"%char).
Proof. apply (updateTimer_shows_the_time 1234). lia. Defined.

End Display.

(** * The flag cycle on the boards the grid builds *)

Section FlagCycleBuilt.
Implicit Types (b : BoardState) (p q : nat).

(** A change of the board that leaves the markings of the unrevealed
    cells alone keeps the invariant. *)
Lemma flagCycleInvariant_keep b b' :
  (∀ q c', cells b' !! q = Some c' → isRevealed c' = false →
     ∃ c0, cells b !! q = Some c0 ∧ isRevealed c0 = false
           ∧ isFlagged c' = isFlagged c0 ∧ isQuestion c' = isQuestion c0) →
  flagCycleInvariant b → flagCycleInvariant b'.
Proof.
  intros Hkeep Hinv q c' Hq Hr.
  destruct (Hkeep q c' Hq Hr) as (c0 & Hc0 & Hr0 & Hf & Hqm).
  pose proof (Hinv q c0 Hc0 Hr0) as Hone.
  apply exactlyOneMarking_iff. apply exactlyOneMarking_iff in Hone.
  by rewrite Hf, Hqm.
Qed.

Lemma flagCycleInvariant_create nrows ncols mines cfg :
  flagCycleInvariant (Board.create nrows ncols mines cfg).
Proof.
  intros q cq Hq _. apply create_lookup in Hq.
  apply exactlyOneMarking_iff. rewrite Hq. by intros [? _].
Qed.

Lemma flagCycleInvariant_revealAll new b :
  flagCycleInvariant b → flagCycleInvariant (revealAll new b).
Proof.
  apply flagCycleInvariant_keep. intros q c' Hq Hr.
  destruct (revealAll_cell _ _ _ _ Hq) as (c0 & Hc0 & Heq & Hrv).
  exists c0. split; [done|]. split.
  - destruct (isRevealed c0) eqn:E; [|done].
    rewrite (proj2 Hrv) in Hr by by left. done.
  - rewrite Heq. done.
Qed.

Lemma flagCycleInvariant_placeMines b r c g :
  flagCycleInvariant b → flagCycleInvariant (Board.placeMines b r c g).1.
Proof.
  destruct (minesPlaced b) eqn:Emp.
  { unfold Board.placeMines. by rewrite Emp. }
  destruct (placeMines_spec b r c g Emp)
    as (mp & b3 & -> & _ & _ & _ & _ & Hc3).
  destruct (computeAdjacent_spec (Board.setMines b mp)) as (_ & _ & _ & Hc2).
  apply flagCycleInvariant_keep. intros q c' Hq Hr.
  change (cells (setMinesPlaced true b3) !! q) with (cells b3 !! q) in Hq.
  destruct (Hc3 q c' Hq) as (c2 & Hc2' & Heq).
  rewrite Hc2, lookup_setMines in Hc2'.
  destruct (cells b !! q) as [c0|] eqn:Ec0; [|by destruct (decide (q ∈ mp))].
  exists c0. split; [done|]. rewrite Heq in Hr |- *. simpl in Hr |- *.
  destruct (decide (q ∈ mp)); simpl in Hc2'; injection Hc2' as <-;
    unfold adjust in *; simpl in *; [done|].
  by destruct (isMine c0).
Qed.

Lemma flagCycleInvariant_revealAllMines b :
  flagCycleInvariant b → flagCycleInvariant (Board.revealAllMines b).1.
Proof.
  apply flagCycleInvariant_keep. intros q c' Hq Hr.
  rewrite lookup_revealAllMines in Hq.
  destruct (cells b !! q) as [c0|]; [|done]. injection Hq as <-.
  exists c0. split; [done|]. unfold shownAtEnd in *.
  destruct (isMine c0 && negb (isFlagged c0)); [done|].
  by destruct (negb (isMine c0) && isFlagged c0).
Qed.

(** Every board the grid functions build has each unrevealed cell in
    exactly one marking. *)
Lemma gridBuilt_flagCycleInvariant b : gridBuilt b → flagCycleInvariant b.
Proof.
  induction 1 as [nrows ncols mines cfg|b r c g _ IH|b r c b' res _ IH Hrun
                  |b r c b' res _ IH Hrun|b r c _ IH|b _ IH].
  - apply flagCycleInvariant_create.
  - by apply flagCycleInvariant_placeMines.
  - apply revealCell_frame in Hrun as (-> & _).
    by apply flagCycleInvariant_revealAll.
  - destruct (chordReveal_uncovers _ _ _ _ _ Hrun) as (new & -> & _).
    by apply flagCycleInvariant_revealAll.
  - by apply toggleFlag_preserves_invariant.
  - by apply flagCycleInvariant_revealAllMines.
Qed.

Lemma toggleFlags_gridBuilt coords b :
  gridBuilt b → gridBuilt (toggleFlags b coords).
Proof.
  revert b. induction coords as [|[r c] coords IH]; intros b Hb; [done|].
  simpl. apply IH. by apply built_toggleFlag.
Qed.

(** C8: on an unrevealed in-bounds cell carrying exactly one marking [m],
    [toggleFlag] reports a change, returns that cell, and leaves it with
    exactly the marking that follows [m] in the cycle unmarked, flagged,
    questioned, every other field and every other cell being as before;
    on every board the grid functions build each unrevealed cell carries
    exactly one of the three markings, before and after any sequence of
    [toggleFlag] calls; any sequence of [toggleFlag] calls keeps that
    property on whatever board has it; on a revealed cell or where there
    is no cell, nothing changes and [changed] is false. *)
Theorem toggleFlag_follows_cycle :
  (∀ b r c p (cell : Cell) m,
      Board.getCell b r c = Some p → cells b !! p = Some cell →
      isRevealed cell = false → marked m cell → exactlyOneMarking cell →
      ∃ b' cell',
        Board.toggleFlag b r c = (b', mkFlag true (Some p))
        ∧ cells b' !! p = Some cell'
        ∧ marked (nextMarking m) cell' ∧ exactlyOneMarking cell'
        ∧ cell' = setQuestion (isQuestion cell')
                    (setFlagged (isFlagged cell') cell)
        ∧ ∀ q, q ≠ p → cells b' !! q = cells b !! q)
  ∧ (∀ b, gridBuilt b →
          flagCycleInvariant b
          ∧ ∀ coords, gridBuilt (toggleFlags b coords)
                      ∧ flagCycleInvariant (toggleFlags b coords))
  ∧ (∀ b coords, flagCycleInvariant b →
                 flagCycleInvariant (toggleFlags b coords))
  ∧ (∀ b r c,
        outOfRange b r c ∨ Board.getCell b r c = None
        ∨ targets b r c (λ cell, isRevealed cell = true) →
        Board.toggleFlag b r c = (b, mkFlag false None)).
Proof.
  split; [|split; [|split]].
  - intros b r c p cell m Hg Hc Hr Hm Hone.
    destruct (toggleFlag_effect _ _ _ _ _ Hg Hc Hr)
      as (b' & nf & nq & Hrun & Hp & Hfq & Hother & _).
    exists b', (setQuestion nq (setFlagged nf cell)).
    split; [done|]. split; [done|].
    apply exactlyOneMarking_iff in Hone.
    split; [|split; [|split; [done|done]]].
    + destruct m; simpl in Hm.
      * destruct Hm as [Hf Hq]. rewrite Hf, Hq in Hfq.
        injection Hfq as -> ->. done.
      * rewrite Hm in Hfq. injection Hfq as -> ->. done.
      * destruct (isFlagged cell) eqn:Ef; [exfalso; by apply Hone|].
        rewrite Hm in Hfq. injection Hfq as -> ->. done.
    + apply exactlyOneMarking_iff. simpl. intros [-> ->].
      destruct (isFlagged cell); [done|]. by destruct (isQuestion cell).
  - intros b Hb. split; [by apply gridBuilt_flagCycleInvariant|].
    intros coords. split; [by apply toggleFlags_gridBuilt|].
    by apply gridBuilt_flagCycleInvariant, toggleFlags_gridBuilt.
  - intros b coords. revert b.
    induction coords as [|[r c] coords IH]; intros b Hinv; [done|].
    simpl. apply IH. by apply toggleFlag_preserves_invariant.
  - intros b r c [Hout|H]; apply toggleFlag_noop; [|done].
    left. by apply getCell_None_out.
Qed.

Lemma toggleFlag_follows_cycle_witness :
  (∃ b' cell',
     Board.toggleFlag flaggedMineBoard 0 2 = (b', mkFlag true (Some 2%nat))
     ∧ cells b' !! 2%nat = Some cell'
     ∧ marked questioned cell' ∧ exactlyOneMarking cell'
     ∧ isMine cell' = true)
  ∧ flagCycleInvariant
      (toggleFlags flaggedMineBoard [(0, 2); (0, 2); (0, 0); (0, 5)]).
Proof.
  split.
  - destruct (proj1 toggleFlag_follows_cycle flaggedMineBoard 0 2 2%nat
                (mkCell 0 2 2 true false true false 0 None false false)
                flagged eq_refl eq_refl eq_refl eq_refl)
      as (b' & cell' & Hrun & Hcell & Hm & Hone & Heq & _).
    { apply exactlyOneMarking_iff. intros [_ Hq]. discriminate Hq. }
    exists b', cell'. split; [exact Hrun|]. split; [exact Hcell|].
    split; [exact Hm|]. split; [exact Hone|]. rewrite Heq. reflexivity.
  - apply (proj1 (proj2 toggleFlag_follows_cycle) flaggedMineBoard).
    unfold flaggedMineBoard. cbv zeta.
    apply built_toggleFlag, built_placeMines, built_create.
Defined.

(** C8 refuted as stated: in the session [questionedMineShielded], still
    in play, the in-bounds cell [(0, 3)] is unrevealed and both flagged and
    questioned; it stays so after a [toggleFlag] call on another cell, and
    [toggleFlag] on the cell itself leaves a question mark where the cycle
    asks for no marking. *)
Lemma toggleFlag_cycle_fails_on_flagged_question_mark :
  ∃ s cell,
    questionedMineShielded = Some s
    ∧ gameState s = playing
    ∧ Board.getCell (board s) 0 3 = Some 3%nat
    ∧ cells (board s) !! 3%nat = Some cell
    ∧ isRevealed cell = false
    ∧ marked flagged cell ∧ marked questioned cell
    ∧ ¬ exactlyOneMarking cell
    ∧ ¬ flagCycleInvariant (toggleFlags (board s) [(0, 0)])
    ∧ ∃ cell', cells (Board.toggleFlag (board s) 0 3).1 !! 3%nat = Some cell'
               ∧ ¬ marked (nextMarking questioned) cell'.
Proof.
  eexists _, _. split; [vm_compute; reflexivity|].
  split; [reflexivity|]. split; [reflexivity|]. split; [reflexivity|].
  split; [reflexivity|]. split; [reflexivity|]. split; [reflexivity|].
  split.
  { intros Hone. apply exactlyOneMarking_iff in Hone. by apply Hone. }
  split.
  { intros Hinv.
    specialize (Hinv 3%nat
                  (mkCell 0 3 3 true false true true 0 None false false)
                  eq_refl eq_refl).
    apply exactlyOneMarking_iff in Hinv. by apply Hinv. }
  eexists. split; [vm_compute; reflexivity|].
  simpl. intros [_ Hq]. discriminate Hq.
Qed.

End FlagCycleBuilt.
